(** * zapresponder-api-vieira: the synchronisation job of [src/server.js]

    A shallow embedding of the run orchestrator ([runOnce]), the log writer
    ([insertLogs], [insertLog]), the log mapper ([mapLogs], [toSqlDateTime]),
    and the helpers [clampStr] and [buildProgressBar], followed by the
    properties of the specification that concern them.

    Conventions of the embedding:
    - a JavaScript string is a [string]; one character stands for one UTF-16
      code unit, so [String.length] is [.length] and [substring 0 n] is
      [.slice(0, n)];
    - a run-time value (a parsed JSON body, a column of a row) is a [value];
    - a counter is a [Z]; the two places where the source does floating-point
      arithmetic ([Math.round] of a quotient and a product) go through
      [Binary64], the nearest-even rounding of IEEE 754 double precision;
    - an ISO-8601 text written by [Date.prototype.toISOString] is represented
      by the time value (milliseconds since the epoch, a [Z]) that it denotes;
    - the module-level [status] object, the memoised [poolPromise], the clock
      and the console are the fields of one [World], threaded by the monad
      [M]; an exception keeps the state reached when it was raised;
    - code that can throw without touching that state ([String(value)],
      [new Date(value)], [mapLogs]) returns an [outcome];
    - every text is taken to be within the maximum string length of the
      engine, so that building it never fails for its length. *)

From Stdlib Require Import ZArith QArith Qabs Qround Qreduction Qpower.
From Stdlib Require Import List String Ascii Bool Lia.
From Stdlib Require Import Floats DecimalString.
Import ListNotations.

Local Open Scope string_scope.
Local Open Scope Z_scope.

(** ** Results of fallible code *)

(** [Throw msg] is a raised [Error] whose [.message] is [msg]. *)
Inductive outcome (A : Type) : Type :=
| Ok (a : A)
| Throw (msg : string).
Arguments Ok {A} a.
Arguments Throw {A} msg.

(** The next step runs only if the one before did not throw. *)
Definition and_then {A B : Type} (r : outcome A) (k : A -> outcome B) : outcome B :=
  match r with
  | Ok a => k a
  | Throw msg => Throw msg
  end.

(** [f] applied to the elements in order, up to the first that throws
    ([Array.prototype.map] with a callback that may throw). *)
Fixpoint map_all {A B : Type} (f : A -> outcome B) (l : list A) : outcome (list B) :=
  match l with
  | [] => Ok []
  | x :: rest =>
      and_then (f x) (fun y => and_then (map_all f rest) (fun ys => Ok (y :: ys)))
  end.

(** ** Double-precision rounding *)

Module Binary64.

(** Significand width of binary64. *)
Definition prec : Z := 53.

(** [ilog2 q] is the integer [k] with [2^k <= q < 2^(k+1)], for [q > 0]. *)
Definition ilog2 (q : Q) : Z :=
  let k := Z.log2 (Qnum q) - Z.log2 (Zpos (Qden q)) in
  if Qle_bool (Qpower 2 k) q then k else k - 1.

(** Nearest integer, ties to the even one. *)
Definition rne (x : Q) : Z :=
  let f := Qfloor x in
  match Qcompare (x - inject_Z f) (1 # 2) with
  | Lt => f
  | Gt => f + 1
  | Eq => if Z.even f then f else f + 1
  end.

(** A positive rational rounded to 53 significant bits. *)
Definition round_pos (q : Q) : Q :=
  let e := ilog2 q - (prec - 1) in
  Qred (inject_Z (rne (q / Qpower 2 e)) * Qpower 2 e).

(** The double nearest to [q] (for [q] within the normal range of
    binary64, which every quotient and product of the program is). *)
Definition round (q : Q) : Q :=
  match Qcompare q 0 with
  | Eq => 0%Q
  | Gt => round_pos (Qred q)
  | Lt => Qopp (round_pos (Qred (Qopp q)))
  end.

(** [x / y] and [x * y] on doubles. *)
Definition div (x y : Q) : Q := round (x / y).
Definition mul (x y : Q) : Q := round (x * y).

(** The rational denoted by a kernel float, for comparison with the
    hardware arithmetic. *)
Definition of_spec (x : spec_float) : option Q :=
  match x with
  | S754_zero _ => Some 0%Q
  | S754_finite s m e =>
      Some (Qred (inject_Z (if s then Z.neg m else Z.pos m) * Qpower 2 e))
  | _ => None
  end.

Definition of_float (x : float) : option Q := of_spec (Prim2SF x).

Definition to_float (z : Z) : float := PrimFloat.of_uint63 (Uint63.of_Z z).

End Binary64.

(** [Math.round]: the nearest integer, ties towards plus infinity. *)
Definition Math_round (x : Q) : Z := Qfloor (x + (1 # 2)).

(** ** Run-time values *)

(** A JavaScript number: a finite double (as the rational it denotes; the
    two zeros are not distinguished), an infinity or NaN. *)
Inductive number : Type :=
| Fin (q : Q)
| Inf (negative : bool)
| NaN.

(** What [JSON.parse] and the SQL driver hand to the program, plus
    [undefined], which reading an absent property yields. An object is the
    list of its own properties. *)
#[warnings="-register-all"]
Inductive value : Type :=
| VUndef
| VNull
| VBool (b : bool)
| VNum (x : number)
| VStr (s : string)
| VArr (items : list value)
| VObj (props : list (string * value)).

(** [!v] is false. *)
Definition truthy (v : value) : bool :=
  match v with
  | VUndef | VNull => false
  | VBool b => b
  | VNum (Fin q) => negb (Qeq_bool q 0)
  | VNum (Inf _) => true
  | VNum NaN => false
  | VStr s => negb (String.eqb s "")
  | VArr _ | VObj _ => true
  end.

Definition nullish (v : value) : bool :=
  match v with
  | VUndef | VNull => true
  | _ => false
  end.

(** [a ?? b] *)
Definition coalesce (a b : value) : value := if nullish a then b else a.

(** [a || b] *)
Definition or_else (a b : value) : value := if truthy a then a else b.

Fixpoint lookup (k : string) (props : list (string * value)) : value :=
  match props with
  | [] => VUndef
  | (k', v) :: rest => if String.eqb k k' then v else lookup k rest
  end.

(** Whether an object has an own property named [k]. *)
Definition has_own (k : string) (props : list (string * value)) : bool :=
  existsb (fun p => String.eqb k (fst p)) props.

(** [v.k] for a non-nullish [v] and a key [k] that no prototype defines
    (every key the program reads is such a key: none of them is a built-in
    property of strings, arrays, numbers or booleans). *)
Definition get (v : value) (k : string) : value :=
  match v with
  | VObj props => lookup k props
  | _ => VUndef
  end.

(** [v?.k] *)
Definition opt_get (v : value) (k : string) : value :=
  if nullish v then VUndef else get v k.

(** [v?.[0]] *)
Definition opt_first (v : value) : value :=
  match v with
  | VArr (x :: _) => x
  | VStr (String c _) => VStr (String c "")
  | VObj props => lookup "0" props
  | _ => VUndef
  end.

(** [Array.isArray(v) ? v : []] *)
Definition array_or_empty (v : value) : list value :=
  match v with
  | VArr items => items
  | _ => []
  end.

(** The parts of the JavaScript run time that the source relies on and that
    are not rebuilt here: [Number::toString]; what [Date.parse] does with a
    text that is not in the ECMAScript date-time format (left to the
    implementation by ECMA-262); and the host's time zone, as the offset
    (local minus UTC, in milliseconds) in force at a UTC instant and the
    offset under which a local wall-clock time is read back (ECMA-262's
    [LocalTime] and [UTC]). *)
Record Host : Type := {
  Number_toString : number -> string;
  legacy_parse : string -> option Z;
  offset_at_utc : Z -> Z;
  offset_at_local : Z -> Z
}.

Section Runtime.

Variable host : Host.

(** [String(v)], and [`${v}`] (ECMA-262, 7.1.17). An object is converted
    through its [toString]: the inherited one gives ["[object Object]"];
    an own property of that name, which in parsed data is never a
    function, hides it, and then no conversion is left (the inherited
    [valueOf] returns the object itself): a [TypeError]. An array joins the
    texts of its elements, [null] and [undefined] giving the empty text,
    and throws when an element does. *)
Fixpoint ToString (v : value) : outcome string :=
  match v with
  | VUndef => Ok "undefined"
  | VNull => Ok "null"
  | VBool true => Ok "true"
  | VBool false => Ok "false"
  | VNum x => Ok (Number_toString host x)
  | VStr s => Ok s
  | VArr items =>
      (fix join (l : list value) : outcome string :=
         match l with
         | [] => Ok ""
         | [x] => if nullish x then Ok "" else ToString x
         | x :: rest =>
             and_then (if nullish x then Ok "" else ToString x)
               (fun first => and_then (join rest)
                               (fun others => Ok (first ++ "," ++ others)))
         end) items
  | VObj props =>
      if has_own "toString" props
      then Throw "Cannot convert object to primitive value"
      else Ok "[object Object]"
  end.

(** [[
function clampStr(value, maxLen) {
  if (value === null || value === undefined) return null;
  const str = String(value);
  return str.length > maxLen ? str.slice(0, maxLen) : str;
}
]]
    The result is [None] for [null]. [maxLen] is a non-negative integer.
    [String(value)] throws when the value has no text. *)
Definition clampStr (v : value) (maxLen : Z) : outcome (option string) :=
  match v with
  | VNull | VUndef => Ok None
  | _ =>
      and_then (ToString v)
        (fun str =>
           Ok (if Z.of_nat (String.length str) >? maxLen
               then Some (substring 0 (Z.to_nat maxLen) str)
               else Some str))
  end.

(** [s.repeat(count)] for an integral [count]: a [RangeError] when it is
    negative. The engine throws a [RangeError] too when the text would be
    longer than its maximum string length, and at [Infinity]; that is left
    out here, and [repeat_nat] stands for texts within that length only
    (every count of a run is at most 20; where the count is arbitrary, the
    statement bounds it by [safe_string_length]). *)
Fixpoint repeat_nat (s : string) (n : nat) : string :=
  match n with
  | O => ""
  | S n' => s ++ repeat_nat s n'
  end.

Definition String_repeat (s : string) (count : Z) : outcome string :=
  if count <? 0 then Throw "Invalid count value"
  else Ok (repeat_nat s (Z.to_nat count)).

(** [[
function buildProgressBar(percent, width) {
  const size = width || 20;
  const filled = Math.round((percent / 100) * size);
  const empty = Math.max(size - filled, 0);
  return `[${'#'.repeat(filled)}${'-'.repeat(empty)}]`;
}
]]
    [width] is [None] when the argument is omitted, as at both call sites. *)
Definition bar_size (width : option Z) : Z :=
  match width with
  | Some w => if w =? 0 then 20 else w
  | None => 20
  end.

Definition bar_filled (percent : Q) (size : Z) : Z :=
  Math_round (Binary64.mul (Binary64.div percent 100) (inject_Z size)).

Definition buildProgressBar (percent : Q) (width : option Z) : outcome string :=
  let size := bar_size width in
  let filled := bar_filled percent size in
  let empty := Z.max (size - filled) 0 in
  match String_repeat "#" filled with
  | Throw m => Throw m
  | Ok hashes =>
      match String_repeat "-" empty with
      | Throw m => Throw m
      | Ok dashes => Ok ("[" ++ hashes ++ dashes ++ "]")
      end
  end.

(** ** Dates (ECMA-262, 21.4.1) *)

(** A [Date] object: its time value, or NaN for an invalid date. *)
Inductive date : Type :=
| ValidDate (t : Z)
| InvalidDate.

Definition msPerSecond : Z := 1000.
Definition msPerMinute : Z := 60000.
Definition msPerHour : Z := 3600000.
Definition msPerDay : Z := 86400000.

Definition Day (t : Z) : Z := t / msPerDay.
Definition HourFromTime (t : Z) : Z := (t / msPerHour) mod 24.
Definition MinFromTime (t : Z) : Z := (t / msPerMinute) mod 60.
Definition SecFromTime (t : Z) : Z := (t / msPerSecond) mod 60.
Definition msFromTime (t : Z) : Z := t mod msPerSecond.

Definition MakeTime (hour min sec ms : Z) : Z :=
  hour * msPerHour + min * msPerMinute + sec * msPerSecond + ms.

Definition MakeDate (day time : Z) : Z := day * msPerDay + time.

Definition TimeClip (t : Z) : date :=
  if Z.abs t >? 8640000000000000 then InvalidDate else ValidDate t.

Definition LocalTime (t : Z) : Z := t + offset_at_utc host t.
Definition UTC (t : Z) : Z := t - offset_at_local host t.

(** Days from the epoch to a day of the proleptic Gregorian calendar
    ([MakeDay] for in-range month and day). *)
Definition days_from_civil (y m d : Z) : Z :=
  let y' := if m <=? 2 then y - 1 else y in
  let era := y' / 400 in
  let yoe := y' - era * 400 in
  let doy := (153 * ((m + 9) mod 12) + 2) / 5 + d - 1 in
  era * 146097 + (yoe * 365 + yoe / 4 - yoe / 100 + doy) - 719468.

Definition is_leap (y : Z) : bool :=
  ((y mod 4 =? 0) && negb (y mod 100 =? 0)) || (y mod 400 =? 0).

Definition DaysInMonth (y m : Z) : Z :=
  if m =? 2 then (if is_leap y then 29 else 28)
  else if (m =? 4) || (m =? 6) || (m =? 9) || (m =? 11) then 30
  else 31.

(** *** The date-time string format (21.4.1.32) *)

Definition digit (c : ascii) : option Z :=
  let n := Z.of_nat (nat_of_ascii c) in
  if (48 <=? n) && (n <=? 57) then Some (n - 48) else None.

(** Exactly [n] decimal digits. *)
Fixpoint digits (n : nat) (acc : Z) (s : string) : option (Z * string) :=
  match n with
  | O => Some (acc, s)
  | S n' =>
      match s with
      | String c rest =>
          match digit c with
          | Some d => digits n' (acc * 10 + d) rest
          | None => None
          end
      | EmptyString => None
      end
  end.

(** The fields of a text in the format; [zone] is the offset in minutes when
    one is written, [timed] whether a time of day is. *)
Record iso_fields : Type := {
  f_year : Z; f_month : Z; f_day : Z;
  f_hour : Z; f_min : Z; f_sec : Z; f_ms : Z;
  f_timed : bool;
  f_zone : option Z
}.

(** [YYYY], or a sign and six digits ([-000000] is not allowed). *)
Definition parse_year (s : string) : option (Z * string) :=
  match s with
  | String "+" rest => digits 6 0 rest
  | String "-" rest =>
      match digits 6 0 rest with
      | Some (y, rest') => if y =? 0 then None else Some (- y, rest')
      | None => None
      end
  | _ => digits 4 0 s
  end.

(** [Z], [+HH:mm], [-HH:mm] or nothing, up to the end of the text. *)
Definition parse_zone (s : string) : option (option Z) :=
  match s with
  | EmptyString => Some None
  | String "Z" EmptyString => Some (Some 0)
  | String sign rest =>
      if Ascii.eqb sign "+" || Ascii.eqb sign "-" then
        match digits 2 0 rest with
        | Some (h, String ":" rest') =>
            match digits 2 0 rest' with
            | Some (m, EmptyString) =>
                if (h <=? 23) && (m <=? 59)
                then Some (Some ((if Ascii.eqb sign "-" then -1 else 1) * (h * 60 + m)))
                else None
            | _ => None
            end
        | _ => None
        end
      else None
  end.

(** [.sss] or nothing, then the zone. *)
Definition parse_ms (s : string) : option (Z * option Z) :=
  match s with
  | String "." rest =>
      match digits 3 0 rest with
      | Some (ms, rest') =>
          match parse_zone rest' with
          | Some z => Some (ms, z)
          | None => None
          end
      | None => None
      end
  | _ =>
      match parse_zone s with
      | Some z => Some (0, z)
      | None => None
      end
  end.

(** [HH:mm], [HH:mm:ss] or [HH:mm:ss.sss], then the zone. *)
Definition parse_time (s : string) : option (Z * Z * Z * Z * option Z) :=
  match digits 2 0 s with
  | Some (h, String ":" rest) =>
      match digits 2 0 rest with
      | Some (m, String ":" rest') =>
          match digits 2 0 rest' with
          | Some (sec, rest'') =>
              match parse_ms rest'' with
              | Some (ms, z) => Some (h, m, sec, ms, z)
              | None => None
              end
          | None => None
          end
      | Some (m, rest') =>
          match parse_zone rest' with
          | Some z => Some (h, m, 0, 0, z)
          | None => None
          end
      | None => None
      end
  | _ => None
  end.

(** The optional time of day that follows a date. *)
Definition parse_tail (y mo d : Z) (s : string) : option iso_fields :=
  match s with
  | EmptyString => Some (Build_iso_fields y mo d 0 0 0 0 false None)
  | String "T" rest =>
      match parse_time rest with
      | Some (h, m, sec, ms, z) => Some (Build_iso_fields y mo d h m sec ms true z)
      | None => None
      end
  | _ => None
  end.

(** [YYYY], [YYYY-MM] or [YYYY-MM-DD], then the optional time. *)
Definition parse_fields (s : string) : option iso_fields :=
  match parse_year s with
  | Some (y, String "-" rest) =>
      match digits 2 0 rest with
      | Some (mo, String "-" rest') =>
          match digits 2 0 rest' with
          | Some (d, rest'') => parse_tail y mo d rest''
          | None => None
          end
      | Some (mo, rest') => parse_tail y mo 1 rest'
      | None => None
      end
  | Some (y, rest) => parse_tail y 1 1 rest
  | None => None
  end.

(** The element values that the format allows. *)
Definition legal_fields (f : iso_fields) : bool :=
  (1 <=? f_month f) && (f_month f <=? 12) &&
  (1 <=? f_day f) && (f_day f <=? DaysInMonth (f_year f) (f_month f)) &&
  (f_hour f <=? 24) && (f_min f <=? 59) && (f_sec f <=? 59) &&
  ((f_hour f <? 24) || ((f_min f =? 0) && (f_sec f =? 0) && (f_ms f =? 0))).

(** The time value of a legal text: a written zone is applied; without one
    a date alone is UTC and a date with a time is local time. *)
Definition fields_time (f : iso_fields) : Z :=
  let t := MakeDate (days_from_civil (f_year f) (f_month f) (f_day f))
                    (MakeTime (f_hour f) (f_min f) (f_sec f) (f_ms f)) in
  match f_zone f with
  | Some minutes => t - minutes * msPerMinute
  | None => if f_timed f then UTC t else t
  end.

Definition parse_iso (s : string) : option Z :=
  match parse_fields s with
  | Some f => if legal_fields f then Some (fields_time f) else None
  | None => None
  end.

(** [Date.parse(s)], as the [Date] it builds: the format first, the
    implementation's own reading otherwise. *)
Definition Date_parse (s : string) : date :=
  match parse_iso s with
  | Some t => TimeClip t
  | None =>
      match legacy_parse host s with
      | Some t => TimeClip t
      | None => InvalidDate
      end
  end.

(** [new Date(v)] for one argument (21.4.2.1): a string is parsed; an
    object or array is first converted to a primitive, which is its text
    or a [TypeError] as for [String(v)] (the inherited [valueOf], tried
    first, returns the object itself); anything else is converted to a
    number. *)
Definition new_Date (v : value) : outcome date :=
  match v with
  | VStr s => Ok (Date_parse s)
  | VArr _ | VObj _ => and_then (ToString v) (fun s => Ok (Date_parse s))
  | VNum (Fin q) =>
      Ok (if Qle_bool (Qabs q) 8640000000000000
          then ValidDate (Z.quot (Qnum q) (Zpos (Qden q)))
          else InvalidDate)
  | VNum _ => Ok InvalidDate
  | VBool b => Ok (ValidDate (if b then 1 else 0))
  | VNull => Ok (ValidDate 0)
  | VUndef => Ok InvalidDate
  end.

(** [d.getHours()] and [d.setHours(hour)] on a valid date of time value
    [t] (21.4.4.5, 21.4.4.22); the latter returns the date as updated. *)
Definition getHours (t : Z) : Z := HourFromTime (LocalTime t).

Definition setHours (t : Z) (hour : Z) : date :=
  let lt := LocalTime t in
  TimeClip (UTC (MakeDate (Day lt)
                   (MakeTime hour (MinFromTime lt) (SecFromTime lt) (msFromTime lt)))).

(** [[
function toSqlDateTime(iso) {
  if (!iso) return null;
  const d = new Date(iso);
  if (isNaN(d.getTime())) return null;
  d.setHours(d.getHours() - 3);
  return d;
}
]]
    [None] is [null]. The function throws when [new Date(iso)] does. *)
Definition toSqlDateTime (iso : value) : outcome (option date) :=
  if negb (truthy iso) then Ok None
  else
    and_then (new_Date iso)
      (fun d =>
         match d with
         | InvalidDate => Ok None
         | ValidDate t => Ok (Some (setHours t (getHours t - 3)))
         end).

End Runtime.

(** ** The log mapper *)

(** A mapped record, as [mapLogs] builds it. *)
Record MappedLog : Type := {
  m_status : value;
  m_destino : value;
  m_id : value;
  m_departamento : value;
  m_template_name : value;
  m_contact_name : value;
  m_createdAt : option date
}.

(** The parameters bound to one [INSERT INTO dbo.logs_whatsapp]. *)
Record Row : Type := {
  r_id : option string;
  r_status : option string;
  r_destino : option string;
  r_departamento : option string;
  r_template_name : option string;
  r_contact_name : option string;
  r_created_at : option date
}.

(** ** The process state *)

(** The [status] object. A timestamp field holds the time value of the ISO
    text that the source stores. *)
Record Status : Type := {
  running : bool;
  lastRunStartedAt : option Z;
  lastRunFinishedAt : option Z;
  lastSuccessAt : option Z;
  lastError : option string;
  lastErrorAt : option Z;
  campaignsTotal : Z;
  campaignsProcessed : Z;
  logsInserted : Z;
  logInsertErrors : Z;
  currentCampaignId : value;
  progressPercent : Z;
  progressBar : string;
  lastLogCreatedAt : option Z
}.

(** The object literal of the source. *)
Definition initial_status : Status := {|
  running := false;
  lastRunStartedAt := None;
  lastRunFinishedAt := None;
  lastSuccessAt := None;
  lastError := None;
  lastErrorAt := None;
  campaignsTotal := 0;
  campaignsProcessed := 0;
  logsInserted := 0;
  logInsertErrors := 0;
  currentCampaignId := VNull;
  progressPercent := 0;
  progressBar := "";
  lastLogCreatedAt := None
|}.

(** Field assignments. *)
Definition set_running (v : bool) (s : Status) : Status :=
  Build_Status v (lastRunStartedAt s) (lastRunFinishedAt s) (lastSuccessAt s)
    (lastError s) (lastErrorAt s) (campaignsTotal s) (campaignsProcessed s)
    (logsInserted s) (logInsertErrors s) (currentCampaignId s)
    (progressPercent s) (progressBar s) (lastLogCreatedAt s).

Definition set_lastRunStartedAt (v : option Z) (s : Status) : Status :=
  Build_Status (running s) v (lastRunFinishedAt s) (lastSuccessAt s)
    (lastError s) (lastErrorAt s) (campaignsTotal s) (campaignsProcessed s)
    (logsInserted s) (logInsertErrors s) (currentCampaignId s)
    (progressPercent s) (progressBar s) (lastLogCreatedAt s).

Definition set_lastRunFinishedAt (v : option Z) (s : Status) : Status :=
  Build_Status (running s) (lastRunStartedAt s) v (lastSuccessAt s)
    (lastError s) (lastErrorAt s) (campaignsTotal s) (campaignsProcessed s)
    (logsInserted s) (logInsertErrors s) (currentCampaignId s)
    (progressPercent s) (progressBar s) (lastLogCreatedAt s).

Definition set_lastSuccessAt (v : option Z) (s : Status) : Status :=
  Build_Status (running s) (lastRunStartedAt s) (lastRunFinishedAt s) v
    (lastError s) (lastErrorAt s) (campaignsTotal s) (campaignsProcessed s)
    (logsInserted s) (logInsertErrors s) (currentCampaignId s)
    (progressPercent s) (progressBar s) (lastLogCreatedAt s).

Definition set_lastError (v : option string) (s : Status) : Status :=
  Build_Status (running s) (lastRunStartedAt s) (lastRunFinishedAt s) (lastSuccessAt s)
    v (lastErrorAt s) (campaignsTotal s) (campaignsProcessed s)
    (logsInserted s) (logInsertErrors s) (currentCampaignId s)
    (progressPercent s) (progressBar s) (lastLogCreatedAt s).

Definition set_lastErrorAt (v : option Z) (s : Status) : Status :=
  Build_Status (running s) (lastRunStartedAt s) (lastRunFinishedAt s) (lastSuccessAt s)
    (lastError s) v (campaignsTotal s) (campaignsProcessed s)
    (logsInserted s) (logInsertErrors s) (currentCampaignId s)
    (progressPercent s) (progressBar s) (lastLogCreatedAt s).

Definition set_campaignsTotal (v : Z) (s : Status) : Status :=
  Build_Status (running s) (lastRunStartedAt s) (lastRunFinishedAt s) (lastSuccessAt s)
    (lastError s) (lastErrorAt s) v (campaignsProcessed s)
    (logsInserted s) (logInsertErrors s) (currentCampaignId s)
    (progressPercent s) (progressBar s) (lastLogCreatedAt s).

Definition set_campaignsProcessed (v : Z) (s : Status) : Status :=
  Build_Status (running s) (lastRunStartedAt s) (lastRunFinishedAt s) (lastSuccessAt s)
    (lastError s) (lastErrorAt s) (campaignsTotal s) v
    (logsInserted s) (logInsertErrors s) (currentCampaignId s)
    (progressPercent s) (progressBar s) (lastLogCreatedAt s).

Definition set_logsInserted (v : Z) (s : Status) : Status :=
  Build_Status (running s) (lastRunStartedAt s) (lastRunFinishedAt s) (lastSuccessAt s)
    (lastError s) (lastErrorAt s) (campaignsTotal s) (campaignsProcessed s)
    v (logInsertErrors s) (currentCampaignId s)
    (progressPercent s) (progressBar s) (lastLogCreatedAt s).

Definition set_logInsertErrors (v : Z) (s : Status) : Status :=
  Build_Status (running s) (lastRunStartedAt s) (lastRunFinishedAt s) (lastSuccessAt s)
    (lastError s) (lastErrorAt s) (campaignsTotal s) (campaignsProcessed s)
    (logsInserted s) v (currentCampaignId s)
    (progressPercent s) (progressBar s) (lastLogCreatedAt s).

Definition set_currentCampaignId (v : value) (s : Status) : Status :=
  Build_Status (running s) (lastRunStartedAt s) (lastRunFinishedAt s) (lastSuccessAt s)
    (lastError s) (lastErrorAt s) (campaignsTotal s) (campaignsProcessed s)
    (logsInserted s) (logInsertErrors s) v
    (progressPercent s) (progressBar s) (lastLogCreatedAt s).

Definition set_progressPercent (v : Z) (s : Status) : Status :=
  Build_Status (running s) (lastRunStartedAt s) (lastRunFinishedAt s) (lastSuccessAt s)
    (lastError s) (lastErrorAt s) (campaignsTotal s) (campaignsProcessed s)
    (logsInserted s) (logInsertErrors s) (currentCampaignId s)
    v (progressBar s) (lastLogCreatedAt s).

Definition set_progressBar (v : string) (s : Status) : Status :=
  Build_Status (running s) (lastRunStartedAt s) (lastRunFinishedAt s) (lastSuccessAt s)
    (lastError s) (lastErrorAt s) (campaignsTotal s) (campaignsProcessed s)
    (logsInserted s) (logInsertErrors s) (currentCampaignId s)
    (progressPercent s) v (lastLogCreatedAt s).

Definition set_lastLogCreatedAt (v : option Z) (s : Status) : Status :=
  Build_Status (running s) (lastRunStartedAt s) (lastRunFinishedAt s) (lastSuccessAt s)
    (lastError s) (lastErrorAt s) (campaignsTotal s) (campaignsProcessed s)
    (logsInserted s) (logInsertErrors s) (currentCampaignId s)
    (progressPercent s) (progressBar s) v.

(** Network and storage requests, in the order they are made. *)
Inductive event : Type :=
| Connect
| QueryCampaigns
| FetchLogs (campaignId : value)
| InsertRow (row : Row).

(** Everything the program mutates or emits: the [status] object, whether
    [poolPromise] has been created, how often the clock was read, the
    requests made so far (latest first) and the console lines (latest
    first). *)
Record World : Type := {
  status : Status;
  poolPromise : bool;
  ticks : nat;
  io : list event;
  console : list string
}.

Definition initial_world : World :=
  Build_World initial_status false O [] [].

(** What the program does not control: the configured token, the clock
    (its successive readings), and how each request settles. A request's
    outcome may depend on everything requested before it, through the
    number of earlier requests. [sql.connect] is called once per process,
    so it settles one way. *)
Record Env : Type := {
  api_token : option string;
  clock : nat -> Z;
  sql_connect : outcome unit;
  query_campaigns : nat -> outcome (list value);
  fetch_logs : nat -> value -> outcome value;
  insert_query : nat -> Row -> outcome unit
}.

(** ** A state monad with exceptions *)

Definition M (A : Type) : Type := World -> outcome A * World.

Definition ret {A : Type} (a : A) : M A := fun w => (Ok a, w).

Definition bind {A B : Type} (m : M A) (k : A -> M B) : M B :=
  fun w =>
    match m w with
    | (Ok a, w') => k a w'
    | (Throw msg, w') => (Throw msg, w')
    end.

Definition throw {A : Type} (msg : string) : M A := fun w => (Throw msg, w).

(** [try { body } catch (err) { handler(err.message) }] *)
Definition try_catch {A : Type} (body : M A) (handler : string -> M A) : M A :=
  fun w =>
    match body w with
    | (Ok a, w') => (Ok a, w')
    | (Throw msg, w') => handler msg w'
    end.

(** [try { body } finally { cleanup }] *)
Definition finally {A : Type} (body : M A) (cleanup : M unit) : M A :=
  fun w =>
    match body w with
    | (r, w') =>
        match cleanup w' with
        | (Ok _, w'') => (r, w'')
        | (Throw msg, w'') => (Throw msg, w'')
        end
    end.

Definition lift {A : Type} (r : outcome A) : M A := fun w => (r, w).

Declare Scope run_scope.
Delimit Scope run_scope with run.
Notation "x <- m ;; k" := (bind m (fun x => k))
  (at level 100, m at next level, right associativity) : run_scope.
Notation "m ;; k" := (bind m (fun _ => k))
  (at level 100, right associativity) : run_scope.

Definition modify (f : Status -> Status) : M unit :=
  fun w => (Ok tt, Build_World (f (status w)) (poolPromise w) (ticks w) (io w) (console w)).

Definition get_status : M Status := fun w => (Ok (status w), w).

(** [console.log], [console.warn] and [console.error]. *)
Definition console_write (line : string) : M unit :=
  fun w => (Ok tt, Build_World (status w) (poolPromise w) (ticks w) (io w) (line :: console w)).

Definition request (e : event) (w : World) : World :=
  Build_World (status w) (poolPromise w) (ticks w) (e :: io w) (console w).

(** ** The program *)

Section Program.

Variable host : Host.
Variable env : Env.

Local Open Scope run_scope.

(** [[
function nowIso() { return new Date().toISOString(); }
]] *)
Definition nowIso : M Z :=
  fun w =>
    (Ok (clock env (ticks w)),
     Build_World (status w) (poolPromise w) (S (ticks w)) (io w) (console w)).

(** [[
async function getPool() {
  if (!poolPromise) { poolPromise = sql.connect(config.sql); }
  return poolPromise;
}
]]
    awaited: the connection is requested the first time only, and every
    call settles as that one promise does. *)
Definition getPool : M unit :=
  fun w =>
    if poolPromise w then (sql_connect env, w)
    else
      (sql_connect env,
       Build_World (status w) true (ticks w) (Connect :: io w) (console w)).

(** [[
async function fetchCampaigns(pool) {
  const query = 'SELECT * FROM campanhas ORDER BY created_at DESC;';
  const result = await pool.request().query(query);
  return result.recordset || [];
}
]] *)
Definition fetchCampaigns : M (list value) :=
  fun w => (query_campaigns env (List.length (io w)), request QueryCampaigns w).

(** [fetchLogsForCampaign(campaignId)]: the path is built first, from the
    text of the id (line 88), which throws when the id has none; then one
    GET: a response that is not ok, a network failure and a body that is
    not JSON all reject. [config.api.baseUrl] is taken to be a URL, as its
    default is. *)
Definition fetchLogsForCampaign (campaignId : value) : M value :=
  lift (ToString host campaignId) ;;
  fun w =>
    (fetch_logs env (List.length (io w)) campaignId, request (FetchLogs campaignId) w).

(** [[
function mapLogs(root) {
  const logs = Array.isArray(root?.logs) ? root.logs : [];
  return logs.map((l) => ({
    status: l?.status ?? null,
    destino: l?.destino ?? null,
    _id: l?.campanha ?? null,
    departamento: l?.departamento ?? null,
    template_name: l?.rawContact?.blocks?.[0]?.template?.name ?? null,
    contact_name: l?.rawContact?.contact?.name ?? null,
    createdAt: toSqlDateTime(l?.createdAt),
  }));
}
]]
    The first six fields are read without conversion; [toSqlDateTime]
    is the one call of the callback that can throw, and then [mapLogs]
    throws, at the first record on which it does. *)
Definition mapLog (l : value) : outcome MappedLog :=
  and_then (toSqlDateTime host (opt_get l "createdAt"))
    (fun createdAt =>
       Ok {| m_status := coalesce (opt_get l "status") VNull;
             m_destino := coalesce (opt_get l "destino") VNull;
             m_id := coalesce (opt_get l "campanha") VNull;
             m_departamento := coalesce (opt_get l "departamento") VNull;
             m_template_name :=
               coalesce
                 (opt_get
                    (opt_get (opt_first (opt_get (opt_get l "rawContact") "blocks"))
                       "template") "name")
                 VNull;
             m_contact_name :=
               coalesce (opt_get (opt_get (opt_get l "rawContact") "contact") "name")
                 VNull;
             m_createdAt := createdAt |}).

Definition mapLogs (root : value) : outcome (list MappedLog) :=
  map_all mapLog (array_or_empty (opt_get root "logs")).

(** The seven [request.input] bindings of [insertLog], in their order: the
    first [clampStr] that throws ends them. *)
Definition bind_row (item : MappedLog) : outcome Row :=
  and_then (clampStr host (m_id item) 255) (fun id =>
  and_then (clampStr host (m_status item) 30) (fun status =>
  and_then (clampStr host (m_destino item) 30) (fun destino =>
  and_then (clampStr host (m_departamento item) 255) (fun departamento =>
  and_then (clampStr host (m_template_name item) 100) (fun template_name =>
  and_then (clampStr host (m_contact_name item) 255) (fun contact_name =>
  Ok {| r_id := id;
        r_status := status;
        r_destino := destino;
        r_departamento := departamento;
        r_template_name := template_name;
        r_contact_name := contact_name;
        r_created_at := m_createdAt item |})))))).

(** [insertLog(pool, item)]: the bindings, then the query; when a binding
    throws the promise rejects and no query is sent. *)
Definition insertLog (item : MappedLog) : M unit :=
  row <- lift (bind_row item) ;;
  fun w => (insert_query env (List.length (io w)) row, request (InsertRow row) w).

(** [date.toISOString()]: a [RangeError] on an invalid date. *)
Definition toISOString (d : date) : M Z :=
  match d with
  | ValidDate t => ret t
  | InvalidDate => throw "Invalid time value"
  end.

(** Lines 160-165 of [insertLogs]:
[[
      if (item.createdAt) {
        const iso = item.createdAt.toISOString();
        if (!status.lastLogCreatedAt || new Date(iso) > new Date(status.lastLogCreatedAt)) {
          status.lastLogCreatedAt = iso;
        }
      }
]] *)
Definition note_created (item : MappedLog) : M unit :=
  match m_createdAt item with
  | None => ret tt
  | Some d =>
      iso <- toISOString d ;;
      s <- get_status ;;
      match lastLogCreatedAt s with
      | None => modify (set_lastLogCreatedAt (Some iso))
      | Some previous =>
          if iso >? previous then modify (set_lastLogCreatedAt (Some iso))
          else ret tt
      end
  end.

(** The [catch] block of [insertLogs]. *)
Definition insert_failed (msg : string) : M unit :=
  modify (fun s => set_logInsertErrors (logInsertErrors s + 1) s) ;;
  modify (set_lastError (Some ("Insert failed: " ++ msg))) ;;
  t <- nowIso ;;
  modify (set_lastErrorAt (Some t)) ;;
  console_write ("Insert failed: " ++ msg).

(** [[
async function insertLogs(pool, mappedLogs) {
  let inserted = 0;
  for (const item of mappedLogs) {
    try {
      await insertLog(pool, item);
      inserted += 1;
      ...
    } catch (err) {
      status.logInsertErrors += 1;
      status.lastError = `Insert failed: ${err.message}`;
      status.lastErrorAt = nowIso();
      console.error(status.lastError);
    }
  }
  return inserted;
}
]]
    [insert_one] is one iteration, [inserted] being the local counter on
    entry to it, and its result the counter on exit. The one [try] is
    written as two, because the handler sees the counter as it
    was when the exception was raised: before the increment when
    [insertLog] rejects, after it when [toISOString] throws. *)
Definition insert_one (inserted : Z) (item : MappedLog) : M Z :=
  try_catch
    (insertLog item ;;
     try_catch
       (note_created item ;; ret (inserted + 1))
       (fun msg => insert_failed msg ;; ret (inserted + 1)))
    (fun msg => insert_failed msg ;; ret inserted).

Fixpoint insertLogs_from (inserted : Z) (mappedLogs : list MappedLog) : M Z :=
  match mappedLogs with
  | [] => ret inserted
  | item :: rest =>
      inserted' <- insert_one inserted item ;;
      insertLogs_from inserted' rest
  end.

Definition insertLogs (mappedLogs : list MappedLog) : M Z :=
  insertLogs_from 0 mappedLogs.

(** Lines 228-230 of [runOnce]. *)
Definition percent_of (processed total : Z) : Z :=
  if total =? 0 then 100
  else Math_round (Binary64.mul (Binary64.div (inject_Z processed) (inject_Z total)) 100).

(** Lines 212-225: the [try] of one campaign; the result is the new value
    of [runHadError]. The handler builds its message from the text of the
    id before it assigns anything to [status]; when the id has no text it
    throws in its turn, out of the loop. *)
Definition campaign_try (campaignId : value) (runHadError : bool) : M bool :=
  try_catch
    ((if negb (truthy campaignId) then throw "Campaign missing id" else ret tt) ;;
     root <- fetchLogsForCampaign campaignId ;;
     mapped <- lift (mapLogs root) ;;
     inserted <- insertLogs mapped ;;
     modify (fun s => set_logsInserted (logsInserted s + inserted) s) ;;
     ret runHadError)
    (fun msg =>
       id <- lift (ToString host campaignId) ;;
       let text := "Campaign " ++ id ++ " failed: " ++ msg in
       modify (set_lastError (Some text)) ;;
       t <- nowIso ;;
       modify (set_lastErrorAt (Some t)) ;;
       console_write text ;;
       ret true).

(** Lines 227-234: the progress update that ends an iteration. *)
Definition progress_update (i : Z) : M unit :=
  modify (set_campaignsProcessed (i + 1)) ;;
  modify (fun s =>
            set_progressPercent (percent_of (campaignsProcessed s) (campaignsTotal s)) s) ;;
  s <- get_status ;;
  bar <- lift (buildProgressBar (inject_Z (progressPercent s)) None) ;;
  modify (set_progressBar bar) ;;
  s <- get_status ;;
  console_write ("Progress " ++ progressBar s ++ " "
                 ++ Number_toString host (Fin (inject_Z (campaignsProcessed s))) ++ "/"
                 ++ Number_toString host (Fin (inject_Z (campaignsTotal s)))
                 ++ " campaigns").

(** Lines 208-234: the body of the loop for the campaign at index [i]; the
    result is the new value of [runHadError]. *)
Definition campaign_iteration (i : Z) (runHadError : bool) (campaign : value) : M bool :=
  let campaignId := opt_get campaign "id" in
  modify (set_currentCampaignId (or_else campaignId VNull)) ;;
  runHadError' <- campaign_try campaignId runHadError ;;
  progress_update i ;;
  ret runHadError'.

(** Lines 207-235: the loop from index [i] on, over the campaigns that
    remain; the result is [runHadError] when it ends. *)
Fixpoint campaign_loop (i : Z) (runHadError : bool) (campaigns : list value) : M bool :=
  match campaigns with
  | [] => ret runHadError
  | campaign :: rest =>
      runHadError' <- campaign_iteration i runHadError campaign ;;
      campaign_loop (i + 1) runHadError' rest
  end.

(** Lines 177-182: the single-flight guard. *)
Definition skip_run : M unit :=
  modify (set_lastError (Some "Skipped: previous run still in progress")) ;;
  t <- nowIso ;;
  modify (set_lastErrorAt (Some t)) ;;
  console_write "Skipped: previous run still in progress".

(** Lines 184-195: the reset. *)
Definition reset_run : M unit :=
  modify (set_running true) ;;
  t <- nowIso ;;
  modify (set_lastRunStartedAt (Some t)) ;;
  modify (set_lastRunFinishedAt None) ;;
  modify (set_currentCampaignId VNull) ;;
  modify (set_campaignsProcessed 0) ;;
  modify (set_campaignsTotal 0) ;;
  modify (set_logsInserted 0) ;;
  modify (set_logInsertErrors 0) ;;
  modify (set_progressPercent 0) ;;
  bar <- lift (buildProgressBar 0 None) ;;
  modify (set_progressBar bar) ;;
  modify (set_lastError None) ;;
  modify (set_lastErrorAt None).

Definition token_missing : bool :=
  match api_token env with
  | None => true
  | Some t => String.eqb t ""
  end.

(** Lines 200-205: the token check, the pool, the campaign list and its
    length. *)
Definition load_campaigns : M (list value) :=
  (if token_missing then throw "Missing ZAP_API_TOKEN" else ret tt) ;;
  getPool ;;
  campaigns <- fetchCampaigns ;;
  modify (set_campaignsTotal (Z.of_nat (List.length campaigns))) ;;
  ret campaigns.

(** Lines 237-240: the end of a run whose loop completed. *)
Definition finish_run (runHadError : bool) : M unit :=
  t <- nowIso ;;
  modify (set_lastRunFinishedAt (Some t)) ;;
  if negb runHadError
  then modify (fun s => set_lastSuccessAt (lastRunFinishedAt s) s)
  else ret tt.

(** Lines 200-240: the body of the outer [try]. *)
Definition run_body : M unit :=
  campaigns <- load_campaigns ;;
  runHadError <- campaign_loop 0 false campaigns ;;
  finish_run runHadError.

(** Lines 241-246: the outer [catch]. *)
Definition run_failed (msg : string) : M unit :=
  modify (set_lastError (Some msg)) ;;
  t <- nowIso ;;
  modify (set_lastErrorAt (Some t)) ;;
  t' <- nowIso ;;
  modify (set_lastRunFinishedAt (Some t')) ;;
  console_write msg.

(** [runOnce()] *)
Definition runOnce : M unit :=
  s <- get_status ;;
  if running s then skip_run
  else
    reset_run ;;
    finally (try_catch run_body run_failed) (modify (set_running false)).

End Program.

(** ** Concrete hosts and environments

    Used to run the program on explicit inputs. *)

(** Decimal text of an integral number (the examples print nothing else). *)
Definition print_number (x : number) : string :=
  match x with
  | Fin q => NilEmpty.string_of_int (Z.to_int (Qfloor q))
  | Inf negative => if negative then "-Infinity" else "Infinity"
  | NaN => "NaN"
  end.

(** A host whose clock is a constant [offset] milliseconds ahead of UTC,
    and which reads no text outside the date-time format. *)
Definition fixed_host (offset : Z) : Host := {|
  Number_toString := print_number;
  legacy_parse := fun _ => None;
  offset_at_utc := fun _ => offset;
  offset_at_local := fun _ => offset
|}.

Definition utc_host : Host := fixed_host 0.

(** UTC-3 all year (America/Sao_Paulo since 2019). *)
Definition brasilia_host : Host := fixed_host (- 3 * msPerHour).

(** America/New_York during 2024: UTC-5, and UTC-4 from 2024-03-10T07:00Z
    to 2024-11-03T06:00Z. Read back from local time, the hour skipped in
    March takes the offset before the change and the hour repeated in
    November the earlier instant. *)
Definition new_york_host : Host := {|
  Number_toString := print_number;
  legacy_parse := fun _ => None;
  offset_at_utc := fun t =>
    if (1710054000000 <=? t) && (t <? 1730613600000)
    then - 4 * msPerHour else - 5 * msPerHour;
  offset_at_local := fun t =>
    if (1710039600000 <=? t) && (t <? 1730599200000)
    then - 4 * msPerHour else - 5 * msPerHour
|}.

Definition campaign_row (id : string) : value := VObj [("id", VStr id)].

Definition raw_log (createdAt : string) : value :=
  VObj [("status", VStr "sent");
        ("destino", VStr "5511999990000");
        ("campanha", VStr "c");
        ("departamento", VStr "vendas");
        ("rawContact",
         VObj [("blocks", VArr [VObj [("template", VObj [("name", VStr "promo")])]]);
               ("contact", VObj [("name", VStr "Ana")])]);
        ("createdAt", VStr createdAt)].

Definition two_logs : value :=
  VObj [("logs", VArr [raw_log "2024-01-01T10:00:00Z"; raw_log "2024-01-01T09:00:00Z"])].

(** A clock that starts at 2024-01-02T00:00:00Z and advances one second per
    reading. *)
Definition ticking_clock (k : nat) : Z := 1704153600000 + 1000 * Z.of_nat k.

(** No campaign at all: the token is set, the connection and the query
    succeed, and the table is empty. *)
Definition empty_env : Env := {|
  api_token := Some "secret";
  clock := ticking_clock;
  sql_connect := Ok tt;
  query_campaigns := fun _ => Ok [];
  fetch_logs := fun _ _ => Ok two_logs;
  insert_query := fun _ _ => Ok tt
|}.

(** Three campaigns; the log fetch of the second one fails; the other two
    return two logs each, and every insert succeeds. *)
Definition scenario_env : Env := {|
  api_token := Some "secret";
  clock := ticking_clock;
  sql_connect := Ok tt;
  query_campaigns := fun _ => Ok [campaign_row "c1"; campaign_row "c2"; campaign_row "c3"];
  fetch_logs := fun _ id =>
    match id with
    | VStr "c2" => Throw "API 500 Internal Server Error"
    | _ => Ok two_logs
    end;
  insert_query := fun _ _ => Ok tt
|}.

(** One campaign with three logs, the second of which fails to insert. *)
Definition three_logs : value :=
  VObj [("logs", VArr [raw_log "2024-01-01T10:00:00Z";
                       raw_log "2024-01-01T12:00:00Z";
                       raw_log "2024-01-01T11:00:00Z"])].

Definition flaky_insert_env : Env := {|
  api_token := Some "secret";
  clock := ticking_clock;
  sql_connect := Ok tt;
  query_campaigns := fun _ => Ok [campaign_row "c1"];
  fetch_logs := fun _ _ => Ok three_logs;
  insert_query := fun n _ => if Nat.eqb n 4 then Throw "String or binary data would be truncated" else Ok tt
|}.

(** One campaign whose answer holds a record with a [createdAt] that has
    no text: an object with an own [toString] that is not a function. *)
Definition record_without_date_text : value :=
  VObj [("status", VStr "sent");
        ("createdAt", VObj [("toString", VNum (Fin 1))])].

Definition unmappable_env : Env := {|
  api_token := Some "secret";
  clock := ticking_clock;
  sql_connect := Ok tt;
  query_campaigns := fun _ => Ok [campaign_row "c1"];
  fetch_logs := fun _ _ => Ok (VObj [("logs", VArr [record_without_date_text])]);
  insert_query := fun _ _ => Ok tt
|}.

(** One campaign whose answer holds two records; the [status] of the
    first has no text. *)
Definition record_without_status_text : value :=
  VObj [("status", VObj [("toString", VNum (Fin 1))]);
        ("createdAt", VStr "2024-01-01T10:00:00Z")].

Definition unbindable_env : Env := {|
  api_token := Some "secret";
  clock := ticking_clock;
  sql_connect := Ok tt;
  query_campaigns := fun _ => Ok [campaign_row "c1"];
  fetch_logs := fun _ _ =>
    Ok (VObj [("logs", VArr [record_without_status_text;
                             raw_log "2024-01-01T09:00:00Z"])]);
  insert_query := fun _ _ => Ok tt
|}.

(** The token is not configured. *)
Definition no_token_env : Env := {|
  api_token := None;
  clock := ticking_clock;
  sql_connect := Ok tt;
  query_campaigns := fun _ => Ok [campaign_row "c1"];
  fetch_logs := fun _ _ => Ok two_logs;
  insert_query := fun _ _ => Ok tt
|}.

(** ** Vocabulary of the specification *)

(** The number of filled cells as the specification words it, in exact
    arithmetic: [round(percent / 100 x 20)]. *)
Definition exact_filled (percent : Z) : Z :=
  Math_round ((inject_Z percent / 100) * 20).

(** [[`[` + filled-marker x filled + empty-marker x empty + `]`]] over 20
    cells. *)
Definition rendered_bar (filled : Z) : string :=
  "[" ++ repeat_nat "#" (Z.to_nat filled) ++ repeat_nat "-" (Z.to_nat (20 - filled)) ++ "]".

(** The integers from 0 to [n - 1]. *)
Definition upto (n : nat) : list Z := List.map Z.of_nat (List.seq 0 n).

(** What the rendering of one percentage is checked against. *)
Definition bar_checks (p : Z) : bool :=
  match buildProgressBar (inject_Z p) None with
  | Ok bar =>
      String.eqb bar (rendered_bar (exact_filled p))
      && (bar_filled (inject_Z p) 20 =? exact_filled p)
      && (0 <=? exact_filled p) && (exact_filled p <=? 20)
      && (Nat.eqb (String.length bar) 22)
  | Throw _ => false
  end.

(** What the specification stores in a column of width [maxLen]: [null]
    for [null] and [undefined], otherwise the text of the value cut to its
    first [maxLen] characters. [text] is that text. *)
Definition truncated (maxLen : nat) (v : value) (text : string) : option string :=
  if nullish v then None else Some (substring 0 maxLen text).

(** A text of [n] characters. *)
Definition sample_text (n : nat) : string := repeat_nat "x" n.

Definition with_departamento (v : value) : MappedLog := {|
  m_status := VNull; m_destino := VNull; m_id := VNull;
  m_departamento := v;
  m_template_name := VNull; m_contact_name := VNull;
  m_createdAt := None
|}.

(** [lastLogCreatedAt] after a record created at [t] has been inserted. *)
Definition advance (previous : option Z) (t : Z) : option Z :=
  match previous with
  | None => Some t
  | Some p => if t >? p then Some t else Some p
  end.

(** The rows of a trace whose insert succeeded, oldest first. The outcome
    of a request is the environment's answer at the number of requests
    made before it. *)
Fixpoint inserted_rows (env : Env) (trace : list event) : list Row :=
  match trace with
  | [] => []
  | e :: earlier =>
      (inserted_rows env earlier ++
       match e with
       | InsertRow row =>
           match insert_query env (List.length earlier) row with
           | Ok _ => [row]
           | Throw _ => []
           end
       | _ => []
       end)%list
  end.

(** The [created_at] of the rows that have a valid one. *)
Definition created_times (rows : list Row) : list Z :=
  List.flat_map
    (fun row => match r_created_at row with
                | Some (ValidDate t) => [t]
                | _ => []
                end)
    rows.

(** The campaign ids whose logs were requested, oldest first. *)
Fixpoint fetched (trace : list event) : list value :=
  match trace with
  | [] => []
  | FetchLogs id :: earlier => (fetched earlier ++ [id])%list
  | _ :: earlier => fetched earlier
  end.

(** The ids of the campaigns that have one. *)
Definition fetchable (campaigns : list value) : list value :=
  List.filter truthy (List.map (fun c => opt_get c "id") campaigns).

(** The rows of a batch that are sent for insertion, in order: those of
    the records whose bindings succeed. *)
Definition bound_rows (host : Host) (items : list MappedLog) : list Row :=
  List.flat_map
    (fun item => match bind_row host item with
                 | Ok row => [row]
                 | Throw _ => []
                 end)
    items.

(** A campaign whose id is not empty and has no text: the handler of its
    [try] throws. The id is a column of a row of [campanhas]; a column as
    the driver reads it (a number, a text, a boolean, null) has a text. *)
Definition id_without_text (host : Host) (campaign : value) : bool :=
  let id := opt_get campaign "id" in
  truthy id
  && match ToString host id with
     | Throw _ => true
     | Ok _ => false
     end.

(** How the [try] of a campaign goes, in the world [w] in which its
    iteration starts: what is thrown inside it, or the records it maps. *)
Definition campaign_attempt (host : Host) (env : Env) (campaign : value) (w : World)
    : outcome (list MappedLog) :=
  let id := opt_get campaign "id" in
  if negb (truthy id) then Throw "Campaign missing id"
  else
    and_then (ToString host id)
      (fun _ => and_then (fetch_logs env (List.length (io w)) id) (mapLogs host)).

(** A campaign-level error: the campaign has no id, or its id has no text,
    or its log fetch rejects, or the mapping of the answer throws. *)
Definition campaign_fails (host : Host) (env : Env) (campaign : value) (w : World)
    : bool :=
  match campaign_attempt host env campaign w with
  | Throw _ => true
  | Ok _ => false
  end.

(** The number of campaign-level errors of the loop run from [w], over the
    campaigns that the loop reaches. *)
Fixpoint campaign_errors (host : Host) (env : Env) (i : Z) (campaigns : list value)
    (w : World) : nat :=
  match campaigns with
  | [] => O
  | campaign :: rest =>
      ((if campaign_fails host env campaign w then 1 else 0)
       + match campaign_iteration host env i false campaign w with
         | (Ok _, w') => campaign_errors host env (i + 1) rest w'
         | (Throw _, _) => O
         end)%nat
  end.

(** The fields of [status] that only the start and the end of a run
    assign. *)
Definition run_fields_kept (s s' : Status) : Prop :=
  running s' = running s
  /\ lastRunStartedAt s' = lastRunStartedAt s
  /\ lastRunFinishedAt s' = lastRunFinishedAt s
  /\ lastSuccessAt s' = lastSuccessAt s
  /\ campaignsTotal s' = campaignsTotal s.

(** The fields of [status] that the insertion of a batch leaves alone:
    all but [logInsertErrors], [lastError], [lastErrorAt] and
    [lastLogCreatedAt]. *)
Definition batch_fields_kept (s s' : Status) : Prop :=
  run_fields_kept s s'
  /\ campaignsProcessed s' = campaignsProcessed s
  /\ logsInserted s' = logsInserted s
  /\ currentCampaignId s' = currentCampaignId s
  /\ progressPercent s' = progressPercent s
  /\ progressBar s' = progressBar s.

(** The fields that the [try] of one campaign leaves alone. *)
Definition campaign_fields_kept (s s' : Status) : Prop :=
  run_fields_kept s s'
  /\ campaignsProcessed s' = campaignsProcessed s
  /\ currentCampaignId s' = currentCampaignId s
  /\ progressPercent s' = progressPercent s
  /\ progressBar s' = progressBar s.

(** The world in which the outer [try] of a run starts: the one the reset
    leaves. *)
Definition after_reset (env : Env) (w : World) : World := snd (reset_run env w).

(** The world a run leaves when the campaign list was loaded and the loop
    ended in [w2] with [runHadError]: lines 237-240, then [finally]. *)
Definition completed (env : Env) (runHadError : bool) (w2 : World) : World :=
  let finishedAt := Some (clock env (ticks w2)) in
  let s := set_lastRunFinishedAt finishedAt (status w2) in
  Build_World
    (set_running false (if runHadError then s else set_lastSuccessAt finishedAt s))
    (poolPromise w2) (S (ticks w2)) (io w2) (console w2).

(** The world a run leaves when loading the campaign list threw [msg] in
    [w1]: the outer [catch], then [finally]. *)
Definition aborted (env : Env) (msg : string) (w1 : World) : World :=
  Build_World
    (set_running false
       (set_lastRunFinishedAt (Some (clock env (S (ticks w1))))
          (set_lastErrorAt (Some (clock env (ticks w1)))
             (set_lastError (Some msg) (status w1)))))
    (poolPromise w1) (S (S (ticks w1))) (io w1) (msg :: console w1).

(** Every insert is rejected. *)
Definition rejecting_env : Env := {|
  api_token := Some "secret";
  clock := ticking_clock;
  sql_connect := Ok tt;
  query_campaigns := fun _ => Ok [campaign_row "c1"];
  fetch_logs := fun _ _ => Ok two_logs;
  insert_query := fun _ _ => Throw "Violation of PRIMARY KEY constraint"
|}.

(** A world in which a run is in progress. *)
Definition busy_world : World :=
  Build_World (set_running true initial_status) true 1%nat [Connect] [].

(** The mapped record of a raw record with nothing in it. *)
Definition null_record : MappedLog := {|
  m_status := VNull; m_destino := VNull; m_id := VNull; m_departamento := VNull;
  m_template_name := VNull; m_contact_name := VNull; m_createdAt := None
|}.

(** The mapped record of [raw_log] with a timestamp at the very start of
    the range of [Date]: three hours earlier there is no time value. *)
Definition out_of_range_record : MappedLog := {|
  m_status := VStr "sent"; m_destino := VStr "5511999990000"; m_id := VStr "c";
  m_departamento := VStr "vendas"; m_template_name := VStr "promo";
  m_contact_name := VStr "Ana"; m_createdAt := Some InvalidDate
|}.

(** Two runs in a row: the first fetches a log of June 2024, the second a
    log of January 2024. The requests of the first run are numbered 0 to 3
    (connect, query, fetch, insert). *)
Definition june_log : value :=
  VObj [("logs", VArr [raw_log "2024-06-01T10:00:00Z"])].

Definition january_log : value :=
  VObj [("logs", VArr [raw_log "2024-01-01T10:00:00Z"])].

Definition two_runs_env : Env := {|
  api_token := Some "secret";
  clock := ticking_clock;
  sql_connect := Ok tt;
  query_campaigns := fun _ => Ok [campaign_row "c1"];
  fetch_logs := fun n _ => if (n <? 3)%nat then Ok june_log else Ok january_log;
  insert_query := fun _ _ => Ok tt
|}.

Definition first_run_world : World :=
  snd (runOnce utc_host two_runs_env initial_world).

Definition second_run_world : World :=
  snd (runOnce utc_host two_runs_env first_run_world).

(** The arithmetic is evaluated on request only. *)
Arguments Binary64.round : simpl never.
Arguments Math_round : simpl never.
Arguments percent_of : simpl never.
Arguments buildProgressBar : simpl never.

(** ** The scheduler *)

(** [[
  const runLoop = async () => {
    await runOnce();
    setTimeout(runLoop, delayMs);
  };
  runLoop();
]]
    The first [n] turns of the chain: a turn starts when the one before has
    settled, and the next is scheduled only if [runOnce] did not reject.
    The delay between two turns is not modelled. *)
Fixpoint runLoop (host : Host) (env : Env) (n : nat) : M unit :=
  match n with
  | O => ret tt
  | S n' => bind (runOnce host env) (fun _ => runLoop host env n')
  end.

(** The world a run leaves when it is not skipped: the reset, the outer
    [try] with its [catch], and the [finally]. *)
Definition full_run (host : Host) (env : Env) (w : World) : World :=
  snd (finally (try_catch (run_body host env) (run_failed env))
         (modify (set_running false)) (after_reset env w)).

(** ** Reading the trace of requests *)

(** The requests that a campaign makes: log fetches and inserts. *)
Definition log_traffic (e : event) : bool :=
  match e with
  | FetchLogs _ | InsertRow _ => true
  | Connect | QueryCampaigns => false
  end.

(** How many times [sql.connect] was called. *)
Fixpoint connects (trace : list event) : nat :=
  match trace with
  | [] => O
  | Connect :: earlier => S (connects earlier)
  | _ :: earlier => connects earlier
  end.

(** How many inserts were requested. *)
Fixpoint insert_requests (trace : list event) : nat :=
  match trace with
  | [] => O
  | InsertRow _ :: earlier => S (insert_requests earlier)
  | _ :: earlier => insert_requests earlier
  end.

(** What one request adds to the rows counted as insert errors: the row of
    a rejected insert, and the row of an accepted insert whose date is
    invalid ([toISOString] throws on it after the insert). [n] is the
    number of requests made before. *)
Definition error_row (env : Env) (n : nat) (e : event) : list Row :=
  match e with
  | InsertRow row =>
      match insert_query env n row with
      | Throw _ => [row]
      | Ok _ =>
          match r_created_at row with
          | Some InvalidDate => [row]
          | _ => []
          end
      end
  | _ => []
  end.

(** The rows of a trace counted as insert errors, oldest first. *)
Fixpoint error_rows (env : Env) (trace : list event) : list Row :=
  match trace with
  | [] => []
  | e :: earlier => (error_rows env earlier ++ error_row env (List.length earlier) e)%list
  end.

(** The records that were mapped and not sent, because a binding threw:
    what one request adds to their number, and their number over a trace.
    [n] is the number of requests made before. *)
Definition unsent_of (host : Host) (env : Env) (n : nat) (e : event) : nat :=
  match e with
  | FetchLogs id =>
      match and_then (fetch_logs env n id) (mapLogs host) with
      | Ok items => (List.length items - List.length (bound_rows host items))%nat
      | Throw _ => O
      end
  | _ => O
  end.

Fixpoint unsent (host : Host) (env : Env) (trace : list event) : nat :=
  match trace with
  | [] => O
  | e :: earlier => (unsent host env earlier + unsent_of host env (List.length earlier) e)%nat
  end.

(** ** More environments *)

(** The database cannot be reached. *)
Definition unreachable_db_env : Env := {|
  api_token := Some "secret";
  clock := ticking_clock;
  sql_connect := Throw "Failed to connect to db:1433";
  query_campaigns := fun _ => Ok [campaign_row "c1"];
  fetch_logs := fun _ _ => Ok two_logs;
  insert_query := fun _ _ => Ok tt
|}.

(** The campaign table does not exist. *)
Definition failing_query_env : Env := {|
  api_token := Some "secret";
  clock := ticking_clock;
  sql_connect := Ok tt;
  query_campaigns := fun _ => Throw "Invalid object name 'campanhas'.";
  fetch_logs := fun _ _ => Ok two_logs;
  insert_query := fun _ _ => Ok tt
|}.

(** The world in which the loop of the three-campaign scenario starts. *)
Definition loop_start_world : World :=
  snd (load_campaigns scenario_env (after_reset scenario_env initial_world)).

(** ** Writing a date as text *)

(** The year of the 400-year cycle, the month and the day of the month of
    the day [doe] of a cycle that starts on 1 March. *)
Definition civil_of_doe (doe : Z) : Z * Z * Z :=
  let yoe := (doe - doe / 1460 + doe / 36524 - doe / 146096) / 365 in
  let doy := doe - (365 * yoe + yoe / 4 - yoe / 100) in
  let mp := (5 * doy + 2) / 153 in
  let d := doy - (153 * mp + 2) / 5 + 1 in
  let m := if mp <? 10 then mp + 3 else mp - 9 in
  (yoe, m, d).

(** [YearFromTime], [MonthFromTime] + 1 and [DateFromTime] of a day
    number. *)
Definition civil_from_days (day : Z) : Z * Z * Z :=
  let z := day + 719468 in
  let era := z / 146097 in
  let '(yoe, m, d) := civil_of_doe (z - era * 146097) in
  (yoe + era * 400 + (if m <=? 2 then 1 else 0), m, d).

Definition digit_char (d : Z) : ascii := ascii_of_nat (48 + Z.to_nat d).

(** The last [n] decimal digits of [v], padded with zeros. *)
Fixpoint pad (n : nat) (v : Z) : string :=
  match n with
  | O => ""
  | S n' => String (digit_char ((v / 10 ^ Z.of_nat n') mod 10)) (pad n' v)
  end.

(** Four digits for the years 0 to 9999, a sign and six digits
    otherwise. *)
Definition year_text (y : Z) : string :=
  if (0 <=? y) && (y <=? 9999) then pad 4 y
  else (if y <? 0 then "-" else "+") ++ pad 6 (Z.abs y).

(** [date.toISOString()] of a valid date of time value [t] (21.4.4.36):
    [YYYY-MM-DDTHH:mm:ss.sssZ], in UTC. *)
Definition Date_toISOString (t : Z) : string :=
  let '(y, m, d) := civil_from_days (Day t) in
  year_text y ++ "-" ++ pad 2 m ++ "-" ++ pad 2 d ++ "T"
  ++ pad 2 (HourFromTime t) ++ ":" ++ pad 2 (MinFromTime t) ++ ":"
  ++ pad 2 (SecFromTime t) ++ "." ++ pad 3 (msFromTime t) ++ "Z".

(** What is checked of each day of the 400-year cycle. *)
Definition doe_checks (doe : Z) : bool :=
  let '(yoe, m, d) := civil_of_doe doe in
  (0 <=? yoe) && (yoe <? 400)
  && (yoe * 365 + yoe / 4 - yoe / 100 + ((153 * ((m + 9) mod 12) + 2) / 5 + d - 1) =? doe)
  && (1 <=? m) && (m <=? 12) && (1 <=? d)
  && (d <=? DaysInMonth (yoe + (if m <=? 2 then 1 else 0)) m).

(** [check] holds of the [n] integers from [start] on. *)
Fixpoint all_from (check : Z -> bool) (n : nat) (start : Z) : bool :=
  match n with
  | O => true
  | S n' => check start && all_from check n' (start + 1)
  end.

(** Lines 160-165 of [insertLogs] on the texts themselves: whether the
    text [iso] of a newly inserted record replaces the stored text. *)
Definition replaces_stored (host : Host) (iso : string) (stored : option string) : bool :=
  match stored with
  | None => true
  | Some previous =>
      negb (truthy (VStr previous))
      || match Date_parse host iso, Date_parse host previous with
         | ValidDate a, ValidDate b => a >? b
         | _, _ => false
         end
  end.

(** ** The length of a text *)

(** A length that every engine that runs the program can build: the least
    maximum string length that V8, the engine of Node, has had. *)
Definition safe_string_length : Z := 2 ^ 28 - 16.

(** ** Reading a stretch of a run *)

(** A value bound to a [sql.VarChar(width)] parameter has at most [width]
    characters. *)
Definition fits (width : Z) (column : option string) : bool :=
  match column with
  | None => true
  | Some text => Z.of_nat (String.length text) <=? width
  end.

(** The widths declared by the bindings of [insertLog] (lines 143-148). *)
Definition row_fits (row : Row) : bool :=
  fits 255 (r_id row) && fits 30 (r_status row) && fits 30 (r_destino row)
  && fits 255 (r_departamento row) && fits 100 (r_template_name row)
  && fits 255 (r_contact_name row).

Definition insert_fits (e : event) : bool :=
  match e with
  | InsertRow row => row_fits row
  | _ => true
  end.

(** [lastErrorAt] after a stretch that starts at tick [lo] and ends at tick
    [hi]: as it was, or a reading of the clock taken within the stretch. *)
Definition error_time_within (env : Env) (lo hi : nat) (before after : option Z) : Prop :=
  after = before \/ exists k, (lo <= k < hi)%nat /\ after = Some (clock env k).

(** A stretch of a run from [w] to [w']: the clock is only read forward,
    [lastErrorAt] is a reading of the stretch if it is assigned, and the
    requests are added to the trace, every row sent fitting its columns. *)
Definition moves_on (env : Env) (w w' : World) : Prop :=
  (ticks w <= ticks w')%nat
  /\ error_time_within env (ticks w) (ticks w')
       (lastErrorAt (status w)) (lastErrorAt (status w'))
  /\ exists batch, io w' = (batch ++ io w)%list /\ forallb insert_fits batch = true.

(** The clock never goes back. *)
Definition monotone (clock : nat -> Z) : Prop :=
  forall a b, (a <= b)%nat -> clock a <= clock b.

(** The campaigns that the loop reaches: all of them, or those up to the
    first whose id has no text. *)
Fixpoint reached (host : Host) (campaigns : list value) : list value :=
  match campaigns with
  | [] => []
  | campaign :: rest =>
      if id_without_text host campaign then [campaign]
      else campaign :: reached host rest
  end.

(** [currentCampaignId] once the loop has gone through [campaigns]. *)
Definition last_campaign_id (campaigns : list value) : value :=
  match rev campaigns with
  | [] => VNull
  | campaign :: _ => or_else (opt_get campaign "id") VNull
  end.

(** ** The requests of a run, from the answers alone *)

(** The requests of one iteration of the loop, latest first, when [n]
    requests were made before it: none for a campaign without an id or
    whose id has no text; otherwise the fetch and, if it is answered and
    the answer maps, one insert per record whose bindings succeed. *)
Definition campaign_requests (host : Host) (env : Env) (n : nat) (campaign : value)
    : list event :=
  let id := opt_get campaign "id" in
  if truthy id then
    match ToString host id with
    | Throw _ => []
    | Ok _ =>
        match and_then (fetch_logs env n id) (mapLogs host) with
        | Ok items =>
            (rev (List.map InsertRow (bound_rows host items)) ++ [FetchLogs id])%list
        | Throw _ => [FetchLogs id]
        end
    end
  else [].

(** The loop ends at a campaign whose id has no text. *)
Fixpoint loop_requests (host : Host) (env : Env) (n : nat) (campaigns : list value)
    : list event :=
  match campaigns with
  | [] => []
  | campaign :: rest =>
      if id_without_text host campaign then []
      else
        let batch := campaign_requests host env n campaign in
        (loop_requests host env (List.length batch + n) rest ++ batch)%list
  end.

(** The requests of a run that is not skipped, after the connection: the
    campaign query, if the token is set and the connection stands, and
    the requests of the loop, if the query is answered. [n] is the number
    of requests made before the query. *)
Definition run_requests (host : Host) (env : Env) (n : nat) : list event :=
  if token_missing env then []
  else
    match sql_connect env with
    | Throw _ => []
    | Ok _ =>
        match query_campaigns env n with
        | Throw _ => [QueryCampaigns]
        | Ok campaigns =>
            (loop_requests host env (S n) campaigns ++ [QueryCampaigns])%list
        end
    end.

(** The connection request of a run: the first time the pool is asked
    for. *)
Definition connect_request (env : Env) (pool : bool) : list event :=
  if token_missing env || pool then [] else [Connect].

(** The API and the campaign table answer a request the same way whenever
    it is made. *)
Definition stationary (env : Env) : Prop :=
  (forall n m, query_campaigns env n = query_campaigns env m)
  /\ (forall n m id, fetch_logs env n id = fetch_logs env m id).

(** The world after a reset or a whole run is evaluated on request only. *)
Arguments after_reset : simpl never.
Arguments full_run : simpl never.

(** * Properties *)

(** ** Double-precision arithmetic *)

Module Binary64Facts.

Lemma rne_nonneg (x : Q) : (0 <= x)%Q -> 0 <= Binary64.rne x.
Proof.
  intros Hx. unfold Binary64.rne.
  assert (Hf : 0 <= Qfloor x).
  { change 0 with (Qfloor 0). now apply Qfloor_resp_le. }
  destruct (Qcompare _ _); [destruct (Z.even _)| |]; lia.
Qed.

Lemma round_pos_nonneg (q : Q) : (0 <= q)%Q -> (0 <= Binary64.round_pos q)%Q.
Proof.
  intros Hq. unfold Binary64.round_pos. rewrite Qred_correct.
  set (e := Binary64.ilog2 q - (Binary64.prec - 1)).
  assert (Hp : (0 < Qpower 2 e)%Q) by (apply Qpower_0_lt; reflexivity).
  apply Qmult_le_0_compat; [| now apply Qlt_le_weak].
  change 0%Q with (inject_Z 0). rewrite <- Zle_Qle.
  apply rne_nonneg.
  apply Qmult_le_0_compat; [assumption|].
  apply Qinv_le_0_compat. now apply Qlt_le_weak.
Qed.

Lemma round_nonneg (q : Q) : (0 <= q)%Q -> (0 <= Binary64.round q)%Q.
Proof.
  intros Hq. unfold Binary64.round.
  destruct (Qcompare q 0) eqn:Hc.
  - apply Qle_refl.
  - apply Qlt_alt in Hc. exfalso. exact (Qlt_not_le _ _ Hc Hq).
  - apply round_pos_nonneg. now rewrite Qred_correct.
Qed.

Lemma div_nonneg (x y : Q) : (0 <= x)%Q -> (0 <= y)%Q -> (0 <= Binary64.div x y)%Q.
Proof.
  intros Hx Hy. apply round_nonneg.
  apply Qmult_le_0_compat; [assumption | now apply Qinv_le_0_compat].
Qed.

Lemma mul_nonneg (x y : Q) : (0 <= x)%Q -> (0 <= y)%Q -> (0 <= Binary64.mul x y)%Q.
Proof. intros Hx Hy. apply round_nonneg. now apply Qmult_le_0_compat. Qed.

(** Rounding does not depend on how the rational is written. *)
Lemma round_compat (p q : Q) : (p == q)%Q -> Binary64.round p = Binary64.round q.
Proof.
  intros H. unfold Binary64.round.
  rewrite (Qcompare_comp p q H 0%Q 0%Q (Qeq_refl 0)).
  rewrite (Qred_complete p q H).
  rewrite (Qred_complete (- p) (- q)); [reflexivity | now rewrite H].
Qed.

(** A number divided by itself is exactly one. *)
Lemma div_same (n : Z) : 0 < n -> Binary64.div (inject_Z n) (inject_Z n) = 1%Q.
Proof.
  intros Hn. unfold Binary64.div.
  rewrite (round_compat _ 1%Q).
  - vm_compute. reflexivity.
  - apply Qmult_inv_r. unfold Qeq. simpl. lia.
Qed.

Lemma ratio_upper (A B N D : Q) :
  (0 < A -> 0 < B -> 0 < D -> N < 2 * A -> B <= D -> N / D < 2 * (A / B))%Q.
Proof.
  intros HA HB HD H1 H2.
  apply Qlt_shift_div_r; [exact HD |].
  apply Qlt_le_trans with (2 * A)%Q; [exact H1 |].
  setoid_replace (2 * (A / B) * D)%Q with (2 * A * (D / B))%Q
    by (field; intros E; rewrite E in HB; discriminate).
  rewrite <- (Qmult_1_r (2 * A)) at 1.
  apply Qmult_le_l.
  - rewrite <- (Qmult_0_r 2). apply Qmult_lt_l; [reflexivity | exact HA].
  - apply Qle_shift_div_l; [exact HB |]. now rewrite Qmult_1_l.
Qed.

Lemma ratio_lower (A B N D : Q) :
  (0 < N -> 0 < B -> 0 < D -> A <= N -> D < 2 * B -> A / B <= 2 * (N / D))%Q.
Proof.
  intros HN HB HD H1 H2.
  apply Qle_shift_div_r; [exact HB |].
  apply Qle_trans with N; [exact H1 |].
  setoid_replace (2 * (N / D) * B)%Q with (N * (2 * B / D))%Q
    by (field; intros E; rewrite E in HD; discriminate).
  rewrite <- (Qmult_1_r N) at 1.
  apply Qmult_le_l; [exact HN |].
  apply Qle_shift_div_l; [exact HD |]. rewrite Qmult_1_l. now apply Qlt_le_weak.
Qed.

Lemma two_pow_pos (k : Z) : (0 < Qpower 2 k)%Q.
Proof. apply Qpower_0_lt. reflexivity. Qed.

Lemma two_pow_succ (k : Z) : (Qpower 2 (k + 1) == 2 * Qpower 2 k)%Q.
Proof. rewrite Qpower_plus by discriminate. apply Qmult_comm. Qed.

Lemma log2_bounds (n : Z) :
  0 < n ->
  (Qpower 2 (Z.log2 n) <= inject_Z n)%Q /\ (inject_Z n < 2 * Qpower 2 (Z.log2 n))%Q.
Proof.
  intros Hn. destruct (Z.log2_spec n Hn) as [Hlo Hhi].
  pose proof (Z.log2_nonneg n) as Hnn.
  split.
  - rewrite <- (Zpower_Qpower 2) by assumption. rewrite <- Zle_Qle. exact Hlo.
  - rewrite <- two_pow_succ. rewrite <- (Zpower_Qpower 2) by lia.
    rewrite <- Zlt_Qlt. exact Hhi.
Qed.

(** [ilog2] is the binary exponent: [2^k <= q < 2^(k+1)]. *)
Lemma ilog2_spec (q : Q) :
  (0 < q)%Q ->
  (Qpower 2 (Binary64.ilog2 q) <= q)%Q /\ (q < Qpower 2 (Binary64.ilog2 q + 1))%Q.
Proof.
  intros Hq. unfold Binary64.ilog2.
  destruct q as [n d]. simpl Qnum. simpl Qden.
  assert (Hn : 0 < n) by (unfold Qlt in Hq; simpl in Hq; lia).
  destruct (log2_bounds n Hn) as [HA1 HA2].
  destruct (log2_bounds (Zpos d) ltac:(lia)) as [HB1 HB2].
  set (a := Z.log2 n) in *. set (b := Z.log2 (Zpos d)) in *.
  pose proof (two_pow_pos a) as HA. pose proof (two_pow_pos b) as HB.
  assert (Hk : (Qpower 2 (a - b) == Qpower 2 a / Qpower 2 b)%Q)
    by (apply Qpower_minus; discriminate).
  assert (HD : (0 < inject_Z (Zpos d))%Q) by reflexivity.
  assert (HN : (0 < inject_Z n)%Q)
    by (change 0%Q with (inject_Z 0); now rewrite <- Zlt_Qlt).
  assert (Hqd : (n # d == inject_Z n / inject_Z (Zpos d))%Q) by apply Qmake_Qdiv.
  destruct (Qle_bool (Qpower 2 (a - b)) (n # d)) eqn:Hle.
  - split; [now apply Qle_bool_iff |].
    rewrite two_pow_succ, Hk, Hqd. now apply ratio_upper.
  - assert (Hlt : (n # d < Qpower 2 (a - b))%Q).
    { apply Qnot_le_lt. intros H. apply Qle_bool_iff in H. congruence. }
    split; [| replace (a - b - 1 + 1) with (a - b) by lia; exact Hlt].
    apply (Qmult_le_l _ _ 2); [reflexivity |].
    rewrite <- two_pow_succ. replace (a - b - 1 + 1) with (a - b) by lia.
    rewrite Hk, Hqd. now apply ratio_lower.
Qed.

(** [rne] is within one half of its argument. *)
Lemma rne_spec (x : Q) :
  (inject_Z (Binary64.rne x) - (1 # 2) <= x)%Q
  /\ (x <= inject_Z (Binary64.rne x) + (1 # 2))%Q.
Proof.
  unfold Binary64.rne.
  pose proof (Qfloor_le x) as Hlo. pose proof (Qlt_floor x) as Hhi.
  set (f := Qfloor x) in *. clearbody f.
  destruct (Qcompare (x - inject_Z f) (1 # 2)) eqn:Hc;
    [apply Qeq_alt in Hc; destruct (Z.even f) | apply Qlt_alt in Hc | apply Qgt_alt in Hc];
    destruct x as [xn xd];
    unfold Qeq, Qlt, Qle, Qminus, Qplus, Qopp, inject_Z in *; simpl in *;
    rewrite ?Pos2Z.inj_mul in *; rewrite ?Z.mul_1_r in *; nia.
Qed.

(** [round_pos q] is a significand of 53 bits times a power of two, and
    the significand is the scaled [q] rounded to the nearest integer. *)
Lemma round_pos_spec (q : Q) :
  (0 < q)%Q ->
  let e := Binary64.ilog2 q - 52 in
  let m := Binary64.rne (q / Qpower 2 e) in
  (Binary64.round_pos q == inject_Z m * Qpower 2 e)%Q
  /\ 2 ^ 52 <= m <= 2 ^ 53
  /\ (inject_Z m - (1 # 2) <= q / Qpower 2 e)%Q
  /\ (q / Qpower 2 e <= inject_Z m + (1 # 2))%Q.
Proof.
  intros Hq e m.
  destruct (ilog2_spec q Hq) as [Hlo Hhi].
  destruct (rne_spec (q / Qpower 2 e)) as [Hm1 Hm2]. fold m in Hm1, Hm2.
  pose proof (two_pow_pos e) as He.
  assert (Hk : forall j, (Qpower 2 (e + j) == Qpower 2 j * Qpower 2 e)%Q).
  { intros j. rewrite Qpower_plus by discriminate. apply Qmult_comm. }
  assert (Hs1 : (inject_Z (2 ^ 52) <= q / Qpower 2 e)%Q).
  { apply Qle_shift_div_l; [exact He |].
    rewrite (Zpower_Qpower 2 52) by lia. rewrite <- Hk.
    replace (e + 52) with (Binary64.ilog2 q) by (unfold e; lia). exact Hlo. }
  assert (Hs2 : (q / Qpower 2 e < inject_Z (2 ^ 53))%Q).
  { apply Qlt_shift_div_r; [exact He |].
    rewrite (Zpower_Qpower 2 53) by lia. rewrite <- Hk.
    replace (e + 53) with (Binary64.ilog2 q + 1) by (unfold e; lia). exact Hhi. }
  split; [unfold Binary64.round_pos, Binary64.prec; rewrite Qred_correct; reflexivity |].
  split; [| split; assumption].
  set (x := (q / Qpower 2 e)%Q) in *. clearbody x m.
  destruct x as [xn xd].
  unfold Qlt, Qle, Qminus, Qplus, Qopp, inject_Z in *; simpl in *.
  rewrite ?Pos2Z.inj_mul in *; rewrite ?Z.mul_1_r in *.
  change (2 ^ 52) with 4503599627370496. change (2 ^ 53) with 9007199254740992.
  split; nia.
Qed.

Lemma rne_compat (x y : Q) : (x == y)%Q -> Binary64.rne x = Binary64.rne y.
Proof.
  intros H. unfold Binary64.rne. rewrite (Qfloor_comp x y H).
  rewrite (Qcompare_comp (x - inject_Z (Qfloor y))%Q (y - inject_Z (Qfloor y))%Q
             ltac:(now rewrite H) (1 # 2) (1 # 2) (Qeq_refl _)).
  reflexivity.
Qed.

Lemma rne_mono (x y : Q) : (x <= y)%Q -> Binary64.rne x <= Binary64.rne y.
Proof.
  intros Hxy.
  destruct (Qle_lt_or_eq x y Hxy) as [Hlt | Heq]; [| rewrite (rne_compat x y Heq); lia].
  destruct (rne_spec x) as [Hx _]. destruct (rne_spec y) as [_ Hy].
  assert (H : (inject_Z (Binary64.rne x) - (1 # 2)
               < inject_Z (Binary64.rne y) + (1 # 2))%Q).
  { eapply Qle_lt_trans; [exact Hx |]. eapply Qlt_le_trans; eassumption. }
  unfold Qlt, Qminus, Qplus, Qopp, inject_Z in H; simpl in H. lia.
Qed.

Lemma ilog2_mono (p q : Q) :
  (0 < p)%Q -> (p <= q)%Q -> Binary64.ilog2 p <= Binary64.ilog2 q.
Proof.
  intros Hp Hpq.
  assert (Hq : (0 < q)%Q) by (eapply Qlt_le_trans; eassumption).
  destruct (ilog2_spec p Hp) as [Hlo _]. destruct (ilog2_spec q Hq) as [_ Hhi].
  assert (H : (Qpower 2 (Binary64.ilog2 p) < Qpower 2 (Binary64.ilog2 q + 1))%Q).
  { eapply Qle_lt_trans; [exact Hlo |]. eapply Qle_lt_trans; eassumption. }
  apply Qpower_lt_compat_l_inv in H; [lia | reflexivity].
Qed.

Lemma round_pos_mono (p q : Q) :
  (0 < p)%Q -> (p <= q)%Q -> (Binary64.round_pos p <= Binary64.round_pos q)%Q.
Proof.
  intros Hp Hpq.
  assert (Hq : (0 < q)%Q) by (eapply Qlt_le_trans; eassumption).
  destruct (round_pos_spec p Hp) as (Ep & (_ & Mp) & _).
  destruct (round_pos_spec q Hq) as (Eq & (Mq & _) & _).
  rewrite Ep, Eq.
  pose proof (ilog2_mono p q Hp Hpq) as Hk.
  destruct (Z.eq_dec (Binary64.ilog2 p) (Binary64.ilog2 q)) as [Hsame | Hdiff].
  - rewrite Hsame.
    apply Qmult_le_compat_r; [| apply Qlt_le_weak, two_pow_pos].
    rewrite <- Zle_Qle. apply rne_mono.
    apply Qmult_le_compat_r; [exact Hpq |].
    apply Qinv_le_0_compat, Qlt_le_weak, two_pow_pos.
  - set (ep := Binary64.ilog2 p - 52) in *. set (eq := Binary64.ilog2 q - 52) in *.
    set (mp := Binary64.rne (p / Qpower 2 ep)) in *.
    set (mq := Binary64.rne (q / Qpower 2 eq)) in *.
    apply Qle_trans with (inject_Z (2 ^ 53) * Qpower 2 ep)%Q.
    { apply Qmult_le_compat_r; [now rewrite <- Zle_Qle | apply Qlt_le_weak, two_pow_pos]. }
    apply Qle_trans with (inject_Z (2 ^ 52) * Qpower 2 eq)%Q.
    2:{ apply Qmult_le_compat_r; [now rewrite <- Zle_Qle | apply Qlt_le_weak, two_pow_pos]. }
    rewrite (Zpower_Qpower 2 53), (Zpower_Qpower 2 52) by lia.
    rewrite <- !Qpower_plus by discriminate.
    apply Qpower_le_compat_l; [unfold ep, eq; lia | discriminate].
Qed.

Lemma round_mono (p q : Q) :
  (0 <= p)%Q -> (p <= q)%Q -> (Binary64.round p <= Binary64.round q)%Q.
Proof.
  intros Hp Hpq.
  assert (Hq : (0 <= q)%Q) by (eapply Qle_trans; eassumption).
  unfold Binary64.round at 1.
  destruct (Qcompare p 0) eqn:Hc.
  - now apply round_nonneg.
  - apply Qlt_alt in Hc. exfalso. exact (Qlt_not_le _ _ Hc Hp).
  - apply Qgt_alt in Hc.
    assert (Hq0 : (0 < q)%Q) by (eapply Qlt_le_trans; eassumption).
    unfold Binary64.round. rewrite (proj1 (Qgt_alt q 0) Hq0).
    apply round_pos_mono; rewrite !Qred_correct; assumption.
Qed.

End Binary64Facts.

Lemma Math_round_nonneg (x : Q) : (0 <= x)%Q -> 0 <= Math_round x.
Proof.
  intros Hx. unfold Math_round. change 0 with (Qfloor 0).
  apply Qfloor_resp_le.
  rewrite <- (Qplus_0_r 0). apply Qplus_le_compat; [assumption | discriminate].
Qed.

Example round_ties_up : Math_round (5 # 2) = 3 /\ Math_round (-5 # 2) = -2.
Proof. split; reflexivity. Qed.

(** [0.145 * 100] is [14.499999999999998] in double precision, below the
    tie at which exact arithmetic would round up. *)
Example mul_is_rounded :
  Math_round (Binary64.mul (Binary64.div 29 200) 100) = 14.
Proof. vm_compute. reflexivity. Qed.

(** The rounding agrees with the processor's on that quotient and
    product. *)
Example mul_agrees_with_hardware :
  Binary64.of_float
    (Binary64.to_float 29 / Binary64.to_float 200 * Binary64.to_float 100)%float
  = Some (Binary64.mul (Binary64.div 29 200) 100).
Proof. vm_compute. reflexivity. Qed.

(** ** The progress percentage *)

Lemma percent_of_nonneg (processed total : Z) :
  0 <= processed -> 0 <= total -> 0 <= percent_of processed total.
Proof.
  intros Hp Ht. unfold percent_of. destruct (total =? 0); [lia|].
  apply Math_round_nonneg. apply Binary64Facts.mul_nonneg; [| discriminate].
  apply Binary64Facts.div_nonneg; change 0%Q with (inject_Z 0);
    rewrite <- Zle_Qle; assumption.
Qed.

Lemma percent_of_complete (n : Z) : 0 < n -> percent_of n n = 100.
Proof.
  intros Hn. unfold percent_of.
  destruct (Z.eqb_spec n 0); [lia|].
  rewrite Binary64Facts.div_same by assumption. vm_compute. reflexivity.
Qed.

(** ** The progress bar *)

Lemma upto_spec (n : nat) (p : Z) : 0 <= p < Z.of_nat n -> In p (upto n).
Proof.
  intros Hp. unfold upto. apply in_map_iff. exists (Z.to_nat p). split; [lia|].
  apply in_seq. lia.
Qed.

Lemma String_repeat_ok (s : string) (count : Z) :
  0 <= count -> String_repeat s count = Ok (repeat_nat s (Z.to_nat count)).
Proof.
  intros H. unfold String_repeat. destruct (Z.ltb_spec count 0); [lia | reflexivity].
Qed.

Lemma bar_filled_nonneg (percent size : Z) :
  0 <= percent -> 0 <= size -> 0 <= bar_filled (inject_Z percent) size.
Proof.
  intros Hp Hs. unfold bar_filled. apply Math_round_nonneg.
  apply Binary64Facts.mul_nonneg.
  - apply Binary64Facts.div_nonneg; [| discriminate].
    change 0%Q with (inject_Z 0). now rewrite <- Zle_Qle.
  - change 0%Q with (inject_Z 0). now rewrite <- Zle_Qle.
Qed.

(** With the default width, a non-negative percentage always renders. *)
Lemma buildProgressBar_ok (percent : Z) :
  0 <= percent -> exists bar, buildProgressBar (inject_Z percent) None = Ok bar.
Proof.
  intros Hp. unfold buildProgressBar.
  rewrite String_repeat_ok by (apply bar_filled_nonneg; simpl; lia).
  rewrite String_repeat_ok by lia. eexists. reflexivity.
Qed.

Lemma bar_checks_all : forallb bar_checks (upto 101) = true.
Proof. vm_compute. reflexivity. Qed.

(** On the percentages 0 to 100 the double-precision computation of the
    filled cells is the one the processor performs. *)
Lemma bar_filled_agrees_with_hardware :
  forallb
    (fun p =>
       match Binary64.of_float (Binary64.to_float p / Binary64.to_float 100
                                * Binary64.to_float 20)%float with
       | Some x => Math_round x =? bar_filled (inject_Z p) 20
       | None => false
       end)
    (upto 101) = true.
Proof. vm_compute. reflexivity. Qed.

Lemma Math_round_mono (x y : Q) : (x <= y)%Q -> Math_round x <= Math_round y.
Proof.
  intros H. unfold Math_round. apply Qfloor_resp_le.
  apply Qplus_le_compat; [exact H | apply Qle_refl].
Qed.

Lemma Math_round_Z (z : Z) : Math_round (inject_Z z) = z.
Proof.
  unfold Math_round, Qfloor, Qplus, inject_Z. simpl.
  Z.div_mod_to_equations. lia.
Qed.

(** A quotient of a part by the whole, times [scale], rounds to at most
    [scale]. *)
Lemma scaled_ratio_le (x y : Q) (scale : Z) :
  (0 <= x)%Q -> (x <= y)%Q -> (0 < y)%Q -> 0 <= scale ->
  Binary64.round (inject_Z scale) = inject_Z scale ->
  Math_round (Binary64.mul (Binary64.div x y) (inject_Z scale)) <= scale.
Proof.
  intros Hx Hxy Hy Hs Hfix.
  assert (Hratio : (Binary64.div x y <= 1)%Q).
  { change 1%Q with (Binary64.round 1). unfold Binary64.div.
    apply Binary64Facts.round_mono.
    - apply Qmult_le_0_compat; [exact Hx | apply Qinv_le_0_compat, Qlt_le_weak, Hy].
    - apply Qle_shift_div_r; [exact Hy |]. now rewrite Qmult_1_l. }
  assert (Hprod : (Binary64.mul (Binary64.div x y) (inject_Z scale) <= inject_Z scale)%Q).
  { rewrite <- Hfix at 2. unfold Binary64.mul.
    assert (Hs' : (0 <= inject_Z scale)%Q)
      by (change 0%Q with (inject_Z 0); now rewrite <- Zle_Qle).
    apply Binary64Facts.round_mono.
    - apply Qmult_le_0_compat; [now apply Binary64Facts.div_nonneg, Qlt_le_weak | exact Hs'].
    - rewrite <- (Qmult_1_l (inject_Z scale)) at 2.
      now apply Qmult_le_compat_r. }
  apply Math_round_mono in Hprod. now rewrite Math_round_Z in Hprod.
Qed.

(** The percentage of a run stays between 0 and 100. *)
Lemma percent_of_bounds (processed total : Z) :
  0 <= processed <= total -> 0 <= percent_of processed total <= 100.
Proof.
  intros [Hp Hpt]. split; [apply percent_of_nonneg; lia |].
  unfold percent_of. destruct (Z.eqb_spec total 0); [lia |].
  apply (scaled_ratio_le (inject_Z processed) (inject_Z total) 100).
  - change 0%Q with (inject_Z 0). now rewrite <- Zle_Qle.
  - now rewrite <- Zle_Qle.
  - change 0%Q with (inject_Z 0). rewrite <- Zlt_Qlt. lia.
  - lia.
  - vm_compute. reflexivity.
Qed.

Lemma bar_filled_bounds (percent : Q) :
  (0 <= percent)%Q -> (percent <= 100)%Q -> 0 <= bar_filled percent 20 <= 20.
Proof.
  intros Hlo Hhi. unfold bar_filled. split.
  - apply Math_round_nonneg. apply Binary64Facts.mul_nonneg; [| discriminate].
    apply Binary64Facts.div_nonneg; [exact Hlo | discriminate].
  - apply (scaled_ratio_le percent 100 20); try assumption; try reflexivity; lia.
Qed.

Lemma bar_filled_compat (p q : Q) (size : Z) :
  (p == q)%Q -> bar_filled p size = bar_filled q size.
Proof.
  intros H. unfold bar_filled, Binary64.div.
  rewrite (Binary64Facts.round_compat (p / 100) (q / 100)); [reflexivity | now rewrite H].
Qed.

(** C9. For every percentage from 0 to 100, [buildProgressBar] with the
    default width returns an opening bracket, as many [#] as the rounded
    [percent / 100 * 20] (between 0 and 20), the remaining of the 20 cells
    as [-], and a closing bracket, 22 characters in all. For a whole
    percentage, as [progressPercent] always is, that count is the exact
    [round(percent/100 x 20)]. 0 renders as twenty empty cells, 50 as ten
    filled and ten empty, 100 as twenty filled. *)
Theorem C9_progress_bar_rendering (percent : Q) :
  (0 <= percent)%Q -> (percent <= 100)%Q ->
  buildProgressBar percent None = Ok (rendered_bar (bar_filled percent (bar_size None)))
  /\ 0 <= bar_filled percent (bar_size None) <= 20
  /\ String.length (rendered_bar (bar_filled percent (bar_size None))) = 22%nat
  /\ (forall p : Z, (percent == inject_Z p)%Q ->
        bar_filled percent (bar_size None) = exact_filled p)
  /\ buildProgressBar 0 None = Ok "[--------------------]"
  /\ buildProgressBar 50 None = Ok "[##########----------]"
  /\ buildProgressBar 100 None = Ok "[####################]".
Proof.
  intros Hlo Hhi. change (bar_size None) with 20.
  pose proof (bar_filled_bounds percent Hlo Hhi) as Hb.
  split.
  { unfold buildProgressBar. change (bar_size None) with 20.
    rewrite !String_repeat_ok by lia.
    unfold rendered_bar. do 4 f_equal. f_equal. lia. }
  split; [exact Hb |].
  split.
  { assert (Hall : forallb (fun f => Nat.eqb (String.length (rendered_bar f)) 22)
                     (upto 21) = true) by (vm_compute; reflexivity).
    apply Nat.eqb_eq.
    apply (proj1 (forallb_forall _ _) Hall). apply upto_spec. simpl. lia. }
  split.
  { intros p Hp. rewrite (bar_filled_compat percent (inject_Z p) 20 Hp).
    assert (Hrange : 0 <= p <= 100).
    { rewrite Hp in Hlo, Hhi. change 0%Q with (inject_Z 0) in Hlo.
      change 100%Q with (inject_Z 100) in Hhi.
      rewrite <- Zle_Qle in Hlo, Hhi. lia. }
    assert (Hin : In p (upto 101)) by (apply upto_spec; simpl; lia).
    pose proof (proj1 (forallb_forall _ _) bar_checks_all p Hin) as Hc.
    unfold bar_checks in Hc.
    destruct (buildProgressBar (inject_Z p) None); [| discriminate].
    repeat (apply andb_prop in Hc; destruct Hc as [Hc ?]).
    now apply Z.eqb_eq. }
  repeat split; vm_compute; reflexivity.
Qed.

Lemma C9_progress_bar_rendering_witness :
  (0 <= 50)%Q /\ (50 <= 100)%Q
  /\ buildProgressBar 50 None = Ok (rendered_bar (bar_filled 50 (bar_size None))).
Proof.
  split; [discriminate |]. split; [discriminate |].
  apply (C9_progress_bar_rendering 50); discriminate.
Defined.

(** ** String truncation *)

Lemma substring_0_length (n : nat) (s : string) :
  String.length (substring 0 n s) = Nat.min n (String.length s).
Proof.
  revert s. induction n as [|n IH]; intros [|c s]; simpl; try reflexivity.
  now rewrite IH.
Qed.

Lemma substring_0_all (n : nat) (s : string) :
  (String.length s <= n)%nat -> substring 0 n s = s.
Proof.
  revert s. induction n as [|n IH]; intros [|c s]; simpl; intros H;
    try reflexivity; try lia.
  rewrite IH by lia. reflexivity.
Qed.

Lemma substring_0_prefix (n : nat) (s : string) :
  exists rest, s = substring 0 n s ++ rest.
Proof.
  revert s. induction n as [|n IH]; intros [|c s]; simpl.
  - exists "". reflexivity.
  - exists (String c s). reflexivity.
  - exists "". reflexivity.
  - destruct (IH s) as [rest Hrest]. exists rest. now rewrite <- Hrest.
Qed.

Lemma ToString_string (host : Host) (s : string) : ToString host (VStr s) = Ok s.
Proof. reflexivity. Qed.

(** A value that is [null], [undefined], a boolean, a number or a string
    has a text. *)
Lemma ToString_nullish (host : Host) (v : value) :
  nullish v = true -> exists text, ToString host v = Ok text.
Proof. destruct v; try discriminate; intros _; eexists; reflexivity. Qed.

Lemma ToString_falsy (host : Host) (v : value) :
  truthy v = false -> exists text, ToString host v = Ok text.
Proof.
  destruct v as [| |[|]|x|s|items|props]; try discriminate; intros _;
    eexists; reflexivity.
Qed.

Lemma clampStr_truncated (host : Host) (v : value) (maxLen : nat) (text : string) :
  ToString host v = Ok text ->
  clampStr host v (Z.of_nat maxLen) = Ok (truncated maxLen v text).
Proof.
  intros Htext. unfold clampStr, truncated.
  assert (Hcut : (if Z.of_nat (String.length text) >? Z.of_nat maxLen
                  then Some (substring 0 (Z.to_nat (Z.of_nat maxLen)) text)
                  else Some text)
                 = Some (substring 0 maxLen text)).
  { rewrite Nat2Z.id.
    destruct (Z.of_nat (String.length text) >? Z.of_nat maxLen) eqn:Hb; [reflexivity |].
    rewrite substring_0_all; [reflexivity |].
    rewrite Z.gtb_ltb in Hb. apply Z.ltb_ge in Hb. lia. }
  destruct v; simpl nullish; cbv iota; try reflexivity;
    rewrite Htext; unfold and_then; now rewrite Hcut.
Qed.

Lemma clampStr_throws (host : Host) (v : value) (maxLen : Z) (msg : string) :
  ToString host v = Throw msg -> clampStr host v maxLen = Throw msg.
Proof.
  intros Htext. unfold clampStr.
  destruct v; try discriminate; now rewrite Htext.
Qed.

(** How [clampStr] ends is how [String(value)] ends. *)
Lemma clampStr_cases (host : Host) (v : value) (maxLen : nat) :
  match ToString host v with
  | Ok text => clampStr host v (Z.of_nat maxLen) = Ok (truncated maxLen v text)
  | Throw msg => clampStr host v (Z.of_nat maxLen) = Throw msg
  end.
Proof.
  destruct (ToString host v) as [text|msg] eqn:Htext.
  - now apply clampStr_truncated.
  - now apply clampStr_throws.
Qed.

(** The bindings succeed exactly when each of the six fields has a text,
    and then each column is the field cut to the width of the column. *)
Lemma bind_row_cases (host : Host) (item : MappedLog) :
  match bind_row host item with
  | Ok row =>
      exists id status destino departamento template_name contact_name,
        ToString host (m_id item) = Ok id
        /\ ToString host (m_status item) = Ok status
        /\ ToString host (m_destino item) = Ok destino
        /\ ToString host (m_departamento item) = Ok departamento
        /\ ToString host (m_template_name item) = Ok template_name
        /\ ToString host (m_contact_name item) = Ok contact_name
        /\ row = {| r_id := truncated 255 (m_id item) id;
                    r_status := truncated 30 (m_status item) status;
                    r_destino := truncated 30 (m_destino item) destino;
                    r_departamento := truncated 255 (m_departamento item) departamento;
                    r_template_name :=
                      truncated 100 (m_template_name item) template_name;
                    r_contact_name := truncated 255 (m_contact_name item) contact_name;
                    r_created_at := m_createdAt item |}
  | Throw msg =>
      ToString host (m_id item) = Throw msg
      \/ ToString host (m_status item) = Throw msg
      \/ ToString host (m_destino item) = Throw msg
      \/ ToString host (m_departamento item) = Throw msg
      \/ ToString host (m_template_name item) = Throw msg
      \/ ToString host (m_contact_name item) = Throw msg
  end.
Proof.
  unfold bind_row.
  pose proof (clampStr_cases host (m_id item) 255) as H1.
  pose proof (clampStr_cases host (m_status item) 30) as H2.
  pose proof (clampStr_cases host (m_destino item) 30) as H3.
  pose proof (clampStr_cases host (m_departamento item) 255) as H4.
  pose proof (clampStr_cases host (m_template_name item) 100) as H5.
  pose proof (clampStr_cases host (m_contact_name item) 255) as H6.
  change (Z.of_nat 255) with 255 in *. change (Z.of_nat 30) with 30 in *.
  change (Z.of_nat 100) with 100 in *.
  destruct (ToString host (m_id item)) as [t1|m1]; rewrite H1; cbn [and_then];
    [| now left].
  destruct (ToString host (m_status item)) as [t2|m2]; rewrite H2; cbn [and_then];
    [| right; now left].
  destruct (ToString host (m_destino item)) as [t3|m3]; rewrite H3; cbn [and_then];
    [| do 2 right; now left].
  destruct (ToString host (m_departamento item)) as [t4|m4]; rewrite H4; cbn [and_then];
    [| do 3 right; now left].
  destruct (ToString host (m_template_name item)) as [t5|m5]; rewrite H5; cbn [and_then];
    [| do 4 right; now left].
  destruct (ToString host (m_contact_name item)) as [t6|m6]; rewrite H6; cbn [and_then];
    [| do 5 right; reflexivity].
  exists t1, t2, t3, t4, t5, t6. repeat split.
Qed.

(** C8. [clampStr] ends as [String(value)] does. When the value has a
    text, whatever its length, the result is [null] for a null or
    undefined value and otherwise the first [maxLen] characters of the
    text: never longer than the column, and the whole text when that
    fits. Every string has a text. The six columns are bound at the
    widths 255 (id, departamento, contact_name), 30 (status, destino) and
    100 (template_name), and then the insert is requested with the cut
    values; when a field has no text its [String(value)] throws, nothing is
    bound and no insert is requested. A departamento of 300 characters is
    bound as its first 255. *)
Theorem C8_text_fields_are_truncated (host : Host) :
  (forall v n text, ToString host v = Ok text ->
     clampStr host v (Z.of_nat n) = Ok (truncated n v text))
  /\ (forall v n msg, ToString host v = Throw msg ->
        clampStr host v (Z.of_nat n) = Throw msg)
  /\ (forall s, ToString host (VStr s) = Ok s)
  /\ (forall n v text, nullish v = true -> truncated n v text = None)
  /\ (forall n v text, nullish v = false ->
        exists s rest,
          truncated n v text = Some s
          /\ text = s ++ rest
          /\ String.length s = Nat.min n (String.length text)
          /\ ((String.length text <= n)%nat -> s = text))
  /\ (forall item id status destino departamento template_name contact_name,
        ToString host (m_id item) = Ok id ->
        ToString host (m_status item) = Ok status ->
        ToString host (m_destino item) = Ok destino ->
        ToString host (m_departamento item) = Ok departamento ->
        ToString host (m_template_name item) = Ok template_name ->
        ToString host (m_contact_name item) = Ok contact_name ->
        bind_row host item
        = Ok {| r_id := truncated 255 (m_id item) id;
                r_status := truncated 30 (m_status item) status;
                r_destino := truncated 30 (m_destino item) destino;
                r_departamento := truncated 255 (m_departamento item) departamento;
                r_template_name := truncated 100 (m_template_name item) template_name;
                r_contact_name := truncated 255 (m_contact_name item) contact_name;
                r_created_at := m_createdAt item |})
  /\ (forall item msg, bind_row host item = Throw msg ->
        ToString host (m_id item) = Throw msg
        \/ ToString host (m_status item) = Throw msg
        \/ ToString host (m_destino item) = Throw msg
        \/ ToString host (m_departamento item) = Throw msg
        \/ ToString host (m_template_name item) = Throw msg
        \/ ToString host (m_contact_name item) = Throw msg)
  /\ (forall env item row w, bind_row host item = Ok row ->
        insertLog host env item w
        = (insert_query env (List.length (io w)) row, request (InsertRow row) w))
  /\ (forall env item msg w, bind_row host item = Throw msg ->
        insertLog host env item w = (Throw msg, w))
  /\ (forall s, String.length s = 300%nat ->
        exists row,
          bind_row host (with_departamento (VStr s)) = Ok row
          /\ r_departamento row = Some (substring 0 255 s)
          /\ String.length (substring 0 255 s) = 255%nat).
Proof.
  split; [intros v n text; apply clampStr_truncated |].
  split; [intros v n msg; apply clampStr_throws |].
  split; [reflexivity |].
  split; [intros n v text Hv; unfold truncated; now rewrite Hv |].
  split.
  { intros n v text Hv. unfold truncated. rewrite Hv.
    destruct (substring_0_prefix n text) as [rest Hrest].
    exists (substring 0 n text), rest.
    repeat split; try assumption.
    - apply substring_0_length.
    - intros Hle. now apply substring_0_all. }
  split.
  { intros item id status destino departamento template_name contact_name
      H1 H2 H3 H4 H5 H6.
    pose proof (bind_row_cases host item) as Hc.
    destruct (bind_row host item) as [row|msg].
    - destruct Hc as (t1 & t2 & t3 & t4 & t5 & t6 & E1 & E2 & E3 & E4 & E5 & E6 & ->).
      congruence.
    - destruct Hc as [E | [E | [E | [E | [E | E]]]]]; congruence. }
  split.
  { intros item msg Hb. pose proof (bind_row_cases host item) as Hc.
    rewrite Hb in Hc. exact Hc. }
  split.
  { intros env item row w Hb. unfold insertLog, bind, lift. now rewrite Hb. }
  split.
  { intros env item msg w Hb. unfold insertLog, bind, lift. now rewrite Hb. }
  intros s Hs. eexists. split; [reflexivity |].
  split; [cbn [r_departamento]; rewrite Hs; reflexivity |].
  rewrite substring_0_length, Hs. reflexivity.
Qed.

Example departamento_of_300_characters :
  and_then (bind_row utc_host (with_departamento (VStr (sample_text 300))))
    (fun row => Ok (r_departamento row))
  = Ok (Some (sample_text 255)).
Proof. vm_compute. reflexivity. Qed.

(** A value that [JSON.parse] can return and that has no text: an insert
    of a record that holds it is refused before any query. *)
Example departamento_without_text :
  bind_row utc_host (with_departamento (VObj [("toString", VNum (Fin 1))]))
  = Throw "Cannot convert object to primitive value".
Proof. reflexivity. Qed.

(** ** Timestamp conversion *)

Lemma time_fields_recompose (t hour : Z) :
  MakeDate (Day t) (MakeTime hour (MinFromTime t) (SecFromTime t) (msFromTime t))
  = t + (hour - HourFromTime t) * msPerHour.
Proof.
  unfold MakeDate, MakeTime, Day, HourFromTime, MinFromTime, SecFromTime, msFromTime,
    msPerDay, msPerHour, msPerMinute, msPerSecond.
  Z.div_mod_to_equations. lia.
Qed.

(** Setting the local hour three back moves the local wall-clock reading
    back by three hours. *)
Lemma setHours_three_back (host : Host) (t : Z) :
  setHours host t (getHours host t - 3)
  = TimeClip (UTC host (LocalTime host t - 3 * msPerHour)).
Proof.
  unfold setHours, getHours. rewrite time_fields_recompose.
  f_equal. f_equal. lia.
Qed.

Lemma TimeClip_valid (t u : Z) :
  TimeClip t = ValidDate u -> u = t /\ Z.abs t <= 8640000000000000.
Proof.
  unfold TimeClip. destruct (Z.gtb_spec (Z.abs t) 8640000000000000); [discriminate|].
  intros [= <-]. split; [reflexivity | lia].
Qed.

Lemma TimeClip_in_range (t : Z) :
  Z.abs t <= 8640000000000000 -> TimeClip t = ValidDate t.
Proof.
  intros H. unfold TimeClip.
  destruct (Z.gtb_spec (Z.abs t) 8640000000000000); [lia | reflexivity].
Qed.

Lemma Date_parse_in_range (host : Host) (s : string) (t : Z) :
  Date_parse host s = ValidDate t -> Z.abs t <= 8640000000000000.
Proof.
  unfold Date_parse.
  destruct (parse_iso host s) as [u|]; [| destruct (legacy_parse host s) as [u|]];
    try discriminate; intros H; apply TimeClip_valid in H; destruct H; subst; assumption.
Qed.

Lemma truthy_nonempty (s : string) : s <> "" -> truthy (VStr s) = true.
Proof.
  intros H. simpl. destruct (String.eqb_spec s ""); [contradiction | reflexivity].
Qed.

Lemma toSqlDateTime_string (host : Host) (s : string) (t : Z) :
  s <> "" -> Date_parse host s = ValidDate t ->
  toSqlDateTime host (VStr s)
  = Ok (Some (TimeClip (UTC host (LocalTime host t - 3 * msPerHour)))).
Proof.
  intros Hs Hp. unfold toSqlDateTime. rewrite (truthy_nonempty s Hs). simpl.
  rewrite Hp. now rewrite setHours_three_back.
Qed.

(** Where the host's offset from UTC is the same at the parsed instant and
    three local hours before it, the conversion is the instant three hours
    earlier. *)
Lemma toSqlDateTime_steady (host : Host) (s : string) (t : Z) :
  s <> "" -> Date_parse host s = ValidDate t ->
  offset_at_local host (LocalTime host t - 3 * msPerHour) = offset_at_utc host t ->
  - 8640000000000000 <= t - 3 * msPerHour ->
  toSqlDateTime host (VStr s) = Ok (Some (ValidDate (t - 3 * msPerHour))).
Proof.
  intros Hs Hp Hoff Hlow.
  rewrite (toSqlDateTime_string host s t Hs Hp).
  pose proof (Date_parse_in_range host s t Hp) as Hr.
  unfold UTC. rewrite Hoff. unfold LocalTime.
  replace (t + offset_at_utc host t - 3 * msPerHour - offset_at_utc host t)
    with (t - 3 * msPerHour) by lia.
  rewrite TimeClip_in_range; [reflexivity |].
  unfold msPerHour in *. lia.
Qed.

(** C7 (the code departs from it). The shift is made on the local clock
    of the host, [d.setHours(d.getHours() - 3)], and so depends on the
    host's time zone: in New York, 2024-03-10T07:30:00Z is 03:30 local
    time, half an hour after the clocks went forward; three local hours
    back is 00:30, which is 05:30Z, two hours earlier and not three. On
    a host whose offset from UTC is constant the result is the instant
    three hours earlier, and 2024-01-01T10:00:00Z converts to
    2024-01-01T07:00:00Z. A missing, null or empty value and a text that
    does not parse convert to null; a value that is an object without a
    text makes the conversion throw. *)
Theorem C7_shift_is_made_on_the_local_clock :
  Date_parse new_york_host "2024-03-10T07:30:00Z" = ValidDate 1710055800000
  /\ toSqlDateTime new_york_host (VStr "2024-03-10T07:30:00Z")
     = Ok (Some (ValidDate (1710055800000 - 2 * msPerHour)))
  /\ Date_parse new_york_host "2024-03-10T05:30:00Z"
     = ValidDate (1710055800000 - 2 * msPerHour)
  /\ (forall host s t, s <> "" -> Date_parse host s = ValidDate t ->
        toSqlDateTime host (VStr s)
        = Ok (Some (TimeClip (UTC host (LocalTime host t - 3 * msPerHour)))))
  /\ (forall offset s t, s <> "" -> Date_parse (fixed_host offset) s = ValidDate t ->
        - 8640000000000000 <= t - 3 * msPerHour ->
        toSqlDateTime (fixed_host offset) (VStr s)
        = Ok (Some (ValidDate (t - 3 * msPerHour))))
  /\ (forall offset,
        Date_parse (fixed_host offset) "2024-01-01T10:00:00Z" = ValidDate 1704103200000
        /\ toSqlDateTime (fixed_host offset) (VStr "2024-01-01T10:00:00Z")
           = Ok (Some (ValidDate 1704092400000))
        /\ Date_parse (fixed_host offset) "2024-01-01T07:00:00Z"
           = ValidDate 1704092400000)
  /\ (forall host,
        toSqlDateTime host VUndef = Ok None
        /\ toSqlDateTime host VNull = Ok None
        /\ toSqlDateTime host (VStr "") = Ok None
        /\ (forall s, Date_parse host s = InvalidDate ->
             toSqlDateTime host (VStr s) = Ok None)
        /\ toSqlDateTime host (VObj [("toString", VNum (Fin 1))])
           = Throw "Cannot convert object to primitive value").
Proof.
  split; [vm_compute; reflexivity |].
  split; [vm_compute; reflexivity |].
  split; [vm_compute; reflexivity |].
  split; [intros host; apply toSqlDateTime_string |].
  assert (Hfixed : forall offset s t, s <> "" ->
            Date_parse (fixed_host offset) s = ValidDate t ->
            - 8640000000000000 <= t - 3 * msPerHour ->
            toSqlDateTime (fixed_host offset) (VStr s)
            = Ok (Some (ValidDate (t - 3 * msPerHour)))).
  { intros offset s t Hs Hp Hlow.
    now apply (toSqlDateTime_steady (fixed_host offset) s t Hs Hp). }
  split; [exact Hfixed |].
  split.
  { intros offset.
    assert (Hten : Date_parse (fixed_host offset) "2024-01-01T10:00:00Z"
                   = ValidDate 1704103200000) by (vm_compute; reflexivity).
    split; [exact Hten |].
    split; [| vm_compute; reflexivity].
    apply (Hfixed offset "2024-01-01T10:00:00Z" 1704103200000).
    - discriminate.
    - exact Hten.
    - vm_compute. discriminate. }
  intros host.
  split; [reflexivity |]. split; [reflexivity |]. split; [reflexivity |].
  split; [| reflexivity].
  intros s Hp. unfold toSqlDateTime. destruct (truthy (VStr s)); [| reflexivity].
  simpl. now rewrite Hp.
Qed.

(** ** The log writer *)

Section WriterFacts.

Variable host : Host.
Variable env : Env.

Lemma run_fields_kept_refl (s : Status) : run_fields_kept s s.
Proof. repeat split. Qed.

Lemma run_fields_kept_trans (s1 s2 s3 : Status) :
  run_fields_kept s1 s2 -> run_fields_kept s2 s3 -> run_fields_kept s1 s3.
Proof.
  unfold run_fields_kept. intros (A1 & A2 & A3 & A4 & A5) (B1 & B2 & B3 & B4 & B5).
  repeat split; congruence.
Qed.

Lemma batch_fields_kept_refl (s : Status) : batch_fields_kept s s.
Proof. repeat split. Qed.

Lemma batch_fields_kept_trans (s1 s2 s3 : Status) :
  batch_fields_kept s1 s2 -> batch_fields_kept s2 s3 -> batch_fields_kept s1 s3.
Proof.
  unfold batch_fields_kept.
  intros (A0 & A1 & A2 & A3 & A4 & A5) (B0 & B1 & B2 & B3 & B4 & B5).
  split; [eapply run_fields_kept_trans; eassumption |].
  repeat split; congruence.
Qed.

(** One iteration of [insertLogs] always completes. When a binding throws
    nothing is requested; otherwise the insert is, once; what the
    iteration does to [status] depends on how the request settles and on
    the record's date. *)
Lemma insert_one_run (inserted : Z) (item : MappedLog) (w : World) :
  exists inserted' w',
    insert_one host env inserted item w = (Ok inserted', w')
    /\ poolPromise w' = poolPromise w
    /\ batch_fields_kept (status w) (status w')
    /\ match bind_row host item with
       | Throw msg =>
           inserted' = inserted
           /\ io w' = io w
           /\ logInsertErrors (status w') = logInsertErrors (status w) + 1
           /\ lastError (status w') = Some ("Insert failed: " ++ msg)
           /\ lastErrorAt (status w') = Some (clock env (ticks w))
           /\ lastLogCreatedAt (status w') = lastLogCreatedAt (status w)
       | Ok row =>
           io w' = InsertRow row :: io w
           /\ match insert_query env (List.length (io w)) row with
              | Throw msg =>
                  inserted' = inserted
                  /\ logInsertErrors (status w') = logInsertErrors (status w) + 1
                  /\ lastError (status w') = Some ("Insert failed: " ++ msg)
                  /\ lastErrorAt (status w') = Some (clock env (ticks w))
                  /\ lastLogCreatedAt (status w') = lastLogCreatedAt (status w)
              | Ok _ =>
                  inserted' = inserted + 1
                  /\ match m_createdAt item with
                     | None => status w' = status w
                     | Some (ValidDate t) =>
                         lastLogCreatedAt (status w')
                         = advance (lastLogCreatedAt (status w)) t
                         /\ logInsertErrors (status w') = logInsertErrors (status w)
                         /\ lastError (status w') = lastError (status w)
                         /\ lastErrorAt (status w') = lastErrorAt (status w)
                     | Some InvalidDate =>
                         logInsertErrors (status w') = logInsertErrors (status w) + 1
                         /\ lastError (status w')
                            = Some "Insert failed: Invalid time value"
                         /\ lastErrorAt (status w') = Some (clock env (ticks w))
                         /\ lastLogCreatedAt (status w') = lastLogCreatedAt (status w)
                     end
              end
       end.
Proof.
  unfold insert_one, insertLog, try_catch, bind, lift.
  destruct (bind_row host item) as [row|msg0].
  - destruct (insert_query env (List.length (io w)) row) as [[]|msg].
    + unfold note_created.
      destruct (m_createdAt item) as [[t|]|].
      * unfold bind, toISOString, ret, get_status. simpl.
        destruct (lastLogCreatedAt (status w)) as [p|] eqn:Hp; simpl.
        -- destruct (t >? p) eqn:Hgt; simpl;
             (do 2 eexists; split; [reflexivity |]; simpl; rewrite ?Hp; simpl;
              rewrite ?Hgt; repeat split; congruence).
        -- do 2 eexists. split; [reflexivity |]. simpl. rewrite ?Hp. repeat split.
      * do 2 eexists. split; [reflexivity |]. simpl. repeat split.
      * do 2 eexists. split; [reflexivity |]. simpl. repeat split.
    + do 2 eexists. split; [reflexivity |]. simpl. repeat split.
  - do 2 eexists. split; [reflexivity |]. simpl. repeat split.
Qed.

Lemma bound_rows_cons (item : MappedLog) (rest : list MappedLog) :
  bound_rows host (item :: rest)
  = (match bind_row host item with
     | Ok row => [row]
     | Throw _ => []
     end ++ bound_rows host rest)%list.
Proof. reflexivity. Qed.

(** A batch always runs to its end: one insert request per record whose
    bindings succeed, in order; the count returned grows by the number of
    successful inserts; [lastLogCreatedAt] advances over their dates. *)
Lemma insertLogs_from_run (items : list MappedLog) :
  forall (inserted : Z) (w : World),
  exists n w',
    insertLogs_from host env inserted items w = (Ok n, w')
    /\ io w' = (rev (List.map InsertRow (bound_rows host items)) ++ io w)%list
    /\ poolPromise w' = poolPromise w
    /\ batch_fields_kept (status w) (status w')
    /\ logInsertErrors (status w) <= logInsertErrors (status w')
    /\ exists new,
         inserted_rows env (io w') = (inserted_rows env (io w) ++ new)%list
         /\ n = inserted + Z.of_nat (List.length new)
         /\ lastLogCreatedAt (status w')
            = fold_left advance (created_times new) (lastLogCreatedAt (status w)).
Proof.
  induction items as [|item rest IH]; intros inserted w.
  - exists inserted, w. simpl. split; [reflexivity |].
    repeat split; try lia.
    exists []. rewrite app_nil_r. simpl. repeat split. lia.
  - destruct (insert_one_run inserted item w)
      as (k1 & w1 & Hrun & Hpool & Hkept & Hcase).
    destruct (IH k1 w1)
      as (n & w2 & Hrun2 & Hio2 & Hpool2 & Hkept2 & Herr2 & new2 & Hrows2 & Hn2 & Hlast2).
    exists n, w2. simpl insertLogs_from. unfold bind. rewrite Hrun.
    split; [exact Hrun2 |].
    rewrite bound_rows_cons.
    assert (Hbind : match bind_row host item with
                    | Ok row => r_created_at row = m_createdAt item
                    | Throw _ => True
                    end).
    { unfold bind_row.
      destruct (clampStr host (m_id item) 255); [| exact I].
      destruct (clampStr host (m_status item) 30); [| exact I].
      destruct (clampStr host (m_destino item) 30); [| exact I].
      destruct (clampStr host (m_departamento item) 255); [| exact I].
      destruct (clampStr host (m_template_name item) 100); [| exact I].
      destruct (clampStr host (m_contact_name item) 255); [| exact I].
      reflexivity. }
    destruct (bind_row host item) as [row|msg0].
    + destruct Hcase as (Hio & Hcase).
      split; [rewrite Hio2, Hio; simpl; now rewrite <- app_assoc |].
      split; [congruence |].
      split; [eapply batch_fields_kept_trans; eassumption |].
      rewrite Hio in Hrows2. simpl in Hrows2.
      destruct (insert_query env (List.length (io w)) row) as [[]|msg].
      * destruct Hcase as (Hk1 & Hdate).
        split.
        { destruct (m_createdAt item) as [[t|]|].
          - destruct Hdate as (_ & He & _). lia.
          - destruct Hdate as (He & _). lia.
          - rewrite Hdate in Herr2. exact Herr2. }
        exists (row :: new2).
        split; [rewrite Hrows2, <- app_assoc; reflexivity |].
        split; [simpl List.length; lia |].
        rewrite Hlast2. unfold created_times at 2. simpl flat_map.
        rewrite Hbind.
        destruct (m_createdAt item) as [[t|]|]; simpl.
        -- destruct Hdate as (Hd & _). now rewrite Hd.
        -- destruct Hdate as (_ & _ & _ & Hd). now rewrite Hd.
        -- now rewrite Hdate.
      * destruct Hcase as (Hk1 & He & _ & _ & Hd).
        split; [lia |].
        exists new2. rewrite app_nil_r in Hrows2.
        split; [exact Hrows2 |]. split; [lia |].
        now rewrite Hlast2, Hd.
    + destruct Hcase as (Hk1 & Hio & He & _ & _ & Hd).
      split; [rewrite Hio2, Hio; reflexivity |].
      split; [congruence |].
      split; [eapply batch_fields_kept_trans; eassumption |].
      split; [lia |].
      rewrite Hio in Hrows2.
      exists new2. split; [exact Hrows2 |]. split; [lia |].
      now rewrite Hlast2, Hd.
Qed.

(** The batch of an empty list changes nothing and requests nothing. *)
Lemma insertLogs_nil (w : World) : insertLogs host env [] w = (Ok 0, w).
Proof. reflexivity. Qed.

End WriterFacts.

(** ** One campaign *)

Section CampaignFacts.

Variable host : Host.
Variable env : Env.

Lemma fetched_app (a b : list event) : fetched (a ++ b) = (fetched b ++ fetched a)%list.
Proof.
  induction a as [|e a IH]; simpl.
  - now rewrite app_nil_r.
  - destruct e; rewrite ?IH, ?app_assoc; reflexivity.
Qed.

Lemma fetched_inserts (rows : list Row) : fetched (List.map InsertRow rows) = [].
Proof. induction rows as [|r rows IH]; simpl; [reflexivity | exact IH]. Qed.

Lemma fetched_after_batch (rows : list Row) (trace : list event) :
  fetched (rev (List.map InsertRow rows) ++ trace) = fetched trace.
Proof.
  rewrite fetched_app, <- map_rev, fetched_inserts.
  apply app_nil_r.
Qed.

(** A campaign whose id has a text: the [try] lets no exception out. A
    campaign without id fails before any request; a rejected fetch and an
    answer whose mapping throws fail after the one request; each failure
    sets the flag, records the message and its time, and leaves every
    counter alone. Otherwise the flag is returned as it was, every mapped
    record whose bindings succeed is sent for insertion, and
    [logsInserted] grows by the number of successful inserts. *)
Lemma campaign_try_run (id : value) (text : string) (runHadError : bool) (w : World) :
  ToString host id = Ok text ->
  exists b' w',
    campaign_try host env id runHadError w = (Ok b', w')
    /\ poolPromise w' = poolPromise w
    /\ campaign_fields_kept (status w) (status w')
    /\ logInsertErrors (status w) <= logInsertErrors (status w')
    /\ (exists new,
          inserted_rows env (io w') = (inserted_rows env (io w) ++ new)%list
          /\ logsInserted (status w') = logsInserted (status w) + Z.of_nat (List.length new)
          /\ lastLogCreatedAt (status w')
             = fold_left advance (created_times new) (lastLogCreatedAt (status w)))
    /\ if truthy id then
         match and_then (fetch_logs env (List.length (io w)) id) (mapLogs host) with
         | Ok items =>
             b' = runHadError
             /\ io w' = (rev (List.map InsertRow (bound_rows host items))
                         ++ FetchLogs id :: io w)%list
         | Throw msg =>
             b' = true
             /\ io w' = FetchLogs id :: io w
             /\ lastError (status w')
                = Some ("Campaign " ++ text ++ " failed: " ++ msg)
             /\ lastErrorAt (status w') = Some (clock env (ticks w))
             /\ logsInserted (status w') = logsInserted (status w)
             /\ logInsertErrors (status w') = logInsertErrors (status w)
             /\ lastLogCreatedAt (status w') = lastLogCreatedAt (status w)
         end
       else
         b' = true
         /\ io w' = io w
         /\ lastError (status w')
            = Some ("Campaign " ++ text ++ " failed: Campaign missing id")
         /\ lastErrorAt (status w') = Some (clock env (ticks w))
         /\ logsInserted (status w') = logsInserted (status w)
         /\ logInsertErrors (status w') = logInsertErrors (status w)
         /\ lastLogCreatedAt (status w') = lastLogCreatedAt (status w).
Proof.
  intros Htext.
  unfold campaign_try, fetchLogsForCampaign, try_catch, bind, lift.
  rewrite Htext.
  destruct (truthy id) eqn:Hid; simpl.
  - destruct (fetch_logs env (List.length (io w)) id) as [root|msg] eqn:Hfetch;
      cbn [and_then].
    + destruct (mapLogs host root) as [items|msg] eqn:Hmap.
      * destruct (insertLogs_from_run host env items 0 (request (FetchLogs id) w))
          as (n & w1 & Hrun & Hio & Hpool & (Hrf & Hk1 & Hk2 & Hk3 & Hk4 & Hk5) & Herr
                & new & Hrows & Hn & Hlast).
        unfold insertLogs. rewrite Hrun. simpl.
        do 2 eexists. split; [reflexivity |]. simpl.
        split; [exact Hpool |].
        split; [repeat split; try assumption; apply Hrf |].
        split; [exact Herr |].
        split.
        { exists new. simpl in Hrows. rewrite app_nil_r in Hrows.
          split; [exact Hrows |]. split; [simpl in Hk2; lia | exact Hlast]. }
        split; [reflexivity | exact Hio].
      * do 2 eexists. split; [reflexivity |]. simpl.
        split; [reflexivity |].
        split; [repeat split |].
        split; [lia |].
        split; [exists []; rewrite !app_nil_r; simpl; repeat split; lia |].
        repeat split.
    + do 2 eexists. split; [reflexivity |]. simpl.
      split; [reflexivity |].
      split; [repeat split |].
      split; [lia |].
      split; [exists []; rewrite !app_nil_r; simpl; repeat split; lia |].
      repeat split.
  - do 2 eexists. split; [reflexivity |]. simpl.
    split; [reflexivity |].
    split; [repeat split |].
    split; [lia |].
    split; [exists []; rewrite !app_nil_r; simpl; repeat split; lia |].
    repeat split.
Qed.

(** A campaign whose id is not empty and has no text: building the path of
    the request throws, and so does the handler, building its message;
    nothing is requested and nothing assigned. *)
Lemma campaign_try_throws (id : value) (msg : string) (b : bool) (w : World) :
  truthy id = true -> ToString host id = Throw msg ->
  campaign_try host env id b w = (Throw msg, w).
Proof.
  intros Hid Htext.
  unfold campaign_try, fetchLogsForCampaign, try_catch, bind, lift.
  rewrite Htext, Hid. reflexivity.
Qed.

(** The flag a [try] is given changes nothing but the flag it returns. *)
Lemma campaign_try_flag (id : value) (b : bool) (w : World) :
  campaign_try host env id b w
  = match campaign_try host env id false w with
    | (Ok b', w') => (Ok (b || b'), w')
    | (Throw msg, w') => (Throw msg, w')
    end.
Proof.
  destruct b;
    [| destruct (campaign_try host env id false w) as [[b'|msg] w']; reflexivity].
  unfold campaign_try, fetchLogsForCampaign, try_catch, bind, lift.
  destruct (ToString host id) as [text|msg0];
    destruct (truthy id); simpl; try reflexivity.
  destruct (fetch_logs env (List.length (io w)) id) as [root|msg]; [| reflexivity].
  destruct (mapLogs host root) as [items|msg]; [| reflexivity].
  destruct (insertLogs host env items (request (FetchLogs id) w))
    as [[n|msg] w2]; reflexivity.
Qed.

(** The world that the [try] of a campaign leaves does not depend on the
    flag it is given. *)
Lemma campaign_try_world (id : value) (b : bool) (w : World) :
  snd (campaign_try host env id b w) = snd (campaign_try host env id false w).
Proof.
  rewrite campaign_try_flag.
  destruct (campaign_try host env id false w) as [[b'|msg] w']; reflexivity.
Qed.

(** The progress update completes and assigns the three progress fields. *)
Lemma progress_update_run (i : Z) (w : World) :
  0 <= i -> 0 <= campaignsTotal (status w) ->
  exists bar,
    buildProgressBar (inject_Z (percent_of (i + 1) (campaignsTotal (status w)))) None
    = Ok bar
    /\ progress_update host i w
       = (Ok tt,
          Build_World
            (set_progressBar bar
               (set_progressPercent (percent_of (i + 1) (campaignsTotal (status w)))
                  (set_campaignsProcessed (i + 1) (status w))))
            (poolPromise w) (ticks w) (io w)
            (("Progress " ++ bar ++ " "
              ++ Number_toString host (Fin (inject_Z (i + 1))) ++ "/"
              ++ Number_toString host (Fin (inject_Z (campaignsTotal (status w))))
              ++ " campaigns") :: console w)).
Proof.
  intros Hi Ht.
  destruct (buildProgressBar_ok (percent_of (i + 1) (campaignsTotal (status w))))
    as [bar Hbar].
  { apply percent_of_nonneg; lia. }
  exists bar. split; [exact Hbar |].
  unfold progress_update, bind, modify, get_status, lift, console_write. simpl.
  rewrite Hbar. reflexivity.
Qed.

Lemma id_with_text (campaign : value) :
  id_without_text host campaign = false ->
  exists text, ToString host (opt_get campaign "id") = Ok text.
Proof.
  unfold id_without_text. intros H.
  destruct (truthy (opt_get campaign "id")) eqn:Hid.
  - destruct (ToString host (opt_get campaign "id")) as [text|msg]; [| discriminate].
    now exists text.
  - now apply ToString_falsy.
Qed.

Lemma campaign_fails_cases (campaign : value) (w : World) :
  campaign_fails host env campaign w
  = match campaign_attempt host env campaign w with
    | Throw _ => true
    | Ok _ => false
    end.
Proof. reflexivity. Qed.

(** The attempt of a campaign whose id has a text. *)
Lemma campaign_attempt_with_text (campaign : value) (text : string) (w : World) :
  ToString host (opt_get campaign "id") = Ok text ->
  campaign_attempt host env campaign w
  = if truthy (opt_get campaign "id")
    then and_then (fetch_logs env (List.length (io w)) (opt_get campaign "id"))
           (mapLogs host)
    else Throw "Campaign missing id".
Proof.
  intros Htext. unfold campaign_attempt. rewrite Htext.
  destruct (truthy (opt_get campaign "id")); reflexivity.
Qed.

(** One iteration of the loop over a campaign whose id has a text (or is
    missing) always completes. *)
Lemma campaign_iteration_run (i : Z) (runHadError : bool) (campaign : value) (w : World) :
  0 <= i -> 0 <= campaignsTotal (status w) ->
  id_without_text host campaign = false ->
  exists b' w',
    campaign_iteration host env i runHadError campaign w = (Ok b', w')
    /\ b' = runHadError || campaign_fails host env campaign w
    /\ poolPromise w' = poolPromise w
    /\ run_fields_kept (status w) (status w')
    /\ campaignsProcessed (status w') = i + 1
    /\ progressPercent (status w') = percent_of (i + 1) (campaignsTotal (status w))
    /\ buildProgressBar (inject_Z (progressPercent (status w'))) None
       = Ok (progressBar (status w'))
    /\ currentCampaignId (status w') = or_else (opt_get campaign "id") VNull
    /\ logInsertErrors (status w) <= logInsertErrors (status w')
    /\ (exists new,
          inserted_rows env (io w') = (inserted_rows env (io w) ++ new)%list
          /\ logsInserted (status w') = logsInserted (status w) + Z.of_nat (List.length new)
          /\ lastLogCreatedAt (status w')
             = fold_left advance (created_times new) (lastLogCreatedAt (status w)))
    /\ fetched (io w')
       = (fetched (io w) ++ fetchable [campaign])%list
    /\ (forall msg, campaign_attempt host env campaign w = Throw msg ->
        exists text,
          ToString host (opt_get campaign "id") = Ok text
          /\ lastError (status w')
             = Some ("Campaign " ++ text ++ " failed: " ++ msg)
          /\ lastErrorAt (status w') = Some (clock env (ticks w))
          /\ logsInserted (status w') = logsInserted (status w)
          /\ logInsertErrors (status w') = logInsertErrors (status w)
          /\ lastLogCreatedAt (status w') = lastLogCreatedAt (status w)
          /\ io w' = (List.map FetchLogs (fetchable [campaign]) ++ io w)%list)
    /\ (forall items, campaign_attempt host env campaign w = Ok items ->
        io w' = (rev (List.map InsertRow (bound_rows host items))
                 ++ FetchLogs (opt_get campaign "id") :: io w)%list).
Proof.
  intros Hi Ht Hnt.
  destruct (id_with_text campaign Hnt) as [text Htext].
  pose proof (campaign_attempt_with_text campaign text w Htext) as Hatt.
  unfold campaign_fails. rewrite Hatt. clear Hatt.
  set (id := opt_get campaign "id") in *.
  set (w0 := Build_World (set_currentCampaignId (or_else id VNull) (status w))
               (poolPromise w) (ticks w) (io w) (console w)).
  destruct (campaign_try_run id text runHadError w0 Htext)
    as (b' & w1 & Htry & Hpool & (Hrf & Hk1 & Hk2 & Hk3 & Hk4) & Herr & Hnew & Hcase).
  destruct Hrf as (R1 & R2 & R3 & R4 & R5).
  simpl in R1, R2, R3, R4, R5, Hk1, Hk2, Hk3, Hk4, Hpool, Herr.
  destruct (progress_update_run i w1 Hi) as (bar & Hbar & Hprog).
  { rewrite R5. exact Ht. }
  rewrite R5 in Hbar, Hprog.
  eexists b', _.
  split.
  { unfold campaign_iteration, bind. fold id. unfold modify at 1. fold w0.
    rewrite Htry, Hprog. reflexivity. }
  simpl. change (io w0) with (io w) in Hcase. change (ticks w0) with (ticks w) in Hcase.
  change (status w0) with (set_currentCampaignId (or_else id VNull) (status w)) in Hcase.
  simpl in Hcase.
  split.
  { destruct (truthy id) eqn:Hid.
    - destruct (and_then (fetch_logs env (List.length (io w)) id) (mapLogs host));
        destruct Hcase as (-> & _); [now rewrite orb_false_r | now rewrite orb_true_r].
    - destruct Hcase as (-> & _). now rewrite orb_true_r. }
  split; [exact Hpool |].
  split; [repeat split; assumption |].
  split; [reflexivity |].
  split; [reflexivity |].
  split; [exact Hbar |].
  split; [exact Hk2 |].
  split; [exact Herr |].
  split; [exact Hnew |].
  split.
  { unfold fetchable. simpl. fold id.
    destruct (truthy id) eqn:Hid; simpl.
    - destruct (and_then (fetch_logs env (List.length (io w)) id) (mapLogs host)).
      + destruct Hcase as (_ & ->). now rewrite fetched_after_batch.
      + destruct Hcase as (_ & -> & _). reflexivity.
    - destruct Hcase as (_ & -> & _). now rewrite app_nil_r. }
  split.
  - intros msg Hfails. exists text. split; [exact Htext |].
    unfold fetchable. simpl. fold id.
    destruct (truthy id) eqn:Hid; simpl.
    + destruct (and_then (fetch_logs env (List.length (io w)) id) (mapLogs host))
        as [items|msg']; [discriminate |].
      injection Hfails as <-.
      destruct Hcase as (_ & Hio & He & Hat & H1 & H2 & H3).
      repeat split; assumption.
    + injection Hfails as <-.
      destruct Hcase as (_ & Hio & He & Hat & H1 & H2 & H3).
      repeat split; assumption.
  - intros items Hok.
    destruct (truthy id) eqn:Hid; [| discriminate].
    rewrite Hok in Hcase. apply Hcase.
Qed.

(** One iteration of the loop over a campaign whose id has no text throws
    after setting [currentCampaignId], and does nothing else. *)
Lemma campaign_iteration_throws (i : Z) (b : bool) (campaign : value) (w : World) :
  id_without_text host campaign = true ->
  exists msg,
    ToString host (opt_get campaign "id") = Throw msg
    /\ campaign_iteration host env i b campaign w
       = (Throw msg,
          Build_World
            (set_currentCampaignId (opt_get campaign "id") (status w))
            (poolPromise w) (ticks w) (io w) (console w))
    /\ campaign_fails host env campaign w = true.
Proof.
  unfold id_without_text. intros H.
  destruct (truthy (opt_get campaign "id")) eqn:Hid; [| discriminate].
  destruct (ToString host (opt_get campaign "id")) as [text|msg] eqn:Htext;
    [discriminate |].
  exists msg. split; [reflexivity |].
  split.
  - unfold campaign_iteration, bind. unfold modify at 1.
    rewrite (campaign_try_throws _ msg b _ Hid Htext).
    unfold or_else. rewrite Hid. reflexivity.
  - unfold campaign_fails, campaign_attempt. now rewrite Hid, Htext.
Qed.

(** The flag an iteration is given changes nothing but the flag it
    returns. *)
Lemma campaign_iteration_flag (i : Z) (b : bool) (campaign : value) (w : World) :
  campaign_iteration host env i b campaign w
  = match campaign_iteration host env i false campaign w with
    | (Ok b', w') => (Ok (b || b'), w')
    | (Throw msg, w') => (Throw msg, w')
    end.
Proof.
  unfold campaign_iteration, bind, modify.
  rewrite campaign_try_flag.
  match goal with
  | |- context [campaign_try host env ?id false ?w0] =>
      destruct (campaign_try host env id false w0) as [[b1|m1] w1]
  end; [| reflexivity].
  destruct (progress_update host i w1) as [[[]|m] w3]; reflexivity.
Qed.

(** The world an iteration leaves does not depend on the flag. *)
Lemma campaign_iteration_world (i : Z) (b : bool) (campaign : value) (w : World) :
  snd (campaign_iteration host env i b campaign w)
  = snd (campaign_iteration host env i false campaign w).
Proof.
  rewrite campaign_iteration_flag.
  destruct (campaign_iteration host env i false campaign w) as [[b'|msg] w'];
    reflexivity.
Qed.

End CampaignFacts.

(** ** The campaign loop *)

Section LoopFacts.

Variable host : Host.
Variable env : Env.

Lemma fetchable_cons (campaign : value) (rest : list value) :
  fetchable (campaign :: rest) = (fetchable [campaign] ++ fetchable rest)%list.
Proof.
  unfold fetchable. simpl. destruct (truthy (opt_get campaign "id")); reflexivity.
Qed.

Lemma fetchable_app (a b : list value) :
  fetchable (a ++ b) = (fetchable a ++ fetchable b)%list.
Proof. unfold fetchable. now rewrite map_app, filter_app. Qed.

Lemma created_times_app (a b : list Row) :
  created_times (a ++ b) = (created_times a ++ created_times b)%list.
Proof. unfold created_times. apply flat_map_app. Qed.

(** The loop, whatever fails on the way. It runs to its end unless it
    comes to a campaign whose id has no text, where it throws. Either way
    it has processed some first [k] of the campaigns (all of them when it
    runs to its end), and [status] and the trace account for them. *)
Lemma campaign_loop_run (campaigns : list value) :
  forall (i : Z) (runHadError : bool) (w : World),
  0 <= i -> 0 <= campaignsTotal (status w) ->
  exists r w',
    campaign_loop host env i runHadError campaigns w = (r, w')
    /\ poolPromise w' = poolPromise w
    /\ run_fields_kept (status w) (status w')
    /\ logInsertErrors (status w) <= logInsertErrors (status w')
    /\ (exists new,
          inserted_rows env (io w') = (inserted_rows env (io w) ++ new)%list
          /\ logsInserted (status w') = logsInserted (status w) + Z.of_nat (List.length new)
          /\ lastLogCreatedAt (status w')
             = fold_left advance (created_times new) (lastLogCreatedAt (status w)))
    /\ (exists k : nat,
          (k <= List.length campaigns)%nat
          /\ (k = O ->
              campaignsProcessed (status w') = campaignsProcessed (status w)
              /\ progressPercent (status w') = progressPercent (status w)
              /\ progressBar (status w') = progressBar (status w))
          /\ (k <> O ->
              campaignsProcessed (status w') = i + Z.of_nat k
              /\ progressPercent (status w')
                 = percent_of (i + Z.of_nat k) (campaignsTotal (status w))
              /\ buildProgressBar (inject_Z (progressPercent (status w'))) None
                 = Ok (progressBar (status w')))
          /\ (forall b', r = Ok b' -> k = List.length campaigns))
    /\ match r with
       | Ok b' =>
           b' = runHadError || (0 <? campaign_errors host env i campaigns w)%nat
           /\ existsb (id_without_text host) campaigns = false
           /\ (campaigns = [] -> w' = w)
           /\ fetched (io w') = (fetched (io w) ++ fetchable campaigns)%list
       | Throw _ =>
           existsb (id_without_text host) campaigns = true
           /\ (0 < campaign_errors host env i campaigns w)%nat
       end.
Proof.
  induction campaigns as [|campaign rest IH]; intros i b w Hi Ht.
  - exists (Ok b), w. simpl. split; [reflexivity |].
    split; [reflexivity |].
    split; [apply run_fields_kept_refl |].
    split; [lia |].
    split; [exists []; rewrite app_nil_r; simpl; repeat split; lia |].
    split.
    { exists O. split; [lia |]. split; [repeat split |].
      split; [intros H; now contradiction H | reflexivity]. }
    split; [now rewrite orb_false_r |].
    split; [reflexivity |].
    split; [reflexivity | now rewrite app_nil_r].
  - destruct (id_without_text host campaign) eqn:Hnt.
    + destruct (campaign_iteration_throws host env i b campaign w Hnt)
        as (msg & _ & Hrun & Hfails).
      eexists (Throw msg), _.
      split; [simpl; unfold bind; rewrite Hrun; reflexivity |]. simpl.
      split; [reflexivity |].
      split; [repeat split |].
      split; [lia |].
      split; [exists []; rewrite app_nil_r; simpl; repeat split; lia |].
      split.
      { exists O. split; [lia |]. split; [repeat split |].
        split; [intros H; now contradiction H | discriminate]. }
      split; [now rewrite Hnt |].
      rewrite Hfails. lia.
    + destruct (campaign_iteration_run host env i b campaign w Hi Ht Hnt)
        as (b1 & w1 & Hrun & Hb1 & Hpool & Hrf & Hproc & Hpct & Hbar & _ & Herr
              & (new1 & Hrows1 & Hins1 & Hlast1) & Hfetched & _).
      assert (Htot : campaignsTotal (status w1) = campaignsTotal (status w))
        by apply Hrf.
      assert (Ht1 : 0 <= campaignsTotal (status w1)) by (rewrite Htot; exact Ht).
      destruct (IH (i + 1) b1 w1 ltac:(lia) Ht1)
        as (r2 & w2 & Hrun2 & Hpool2 & Hrf2 & Herr2
              & (new2 & Hrows2 & Hins2 & Hlast2) & (k2 & Hk & Hzero & Hpos & Hall) & Hres).
      assert (Hcount : campaign_errors host env i (campaign :: rest) w
                       = ((if campaign_fails host env campaign w then 1 else 0)
                          + campaign_errors host env (i + 1) rest w1)%nat).
      { simpl campaign_errors.
        rewrite (campaign_iteration_flag host env i b campaign w) in Hrun.
        destruct (campaign_iteration host env i false campaign w) as [[b0|m0] w0];
          [| discriminate].
        injection Hrun as _ <-. reflexivity. }
      exists r2, w2.
      split; [simpl; unfold bind; rewrite Hrun; exact Hrun2 |].
      split; [congruence |].
      split; [eapply run_fields_kept_trans; eassumption |].
      split; [lia |].
      split.
      { exists (new1 ++ new2)%list.
        split; [rewrite Hrows2, Hrows1; now rewrite app_assoc |].
        split; [rewrite Hins2, Hins1, length_app; lia |].
        rewrite Hlast2, Hlast1, created_times_app, fold_left_app. reflexivity. }
      split.
      { exists (S k2). split; [simpl; lia |].
        split; [discriminate |].
        split.
        - intros _. destruct k2 as [|k2'].
          + destruct (Hzero eq_refl) as (Hp & Hq & Hb).
            rewrite Hp, Hq, Hb.
            replace (i + Z.of_nat 1) with (i + 1) by lia.
            repeat split; assumption.
          + destruct (Hpos ltac:(discriminate)) as (Hp & Hq & Hb).
            rewrite Htot in Hq.
            replace (i + Z.of_nat (S (S k2'))) with (i + 1 + Z.of_nat (S k2')) by lia.
            repeat split; assumption.
        - intros b' Hok. simpl. f_equal. exact (Hall b' Hok). }
      simpl existsb. rewrite Hnt, Hcount. simpl orb.
      destruct r2 as [b2|msg].
      * destruct Hres as (Hb2 & Hex & Hnil & Hfetched2).
        split.
        { rewrite Hb2, Hb1.
          destruct (campaign_fails host env campaign w); simpl.
          - now rewrite !orb_true_r.
          - now rewrite orb_false_r. }
        split; [exact Hex |].
        split; [discriminate |].
        rewrite Hfetched2, Hfetched, (fetchable_cons campaign rest).
        now rewrite <- app_assoc.
      * destruct Hres as (Hex & Hpos2). split; [exact Hex | lia].
Qed.

(** The loop over campaigns whose ids all have a text (or are missing)
    always runs to its end, whatever fails on the way. *)
Lemma campaign_loop_total (campaigns : list value) (i : Z) (runHadError : bool)
    (w : World) :
  0 <= i -> 0 <= campaignsTotal (status w) ->
  existsb (id_without_text host) campaigns = false ->
  exists b' w',
    campaign_loop host env i runHadError campaigns w = (Ok b', w')
    /\ b' = runHadError || (0 <? campaign_errors host env i campaigns w)%nat
    /\ poolPromise w' = poolPromise w
    /\ run_fields_kept (status w) (status w')
    /\ (campaigns <> [] ->
        campaignsProcessed (status w') = i + Z.of_nat (List.length campaigns)
        /\ progressPercent (status w')
           = percent_of (i + Z.of_nat (List.length campaigns)) (campaignsTotal (status w))
        /\ buildProgressBar (inject_Z (progressPercent (status w'))) None
           = Ok (progressBar (status w')))
    /\ (campaigns = [] -> w' = w)
    /\ logInsertErrors (status w) <= logInsertErrors (status w')
    /\ (exists new,
          inserted_rows env (io w') = (inserted_rows env (io w) ++ new)%list
          /\ logsInserted (status w') = logsInserted (status w) + Z.of_nat (List.length new)
          /\ lastLogCreatedAt (status w')
             = fold_left advance (created_times new) (lastLogCreatedAt (status w)))
    /\ fetched (io w') = (fetched (io w) ++ fetchable campaigns)%list.
Proof.
  intros Hi Ht Hall.
  destruct (campaign_loop_run campaigns i runHadError w Hi Ht)
    as (r & w' & Hrun & Hpool & Hrf & Herr & Hnew & (k & Hk & _ & Hpos & Hlen) & Hres).
  destruct r as [b'|msg]; [| destruct Hres as (Hex & _); congruence].
  destruct Hres as (Hb & _ & Hnil & Hfetched).
  exists b', w'. split; [exact Hrun |].
  split; [exact Hb |]. split; [exact Hpool |]. split; [exact Hrf |].
  split.
  { intros Hne. rewrite <- (Hlen b' eq_refl). apply Hpos.
    rewrite (Hlen b' eq_refl). destruct campaigns; [contradiction | discriminate]. }
  split; [exact Hnil |]. split; [exact Herr |]. split; [exact Hnew | exact Hfetched].
Qed.


End LoopFacts.

(** ** A whole run *)

Section RunFacts.

Variable host : Host.
Variable env : Env.

Lemma bar_zero : buildProgressBar 0 None = Ok "[--------------------]".
Proof. vm_compute. reflexivity. Qed.

(** The reset always completes; it assigns every field but [lastSuccessAt]
    and [lastLogCreatedAt], reads the clock once and requests nothing. *)
Lemma reset_run_run (w : World) :
  reset_run env w = (Ok tt, after_reset env w)
  /\ status (after_reset env w)
     = Build_Status true (Some (clock env (ticks w))) None (lastSuccessAt (status w))
         None None 0 0 0 0 VNull 0 "[--------------------]"
         (lastLogCreatedAt (status w))
  /\ poolPromise (after_reset env w) = poolPromise w
  /\ ticks (after_reset env w) = S (ticks w)
  /\ io (after_reset env w) = io w
  /\ console (after_reset env w) = console w.
Proof.
  unfold after_reset, reset_run.
  cbv beta iota delta [bind modify nowIso lift status poolPromise ticks io console].
  rewrite bar_zero. simpl. repeat split.
Qed.

(** Loading the campaign list either throws, leaving [status] as it was,
    or returns the list and sets [campaignsTotal] to its length; it makes
    no insert and no log request. *)
Lemma load_campaigns_run (w : World) :
  exists r w1,
    load_campaigns env w = (r, w1)
    /\ status w1 = match r with
                   | Ok campaigns =>
                       set_campaignsTotal (Z.of_nat (List.length campaigns)) (status w)
                   | Throw _ => status w
                   end
    /\ ticks w1 = ticks w
    /\ console w1 = console w
    /\ inserted_rows env (io w1) = inserted_rows env (io w)
    /\ fetched (io w1) = fetched (io w).
Proof.
  unfold load_campaigns, bind.
  destruct (token_missing env).
  - do 2 eexists. split; [reflexivity |]. repeat split.
  - simpl. unfold getPool.
    destruct (poolPromise w); destruct (sql_connect env) as [[]|msg]; simpl;
      try (destruct (query_campaigns env _) as [campaigns|msg]; simpl);
      do 2 eexists; (split; [reflexivity |]); simpl; rewrite ?app_nil_r; repeat split.
Qed.

Lemma runOnce_starts (w : World) :
  running (status w) = false ->
  runOnce host env w
  = finally (try_catch (run_body host env) (run_failed env)) (modify (set_running false))
      (after_reset env w).
Proof.
  intros Hr. unfold runOnce, bind, get_status. rewrite Hr.
  destruct (reset_run_run w) as (-> & _). reflexivity.
Qed.

(** A run whose campaign list loads and whose loop ends. *)
Lemma run_completes (w0 w1 w2 : World) (campaigns : list value) (b : bool) :
  load_campaigns env w0 = (Ok campaigns, w1) ->
  campaign_loop host env 0 false campaigns w1 = (Ok b, w2) ->
  finally (try_catch (run_body host env) (run_failed env)) (modify (set_running false)) w0
  = (Ok tt, completed env b w2).
Proof.
  intros Hload Hloop.
  unfold finally, try_catch, run_body, bind. rewrite Hload, Hloop.
  unfold finish_run, bind, nowIso, modify, completed. simpl.
  destruct b; reflexivity.
Qed.

(** A run whose loop throws: the outer [catch] ends it as it ends a run
    whose campaign list does not load. *)
Lemma run_breaks (w0 w1 w2 : World) (campaigns : list value) (msg : string) :
  load_campaigns env w0 = (Ok campaigns, w1) ->
  campaign_loop host env 0 false campaigns w1 = (Throw msg, w2) ->
  finally (try_catch (run_body host env) (run_failed env)) (modify (set_running false)) w0
  = (Ok tt, aborted env msg w2).
Proof.
  intros Hload Hloop.
  unfold finally, try_catch, run_body, bind. rewrite Hload, Hloop.
  reflexivity.
Qed.

(** A run whose campaign list does not load. *)
Lemma run_aborts (w0 w1 : World) (msg : string) :
  load_campaigns env w0 = (Throw msg, w1) ->
  finally (try_catch (run_body host env) (run_failed env)) (modify (set_running false)) w0
  = (Ok tt, aborted env msg w1).
Proof.
  intros Hload.
  unfold finally, try_catch, run_body, bind. rewrite Hload.
  reflexivity.
Qed.

(** When the list loads, the loop starts with the counters of the reset
    and the length of the list as total. *)
Lemma loop_entry (w w1 : World) (campaigns : list value) :
  load_campaigns env (after_reset env w) = (Ok campaigns, w1) ->
  campaignsTotal (status w1) = Z.of_nat (List.length campaigns)
  /\ campaignsProcessed (status w1) = 0
  /\ progressPercent (status w1) = 0
  /\ logsInserted (status w1) = 0
  /\ logInsertErrors (status w1) = 0
  /\ lastSuccessAt (status w1) = lastSuccessAt (status w)
  /\ lastLogCreatedAt (status w1) = lastLogCreatedAt (status w)
  /\ inserted_rows env (io w1) = inserted_rows env (io w)
  /\ fetched (io w1) = fetched (io w).
Proof.
  intros Hload.
  destruct (load_campaigns_run (after_reset env w))
    as (r & w1' & Hrun & Hst & _ & _ & Hrows & Hf).
  rewrite Hload in Hrun. injection Hrun as <- <-.
  destruct (reset_run_run w) as (_ & Hs0 & _ & _ & Hio & _).
  rewrite Hst, Hs0, Hrows, Hf, Hio. simpl. repeat split.
Qed.

End RunFacts.

(** ** The claims about a run *)

Section RunClaims.

Variable host : Host.
Variable env : Env.

(** After every campaign the percentage is the rounded quotient of the two
    counters, and a run over at least one campaign, each with an id that
    has a text or with none, ends with every campaign processed and the
    percentage at 100. *)
Lemma run_over_campaigns_ends_at_100 (w w1 : World) (campaigns : list value) :
  running (status w) = false ->
  load_campaigns env (after_reset env w) = (Ok campaigns, w1) ->
  campaigns <> [] ->
  existsb (id_without_text host) campaigns = false ->
  exists wf,
    runOnce host env w = (Ok tt, wf)
    /\ campaignsTotal (status wf) = Z.of_nat (List.length campaigns)
    /\ campaignsProcessed (status wf) = campaignsTotal (status wf)
    /\ progressPercent (status wf) = 100.
Proof.
  intros Hr Hload Hne Hids.
  destruct (loop_entry env w w1 campaigns Hload) as (Htot & _).
  destruct (campaign_loop_total host env campaigns 0 false w1 ltac:(lia) ltac:(lia) Hids)
    as (b & w2 & Hloop & _ & _ & Hrf & Hlast & _).
  destruct (Hlast Hne) as (Hproc & Hpct & _).
  destruct Hrf as (_ & _ & _ & _ & Htot2).
  exists (completed env b w2).
  split; [rewrite (runOnce_starts host env w Hr); now apply (run_completes host env _ w1 w2 campaigns) |].
  assert (Hlen : 0 < Z.of_nat (List.length campaigns)).
  { destruct campaigns; [contradiction | simpl List.length; lia]. }
  unfold completed; destruct b; simpl; rewrite ?Htot2, ?Hproc, ?Hpct, ?Htot;
    (split; [reflexivity |]); (split; [lia |]);
    rewrite Z.add_0_l; now apply percent_of_complete.
Qed.

(** C1 (the code departs from it). When the campaign list is empty the
    loop body never runs, so the alternative [100] of line 230 is never
    taken: the run ends, successfully, with [progressPercent] at the 0 of
    the reset and an empty bar. *)
Theorem C1_empty_run_ends_at_zero (w w1 : World) :
  running (status w) = false ->
  load_campaigns env (after_reset env w) = (Ok [], w1) ->
  exists wf,
    runOnce host env w = (Ok tt, wf)
    /\ campaignsTotal (status wf) = 0
    /\ campaignsProcessed (status wf) = 0
    /\ progressPercent (status wf) = 0
    /\ progressBar (status wf) = "[--------------------]"
    /\ lastSuccessAt (status wf) = lastRunFinishedAt (status wf)
    /\ lastRunFinishedAt (status wf) = Some (clock env (ticks w1)).
Proof.
  intros Hr Hload.
  exists (completed env false w1).
  split.
  { rewrite (runOnce_starts host env w Hr).
    now apply (run_completes host env _ w1 w1 []). }
  destruct (load_campaigns_run env (after_reset env w))
    as (r & w1' & Hrun & Hst & _).
  rewrite Hload in Hrun. injection Hrun as <- <-.
  destruct (reset_run_run env w) as (_ & Hs0 & _).
  unfold completed. simpl. rewrite Hst, Hs0. simpl. repeat split.
Qed.

(** C2. While [running] is true, [runOnce] assigns [lastError] (a message
    that contains "previous run still in progress") and [lastErrorAt] (the
    time it read) and nothing else of [status]; it makes no request to the
    database or the API and leaves the pool as it was; it writes the one
    warning line. *)
Theorem C2_overlapping_run_is_skipped (w : World) :
  running (status w) = true ->
  exists w',
    runOnce host env w = (Ok tt, w')
    /\ status w'
       = set_lastErrorAt (Some (clock env (ticks w)))
           (set_lastError (Some "Skipped: previous run still in progress") (status w))
    /\ (exists before after,
          lastError (status w')
          = Some (before ++ "previous run still in progress" ++ after))
    /\ lastErrorAt (status w') = Some (clock env (ticks w))
    /\ running (status w') = running (status w)
    /\ lastRunStartedAt (status w') = lastRunStartedAt (status w)
    /\ lastRunFinishedAt (status w') = lastRunFinishedAt (status w)
    /\ lastSuccessAt (status w') = lastSuccessAt (status w)
    /\ campaignsTotal (status w') = campaignsTotal (status w)
    /\ campaignsProcessed (status w') = campaignsProcessed (status w)
    /\ logsInserted (status w') = logsInserted (status w)
    /\ logInsertErrors (status w') = logInsertErrors (status w)
    /\ currentCampaignId (status w') = currentCampaignId (status w)
    /\ progressPercent (status w') = progressPercent (status w)
    /\ progressBar (status w') = progressBar (status w)
    /\ lastLogCreatedAt (status w') = lastLogCreatedAt (status w)
    /\ io w' = io w
    /\ poolPromise w' = poolPromise w
    /\ console w' = "Skipped: previous run still in progress" :: console w.
Proof.
  intros Hr. eexists.
  split.
  { unfold runOnce, bind, get_status. rewrite Hr. reflexivity. }
  simpl. split; [reflexivity |].
  split; [exists "Skipped: ", ""; reflexivity |].
  repeat split.
Qed.

(** C5. A run that starts (no other run in progress) always reaches its
    end, with [running] false and [lastRunFinishedAt] set. If the campaign
    list loaded and no campaign-level error occurred (no campaign without
    id, no rejected fetch, no answer whose mapping throws),
    [lastSuccessAt] is that [lastRunFinishedAt]; if a campaign-level error
    occurred, or the run failed before the loop, [lastSuccessAt] is what
    it was before the run. *)
Theorem C5_last_success_after_a_run (w : World) :
  running (status w) = false ->
  exists wf,
    runOnce host env w = (Ok tt, wf)
    /\ running (status wf) = false
    /\ (exists t, lastRunFinishedAt (status wf) = Some t)
    /\ match load_campaigns env (after_reset env w) with
       | (Throw _, _) => lastSuccessAt (status wf) = lastSuccessAt (status w)
       | (Ok campaigns, w1) =>
           if (campaign_errors host env 0 campaigns w1 =? 0)%nat
           then lastSuccessAt (status wf) = lastRunFinishedAt (status wf)
           else lastSuccessAt (status wf) = lastSuccessAt (status w)
       end.
Proof.
  intros Hr. rewrite (runOnce_starts host env w Hr).
  destruct (load_campaigns env (after_reset env w)) as [[campaigns|msg] w1] eqn:Hload.
  - destruct (loop_entry env w w1 campaigns Hload) as (Htot & _ & _ & _ & _ & Hsucc & _).
    destruct (campaign_loop_run host env campaigns 0 false w1 ltac:(lia) ltac:(lia))
      as (r & w2 & Hloop & _ & Hrf & _ & _ & _ & Hres).
    destruct Hrf as (_ & _ & _ & Hsucc2 & _).
    destruct r as [b|msg].
    + destruct Hres as (Hb & _).
      exists (completed env b w2).
      split; [now apply (run_completes host env _ w1 w2 campaigns) |].
      simpl in Hb. subst b.
      destruct (campaign_errors host env 0 campaigns w1) as [|n]; simpl.
      * repeat split. eexists; reflexivity.
      * repeat split; [eexists; reflexivity | congruence].
    + destruct Hres as (_ & Hpos).
      exists (aborted env msg w2).
      split; [now apply (run_breaks host env _ w1 w2 campaigns) |].
      destruct (campaign_errors host env 0 campaigns w1) as [|n]; [lia |].
      simpl. repeat split; [eexists; reflexivity | congruence].
  - exists (aborted env msg w1).
    split; [now apply run_aborts |].
    destruct (load_campaigns_run env (after_reset env w)) as (r & w1' & Hrun & Hst & _).
    rewrite Hload in Hrun. injection Hrun as <- <-.
    destruct (reset_run_run env w) as (_ & Hs0 & _).
    simpl. rewrite Hst, Hs0. simpl.
    repeat split. eexists; reflexivity.
Qed.


(** C4. When the insert of a record fails with [msg], because the query
    is rejected or because a binding throws before it, its iteration
    completes: [logInsertErrors] goes up by 1, the count of inserted
    records does not, [lastError] and [lastErrorAt] are overwritten, and
    every other field of [status] but those is as before. The batch goes
    on: every later record whose bindings succeed is sent for insertion,
    and the batch returns the count it was entered with plus the number
    of successful inserts. No insert failure raises the flag of the run:
    an iteration of the loop returns the flag it was given unless the
    campaign itself fails, whatever the inserts do. *)
Theorem C4_failed_insert_is_isolated
    (w : World) (inserted : Z) (item : MappedLog) (rest : list MappedLog) (msg : string) :
  and_then (bind_row host item) (insert_query env (List.length (io w))) = Throw msg ->
  exists w1 n w2,
    insert_one host env inserted item w = (Ok inserted, w1)
    /\ logInsertErrors (status w1) = logInsertErrors (status w) + 1
    /\ lastError (status w1) = Some ("Insert failed: " ++ msg)
    /\ lastErrorAt (status w1) = Some (clock env (ticks w))
    /\ batch_fields_kept (status w) (status w1)
    /\ lastLogCreatedAt (status w1) = lastLogCreatedAt (status w)
    /\ inserted_rows env (io w1) = inserted_rows env (io w)
    /\ insertLogs_from host env inserted (item :: rest) w = (Ok n, w2)
    /\ insertLogs_from host env inserted rest w1 = (Ok n, w2)
    /\ io w2 = (rev (List.map InsertRow (bound_rows host rest)) ++ io w1)%list
    /\ (exists new,
          inserted_rows env (io w2) = (inserted_rows env (io w) ++ new)%list
          /\ n = inserted + Z.of_nat (List.length new))
    /\ (forall i b campaign wc,
          0 <= i < campaignsTotal (status wc) ->
          campaign_fails host env campaign wc = false ->
          exists wc', campaign_iteration host env i b campaign wc = (Ok b, wc')).
Proof.
  intros Hq.
  destruct (insert_one_run host env inserted item w)
    as (k1 & w1 & Hone & _ & Hkept & Hcase).
  assert (Hfail : k1 = inserted
                  /\ logInsertErrors (status w1) = logInsertErrors (status w) + 1
                  /\ lastError (status w1) = Some ("Insert failed: " ++ msg)
                  /\ lastErrorAt (status w1) = Some (clock env (ticks w))
                  /\ lastLogCreatedAt (status w1) = lastLogCreatedAt (status w)
                  /\ inserted_rows env (io w1) = inserted_rows env (io w)).
  { destruct (bind_row host item) as [row|msg0]; cbn [and_then] in Hq.
    - destruct Hcase as (Hio & Hcase). rewrite Hq in Hcase.
      destruct Hcase as (-> & He & Hl & Hat & Hd).
      repeat split; try assumption.
      rewrite Hio. simpl. rewrite Hq. apply app_nil_r.
    - injection Hq as ->.
      destruct Hcase as (-> & Hio & He & Hl & Hat & Hd).
      repeat split; try assumption. now rewrite Hio. }
  destruct Hfail as (-> & He & Hl & Hat & Hd & Hrows1).
  destruct (insertLogs_from_run host env rest inserted w1)
    as (n & w2 & Hrun & Hio2 & _ & _ & _ & new & Hrows & Hn & _).
  exists w1, n, w2.
  split; [exact Hone |].
  split; [exact He |]. split; [exact Hl |]. split; [exact Hat |].
  split; [exact Hkept |]. split; [exact Hd |]. split; [exact Hrows1 |].
  split; [simpl; unfold bind; rewrite Hone; exact Hrun |].
  split; [exact Hrun |].
  split; [exact Hio2 |].
  split; [exists new; rewrite <- Hrows1; split; assumption |].
  intros i b campaign wc Hi Hok.
  assert (Hnt : id_without_text host campaign = false).
  { destruct (id_without_text host campaign) eqn:Hnt; [| reflexivity].
    destruct (campaign_iteration_throws host env i b campaign wc Hnt) as (m & _ & _ & Hf).
    congruence. }
  destruct (campaign_iteration_run host env i b campaign wc ltac:(lia) ltac:(lia) Hnt)
    as (b' & wc' & Hiter & Hb' & _).
  rewrite Hok, orb_false_r in Hb'. subst b'.
  exists wc'. exact Hiter.
Qed.

Lemma advance_some (p t : Z) : advance (Some p) t = Some (Z.max p t).
Proof.
  unfold advance. destruct (Z.gtb_spec t p); f_equal; lia.
Qed.

Lemma fold_advance_from (times : list Z) :
  forall p, exists q, fold_left advance times (Some p) = Some q /\ p <= q.
Proof.
  induction times as [|t times IH]; intros p; cbn [fold_left].
  - exists p. split; [reflexivity | lia].
  - rewrite advance_some. destruct (IH (Z.max p t)) as (q & Hq & Hle).
    exists q. split; [exact Hq | lia].
Qed.

Lemma fold_advance_bounds (times : list Z) :
  forall previous t, In t times ->
  exists q, fold_left advance times previous = Some q /\ t <= q.
Proof.
  induction times as [|u times IH]; intros previous t Hin; [destruct Hin |].
  cbn [fold_left]. destruct Hin as [-> | Hin].
  - assert (Hadv : exists p, advance previous t = Some p /\ t <= p).
    { destruct previous as [p|]; [rewrite advance_some | cbn [advance]];
        eexists; (split; [reflexivity | lia]). }
    destruct Hadv as (p & -> & Hp).
    destruct (fold_advance_from times p) as (q & Hq & Hle).
    exists q. split; [exact Hq | lia].
  - now apply IH.
Qed.

Lemma fold_advance_attained (times : list Z) :
  forall previous,
  fold_left advance times previous = previous
  \/ exists t, In t times /\ fold_left advance times previous = Some t.
Proof.
  induction times as [|u times IH]; intros previous; cbn [fold_left]; [now left |].
  destruct (IH (advance previous u)) as [Heq | (t & Hin & Ht)].
  - rewrite Heq. unfold advance. destruct previous as [p|].
    + destruct (u >? p); [right; exists u; split; [now left | reflexivity] | now left].
    + right. exists u. split; [now left | reflexivity].
  - right. exists t. split; [now right | exact Ht].
Qed.

(** C6, as the code has it. The reset does not assign [lastLogCreatedAt],
    so a run starts from the value the previous runs left. At the end of a
    run it is the greatest of that value and the dates of the records
    inserted in the run: it advances to the date of a newly inserted
    record only when that date is later, never moves back, and is left
    alone by a rejected insert. *)
Theorem C6_last_log_created_at_is_a_high_water_mark (w : World) :
  running (status w) = false ->
  exists wf new,
    runOnce host env w = (Ok tt, wf)
    /\ inserted_rows env (io wf) = (inserted_rows env (io w) ++ new)%list
    /\ lastLogCreatedAt (status wf)
       = fold_left advance (created_times new) (lastLogCreatedAt (status w))
    /\ (forall p, lastLogCreatedAt (status w) = Some p ->
        exists q, lastLogCreatedAt (status wf) = Some q /\ p <= q)
    /\ (forall t, In t (created_times new) ->
        exists q, lastLogCreatedAt (status wf) = Some q /\ t <= q)
    /\ (lastLogCreatedAt (status wf) = lastLogCreatedAt (status w)
        \/ exists t, In t (created_times new) /\ lastLogCreatedAt (status wf) = Some t)
    /\ (forall k item row wi t,
          bind_row host item = Ok row ->
          insert_query env (List.length (io wi)) row = Ok tt ->
          m_createdAt item = Some (ValidDate t) ->
          lastLogCreatedAt (status (snd (insert_one host env k item wi)))
          = advance (lastLogCreatedAt (status wi)) t)
    /\ (forall k item wi msg,
          and_then (bind_row host item) (insert_query env (List.length (io wi)))
          = Throw msg ->
          lastLogCreatedAt (status (snd (insert_one host env k item wi)))
          = lastLogCreatedAt (status wi)).
Proof.
  intros Hr. rewrite (runOnce_starts host env w Hr).
  assert (Hrun : exists wf new,
            finally (try_catch (run_body host env) (run_failed env))
              (modify (set_running false)) (after_reset env w) = (Ok tt, wf)
            /\ inserted_rows env (io wf) = (inserted_rows env (io w) ++ new)%list
            /\ lastLogCreatedAt (status wf)
               = fold_left advance (created_times new) (lastLogCreatedAt (status w))).
  { destruct (load_campaigns env (after_reset env w)) as [[campaigns|msg] w1] eqn:Hload.
    - destruct (loop_entry env w w1 campaigns Hload)
        as (Htot & _ & _ & _ & _ & _ & Hlast & Hrows & _).
      destruct (campaign_loop_run host env campaigns 0 false w1 ltac:(lia) ltac:(lia))
        as (r & w2 & Hloop & _ & _ & _ & (new & Hrows2 & _ & Hlast2) & _).
      destruct r as [b|msg].
      + exists (completed env b w2), new.
        split; [now apply (run_completes host env _ w1 w2 campaigns) |].
        split; [simpl; now rewrite Hrows2, Hrows |].
        unfold completed; destruct b; simpl; now rewrite Hlast2, Hlast.
      + exists (aborted env msg w2), new.
        split; [now apply (run_breaks host env _ w1 w2 campaigns) |].
        split; [simpl; now rewrite Hrows2, Hrows |].
        unfold aborted; simpl; now rewrite Hlast2, Hlast.
    - exists (aborted env msg w1), [].
      split; [now apply run_aborts |].
      destruct (load_campaigns_run env (after_reset env w))
        as (r & w1' & Hrun & Hst & _ & _ & Hrows & _).
      rewrite Hload in Hrun. injection Hrun as <- <-.
      destruct (reset_run_run env w) as (_ & Hs0 & _ & _ & Hio & _).
      split; [simpl; now rewrite Hrows, Hio, app_nil_r |].
      simpl. rewrite Hst, Hs0. reflexivity. }
  destruct Hrun as (wf & new & Hfin & Hrows & Hlast).
  exists wf, new.
  split; [exact Hfin |]. split; [exact Hrows |]. split; [exact Hlast |].
  split.
  { intros p Hp. rewrite Hlast, Hp. apply fold_advance_from. }
  split.
  { intros t Hin. rewrite Hlast. now apply fold_advance_bounds. }
  split.
  { rewrite Hlast. apply fold_advance_attained. }
  split.
  - intros k item row wi t Hb Hq Hd.
    destruct (insert_one_run host env k item wi) as (k1 & w1 & Hone & _ & _ & Hcase).
    rewrite Hb in Hcase. destruct Hcase as (_ & Hcase).
    rewrite Hq, Hd in Hcase. rewrite Hone. simpl. apply Hcase.
  - intros k item wi msg Hq.
    destruct (insert_one_run host env k item wi) as (k1 & w1 & Hone & _ & _ & Hcase).
    rewrite Hone. simpl.
    destruct (bind_row host item) as [row|msg0]; cbn [and_then] in Hq.
    + destruct Hcase as (_ & Hcase). rewrite Hq in Hcase. apply Hcase.
    + apply Hcase.
Qed.

Lemma nullish_opt_get (v : value) (k : string) :
  nullish v = true -> opt_get v k = VUndef.
Proof. intros H. unfold opt_get. now rewrite H. Qed.

Lemma nullish_opt_first (v : value) : nullish v = true -> opt_first v = VUndef.
Proof. destruct v; simpl; now try discriminate. Qed.

Lemma coalesce_nullish (v : value) : nullish v = true -> coalesce v VNull = VNull.
Proof. intros H. unfold coalesce. now rewrite H. Qed.

Lemma nullish_not_truthy (v : value) : nullish v = true -> truthy v = false.
Proof. destruct v; simpl; now try discriminate. Qed.

Lemma logsInserted_unchanged (s : Status) : set_logsInserted (logsInserted s + 0) s = s.
Proof. destruct s. unfold set_logsInserted. simpl. now rewrite Z.add_0_r. Qed.

Lemma map_all_length {A B : Type} (f : A -> outcome B) (l : list A) :
  forall ys, map_all f l = Ok ys -> List.length ys = List.length l.
Proof.
  induction l as [|x l IH]; intros ys H; simpl in H.
  - injection H as <-. reflexivity.
  - destruct (f x) as [y|m]; [| discriminate]. cbn [and_then] in H.
    destruct (map_all f l) as [ys'|m]; [| discriminate]. cbn [and_then] in H.
    injection H as <-. simpl. f_equal. now apply IH.
Qed.

(** [map_all] returns the results of [f] in order, or throws what the
    first element on which [f] throws does. *)
Lemma map_all_cases {A B : Type} (f : A -> outcome B) (l : list A) :
  match map_all f l with
  | Ok ys => Forall2 (fun x y => f x = Ok y) l ys
  | Throw msg =>
      exists before x after,
        l = (before ++ x :: after)%list
        /\ f x = Throw msg
        /\ Forall (fun x' => exists y, f x' = Ok y) before
  end.
Proof.
  induction l as [|x l IH]; simpl; [constructor |].
  destruct (f x) as [y|m] eqn:Hx; cbn [and_then].
  - destruct (map_all f l) as [ys|m]; cbn [and_then].
    + constructor; assumption.
    + destruct IH as (before & x' & after & -> & Hthrow & Hbefore).
      exists (x :: before), x', after.
      split; [reflexivity |]. split; [exact Hthrow |].
      constructor; [now exists y | exact Hbefore].
  - exists [], x, l. repeat split; [exact Hx | constructor].
Qed.

(** C10. When the [logs] of the body is absent, null or anything but an
    array (also when the body itself is null or undefined), [mapLogs]
    returns no record and does not throw. Otherwise it returns one record
    per element, unless the conversion of a [createdAt] throws, which is
    the one way it can throw. In a record, a field whose source is absent
    (or null) at any step of its path is null, and so is the date; a
    record without [createdAt] never makes the mapping throw. A campaign
    whose body has no [logs] array completes without a campaign-level
    error: no insert is requested, the flag is returned as it was, and
    [status] is unchanged. *)
Theorem C10_mapper_tolerates_missing_data :
  (forall root, (forall items, opt_get root "logs" <> VArr items) ->
     mapLogs host root = Ok [])
  /\ (mapLogs host VUndef = Ok [] /\ mapLogs host VNull = Ok []
      /\ mapLogs host (VObj []) = Ok []
      /\ mapLogs host (VObj [("logs", VNull)]) = Ok []
      /\ mapLogs host (VObj [("logs", VStr "none")]) = Ok []
      /\ mapLogs host (VObj [("logs", VObj [("0", VObj [])])]) = Ok [])
  /\ (forall root,
        match mapLogs host root with
        | Ok records =>
            Forall2 (fun l m => mapLog host l = Ok m)
              (array_or_empty (opt_get root "logs")) records
            /\ List.length records
               = List.length (array_or_empty (opt_get root "logs"))
        | Throw msg =>
            exists before l after,
              array_or_empty (opt_get root "logs") = (before ++ l :: after)%list
              /\ toSqlDateTime host (opt_get l "createdAt") = Throw msg
              /\ nullish (opt_get l "createdAt") = false
        end)
  /\ (forall l,
        match toSqlDateTime host (opt_get l "createdAt") with
        | Ok createdAt =>
            exists m, mapLog host l = Ok m /\ m_createdAt m = createdAt
        | Throw msg => mapLog host l = Throw msg
        end)
  /\ (forall l m,
        mapLog host l = Ok m ->
        let rawContact := opt_get l "rawContact" in
        let blocks := opt_get rawContact "blocks" in
        let template := opt_get (opt_first blocks) "template" in
        let contact := opt_get rawContact "contact" in
        (nullish (opt_get l "status") = true -> m_status m = VNull)
        /\ (nullish (opt_get l "destino") = true -> m_destino m = VNull)
        /\ (nullish (opt_get l "campanha") = true -> m_id m = VNull)
        /\ (nullish (opt_get l "departamento") = true -> m_departamento m = VNull)
        /\ (nullish rawContact = true ->
            m_template_name m = VNull /\ m_contact_name m = VNull)
        /\ (nullish blocks = true -> m_template_name m = VNull)
        /\ (nullish (opt_first blocks) = true -> m_template_name m = VNull)
        /\ (nullish template = true -> m_template_name m = VNull)
        /\ (nullish (opt_get template "name") = true -> m_template_name m = VNull)
        /\ (nullish contact = true -> m_contact_name m = VNull)
        /\ (nullish (opt_get contact "name") = true -> m_contact_name m = VNull))
  /\ (forall l, nullish (opt_get l "createdAt") = true ->
        exists m, mapLog host l = Ok m /\ m_createdAt m = None)
  /\ (mapLog host (VObj []) = Ok null_record /\ mapLog host VNull = Ok null_record
      /\ mapLog host (VStr "text") = Ok null_record)
  /\ (forall id text b w root,
        truthy id = true ->
        ToString host id = Ok text ->
        fetch_logs env (List.length (io w)) id = Ok root ->
        (forall items, opt_get root "logs" <> VArr items) ->
        campaign_try host env id b w = (Ok b, request (FetchLogs id) w)
        /\ campaign_fails host env (VObj [("id", id)]) w = false).
Proof.
  assert (Hempty : forall root, (forall items, opt_get root "logs" <> VArr items) ->
                     mapLogs host root = Ok []).
  { intros root Hno. unfold mapLogs.
    destruct (opt_get root "logs") eqn:Hl; try reflexivity.
    exfalso. exact (Hno _ eq_refl). }
  assert (Hdate : forall l, nullish (opt_get l "createdAt") = true ->
                    toSqlDateTime host (opt_get l "createdAt") = Ok None).
  { intros l H. unfold toSqlDateTime. now rewrite (nullish_not_truthy _ H). }
  split; [exact Hempty |].
  split; [repeat split |].
  split.
  { intros root. unfold mapLogs.
    pose proof (map_all_cases (mapLog host) (array_or_empty (opt_get root "logs"))) as Hc.
    destruct (map_all (mapLog host) (array_or_empty (opt_get root "logs")))
      as [records|msg] eqn:Hm.
    - split; [exact Hc | now apply (map_all_length (mapLog host))].
    - destruct Hc as (before & l & after & Hl & Hthrow & _).
      exists before, l, after. split; [exact Hl |].
      unfold mapLog in Hthrow.
      destruct (toSqlDateTime host (opt_get l "createdAt")) as [d|m] eqn:Hd;
        [discriminate |].
      cbn [and_then] in Hthrow. injection Hthrow as ->. split; [reflexivity |].
      destruct (nullish (opt_get l "createdAt")) eqn:Hn; [| reflexivity].
      rewrite (Hdate l Hn) in Hd. discriminate. }
  split.
  { intros l. unfold mapLog.
    destruct (toSqlDateTime host (opt_get l "createdAt")) as [d|m]; cbn [and_then].
    - eexists. split; reflexivity.
    - reflexivity. }
  split.
  { intros l m Hm rawContact blocks template contact.
    subst rawContact blocks template contact.
    unfold mapLog in Hm.
    destruct (toSqlDateTime host (opt_get l "createdAt")) as [d|m0]; [| discriminate].
    cbn [and_then] in Hm. injection Hm as <-.
    cbn [m_status m_destino m_id m_departamento m_template_name m_contact_name].
    repeat match goal with |- _ /\ _ => split end; intros H;
      try (split);
      repeat first
        [ rewrite H
        | rewrite (nullish_opt_get _ _ H)
        | rewrite (nullish_opt_first _ H)
        | rewrite (coalesce_nullish _ H)
        | progress simpl
        | reflexivity ]. }
  split.
  { intros l H. unfold mapLog. rewrite (Hdate l H). cbn [and_then].
    eexists. split; reflexivity. }
  split; [repeat split |].
  intros id text b w root Hid Htext Hfetch Hno.
  split.
  - unfold campaign_try, fetchLogsForCampaign, try_catch, bind, lift.
    rewrite Hid, Htext. simpl. rewrite Hfetch, (Hempty root Hno). simpl.
    unfold modify, request. simpl. now rewrite logsInserted_unchanged.
  - unfold campaign_fails, campaign_attempt.
    change (opt_get (VObj [("id", id)]) "id") with id.
    rewrite Hid, Htext. cbn [negb and_then]. rewrite Hfetch. cbn [and_then].
    now rewrite (Hempty root Hno).
Qed.

End RunClaims.

Lemma C1_empty_run_ends_at_zero_witness :
  running (status initial_world) = false
  /\ exists wf,
       runOnce utc_host empty_env initial_world = (Ok tt, wf)
       /\ campaignsTotal (status wf) = 0
       /\ progressPercent (status wf) = 0.
Proof.
  split; [reflexivity |].
  destruct (C1_empty_run_ends_at_zero utc_host empty_env initial_world
              (snd (load_campaigns empty_env (after_reset empty_env initial_world))))
    as (wf & Hrun & Htot & _ & Hpct & _).
  - reflexivity.
  - vm_compute. reflexivity.
  - exists wf. repeat split; assumption.
Defined.

Lemma C2_overlapping_run_is_skipped_witness :
  running (status busy_world) = true
  /\ exists w',
       runOnce utc_host scenario_env busy_world = (Ok tt, w')
       /\ io w' = io busy_world.
Proof.
  split; [reflexivity |].
  destruct (C2_overlapping_run_is_skipped utc_host scenario_env busy_world eq_refl)
    as (w' & Hrun & H).
  exists w'. split; [exact Hrun |]. apply H.
Defined.

(** C6 as worded fails on the second of two runs: the first run inserted a
    record of 2024-06-01T07:00:00; the only record the second run inserts
    is of 2024-01-01T07:00:00; after the second run [lastLogCreatedAt] is
    still the date from the first. *)
Lemma C6_value_is_carried_over :
  running (status first_run_world) = false
  /\ (exists row,
        inserted_rows two_runs_env (io second_run_world)
        = (inserted_rows two_runs_env (io first_run_world) ++ [row])%list
        /\ r_created_at row = Some (ValidDate 1704092400000))
  /\ lastLogCreatedAt (status second_run_world) = Some 1717225200000
  /\ lastLogCreatedAt (status second_run_world) <> Some 1704092400000.
Proof.
  split; [vm_compute; reflexivity |].
  split.
  - eexists. split; vm_compute; reflexivity.
  - split; [vm_compute; reflexivity | vm_compute; discriminate].
Qed.

Lemma C6_last_log_created_at_is_a_high_water_mark_witness :
  running (status first_run_world) = false
  /\ exists wf new,
       runOnce utc_host two_runs_env first_run_world = (Ok tt, wf)
       /\ lastLogCreatedAt (status wf)
          = fold_left advance (created_times new)
              (lastLogCreatedAt (status first_run_world)).
Proof.
  assert (Hr : running (status first_run_world) = false) by (vm_compute; reflexivity).
  split; [exact Hr |].
  destruct (C6_last_log_created_at_is_a_high_water_mark utc_host two_runs_env
              first_run_world Hr)
    as (wf & new & Hrun & _ & Hlast & _).
  exists wf, new. split; assumption.
Defined.


Lemma C4_failed_insert_is_isolated_witness :
  and_then (bind_row utc_host null_record)
    (insert_query rejecting_env (List.length (io initial_world)))
  = Throw "Violation of PRIMARY KEY constraint"
  /\ exists w1,
       insert_one utc_host rejecting_env 0 null_record initial_world = (Ok 0, w1)
       /\ logInsertErrors (status w1) = logInsertErrors (status initial_world) + 1.
Proof.
  split; [reflexivity |].
  destruct (C4_failed_insert_is_isolated utc_host rejecting_env initial_world 0
              null_record [null_record] "Violation of PRIMARY KEY constraint" eq_refl)
    as (w1 & n & w2 & Hone & Herr & _).
  exists w1. split; assumption.
Defined.

Lemma C5_last_success_after_a_run_witness :
  running (status initial_world) = false
  /\ exists wf,
       runOnce utc_host unmappable_env initial_world = (Ok tt, wf)
       /\ running (status wf) = false
       /\ lastSuccessAt (status wf) = None.
Proof.
  split; [reflexivity |].
  destruct (C5_last_success_after_a_run utc_host unmappable_env initial_world eq_refl)
    as (wf & Hrun & Hr & _ & Hsucc).
  exists wf. split; [exact Hrun |]. split; [exact Hr |].
  vm_compute in Hsucc. exact Hsucc.
Defined.

(** ** The end-to-end scenario of the specification

    Three campaigns, the log fetch of the second fails, the other two
    return two logs each and every insert succeeds. *)
Example scenario_outcome :
  let s := status (snd (runOnce utc_host scenario_env initial_world)) in
  campaignsTotal s = 3 /\ campaignsProcessed s = 3
  /\ logsInserted s = 4 /\ logInsertErrors s = 0
  /\ lastError s = Some "Campaign c2 failed: API 500 Internal Server Error"
  /\ lastSuccessAt s = None
  /\ progressPercent s = 100
  /\ progressBar s = "[####################]"
  /\ running s = false.
Proof. vm_compute. repeat split. Qed.

(** One campaign of three logs, the insert of the second rejected: two
    inserted, one error, and the run still counts as a success. *)
Example flaky_insert_outcome :
  let s := status (snd (runOnce utc_host flaky_insert_env initial_world)) in
  logsInserted s = 2 /\ logInsertErrors s = 1
  /\ lastError s = Some "Insert failed: String or binary data would be truncated"
  /\ lastSuccessAt s = lastRunFinishedAt s
  /\ lastSuccessAt s = Some 1704153602000
  /\ lastLogCreatedAt s = Some 1704096000000.
Proof. vm_compute. repeat split. Qed.

(** Without a token the run fails before any request. *)
Example no_token_outcome :
  let w := snd (runOnce utc_host no_token_env initial_world) in
  lastError (status w) = Some "Missing ZAP_API_TOKEN"
  /\ lastSuccessAt (status w) = None
  /\ lastRunFinishedAt (status w) = Some 1704153602000
  /\ running (status w) = false
  /\ io w = [].
Proof. vm_compute. repeat split. Qed.

(** A record whose [createdAt] has no text: the mapping throws, which is a
    failure of the campaign; nothing is inserted and the run is not a
    success. *)
Example unmappable_outcome :
  let w := snd (runOnce utc_host unmappable_env initial_world) in
  lastError (status w)
  = Some "Campaign c1 failed: Cannot convert object to primitive value"
  /\ lastSuccessAt (status w) = None
  /\ campaignsProcessed (status w) = 1
  /\ logsInserted (status w) = 0 /\ logInsertErrors (status w) = 0
  /\ io w = [FetchLogs (VStr "c1"); QueryCampaigns; Connect].
Proof. vm_compute. repeat split. Qed.

(** A record whose [status] has no text: its insert fails before any
    query, which is counted as an insert error; the next record is
    inserted and the run is a success. *)
Example unbindable_outcome :
  let w := snd (runOnce utc_host unbindable_env initial_world) in
  lastError (status w)
  = Some "Insert failed: Cannot convert object to primitive value"
  /\ logsInserted (status w) = 1 /\ logInsertErrors (status w) = 1
  /\ lastSuccessAt (status w) = lastRunFinishedAt (status w)
  /\ List.length (io w) = 4%nat
  /\ List.length (inserted_rows unbindable_env (io w)) = 1%nat.
Proof. vm_compute. repeat split. Qed.

(** On the whole numbers up to 100 the percentage is the one the processor
    computes. *)
Lemma percent_of_agrees_with_hardware :
  forallb
    (fun total =>
       forallb
         (fun processed =>
            match Binary64.of_float
                    (Binary64.to_float processed / Binary64.to_float total
                     * Binary64.to_float 100)%float with
            | Some x => Math_round x =? percent_of processed total
            | None => false
            end)
         (upto (S (Z.to_nat total))))
    (List.map (Z.add 1) (upto 100)) = true.
Proof. vm_compute. reflexivity. Qed.
(** * Further properties of the code *)

(** ** Counting what a run did *)

Section Accounting.

Variable host : Host.
Variable env : Env.

Lemma connects_app (a b : list event) : connects (a ++ b) = (connects a + connects b)%nat.
Proof.
  induction a as [|e a IH]; [reflexivity |].
  destruct e; simpl; rewrite IH; reflexivity.
Qed.

Lemma connects_traffic (batch : list event) :
  forallb log_traffic batch = true -> connects batch = O.
Proof.
  induction batch as [|e batch IH]; [reflexivity |].
  simpl. intros H. apply andb_prop in H. destruct H as [He Hb].
  destruct e; try discriminate; now apply IH.
Qed.

Lemma inserts_are_traffic (rows : list Row) :
  forallb log_traffic (List.map InsertRow rows) = true.
Proof. induction rows as [|r rows IH]; [reflexivity | exact IH]. Qed.

Lemma nil_or_not {A : Type} (l : list A) : l = [] \/ l <> [].
Proof. destruct l; [now left | right; discriminate]. Qed.

Lemma bound_rows_length (items : list MappedLog) :
  (List.length (bound_rows host items) <= List.length items)%nat.
Proof.
  induction items as [|item rest IH]; [simpl; lia |].
  rewrite (bound_rows_cons host). rewrite length_app.
  destruct (bind_row host item); simpl; lia.
Qed.

Lemma unsent_inserts (rows : list Row) (trace : list event) :
  unsent host env (List.map InsertRow rows ++ trace) = unsent host env trace.
Proof.
  induction rows as [|r rows IH]; [reflexivity |].
  simpl. rewrite IH. lia.
Qed.

Lemma error_rows_quiet (e : event) (trace : list event) :
  (forall row, e <> InsertRow row) ->
  error_rows env (e :: trace) = error_rows env trace.
Proof.
  intros H. simpl. destruct e; simpl; try apply app_nil_r.
  exfalso. exact (H row eq_refl).
Qed.

(** What one iteration of [insertLogs] adds to the errors: the row it
    sent, if the insert is counted as an error, and the record itself, if
    it was not sent. *)
Lemma insert_one_accounts (inserted : Z) (item : MappedLog) (w : World) :
  let errs := match bind_row host item with
              | Ok row => error_row env (List.length (io w)) (InsertRow row)
              | Throw _ => []
              end in
  let kept := match bind_row host item with
              | Ok _ => O
              | Throw _ => 1%nat
              end in
  exists inserted' w',
    insert_one host env inserted item w = (Ok inserted', w')
    /\ error_rows env (io w') = (error_rows env (io w) ++ errs)%list
    /\ logInsertErrors (status w')
       = logInsertErrors (status w) + Z.of_nat (List.length errs + kept)
    /\ (errs = [] -> kept = O ->
        lastError (status w') = lastError (status w)
        /\ lastErrorAt (status w') = lastErrorAt (status w)
        /\ ticks w' = ticks w)
    /\ (errs <> [] \/ kept <> O ->
        exists m, lastError (status w') = Some ("Insert failed: " ++ m)).
Proof.
  unfold error_row, insert_one, insertLog, try_catch, bind, lift.
  assert (Hbind : match bind_row host item with
                  | Ok row => r_created_at row = m_createdAt item
                  | Throw _ => True
                  end).
  { unfold bind_row.
    destruct (clampStr host (m_id item) 255); [| exact I].
    destruct (clampStr host (m_status item) 30); [| exact I].
    destruct (clampStr host (m_destino item) 30); [| exact I].
    destruct (clampStr host (m_departamento item) 255); [| exact I].
    destruct (clampStr host (m_template_name item) 100); [| exact I].
    destruct (clampStr host (m_contact_name item) 255); [| exact I].
    reflexivity. }
  destruct (bind_row host item) as [row|msg0].
  - rewrite Hbind.
    destruct (insert_query env (List.length (io w)) row) as [[]|msg] eqn:Hq.
    + unfold note_created.
      destruct (m_createdAt item) as [[t|]|] eqn:Hd.
      * unfold bind, toISOString, ret, get_status. simpl.
        destruct (lastLogCreatedAt (status w)) as [p|]; simpl;
          [destruct (t >? p); simpl |];
          (do 2 eexists; split; [reflexivity |]; simpl; rewrite ?Hq, ?Hbind, ?Hd;
           rewrite ?app_nil_r;
           repeat split; try lia;
           intros [H | H]; now contradiction H).
      * do 2 eexists. split; [reflexivity |]. simpl. rewrite ?Hq, ?Hbind, ?Hd.
        repeat split; try discriminate. intros _. eexists. reflexivity.
      * do 2 eexists. split; [reflexivity |]. simpl. rewrite ?Hq, ?Hbind, ?Hd.
        rewrite ?app_nil_r.
        repeat split; try lia. intros [H | H]; now contradiction H.
    + do 2 eexists. split; [reflexivity |]. simpl. rewrite ?Hq.
      repeat split; try discriminate. intros _. eexists. reflexivity.
  - do 2 eexists. split; [reflexivity |]. simpl. rewrite ?app_nil_r.
    repeat split; try discriminate. intros _. eexists. reflexivity.
Qed.

Lemma insertLogs_from_accounts (items : list MappedLog) :
  forall (inserted : Z) (w : World),
  exists n w' errs,
    insertLogs_from host env inserted items w = (Ok n, w')
    /\ error_rows env (io w') = (error_rows env (io w) ++ errs)%list
    /\ logInsertErrors (status w')
       = logInsertErrors (status w)
         + Z.of_nat (List.length errs
                     + (List.length items - List.length (bound_rows host items)))
    /\ (errs = [] -> List.length (bound_rows host items) = List.length items ->
        lastError (status w') = lastError (status w)
        /\ lastErrorAt (status w') = lastErrorAt (status w)
        /\ ticks w' = ticks w)
    /\ (errs <> [] \/ List.length (bound_rows host items) <> List.length items ->
        exists m, lastError (status w') = Some m).
Proof.
  induction items as [|item rest IH]; intros inserted w.
  - exists inserted, w, []. simpl. split; [reflexivity |].
    rewrite app_nil_r. repeat split; try lia. intros [H | H]; now contradiction H.
  - destruct (insert_one_accounts inserted item w)
      as (k1 & w1 & Hone & Hrows1 & Herr & Hquiet & Hloud).
    destruct (IH k1 w1) as (n & w2 & errs2 & Hrun & Hrows & Herr2 & Hquiet2 & Hloud2).
    pose proof (bound_rows_length rest) as Hle.
    rewrite (bound_rows_cons host).
    set (errs1 := match bind_row host item with
                  | Ok row => error_row env (List.length (io w)) (InsertRow row)
                  | Throw _ => []
                  end) in *.
    set (kept := match bind_row host item with
                 | Ok _ => O
                 | Throw _ => 1%nat
                 end) in *.
    assert (Hlen : (List.length (match bind_row host item with
                                 | Ok row => [row]
                                 | Throw _ => []
                                 end ++ bound_rows host rest)
                    + kept = S (List.length (bound_rows host rest)))%nat).
    { subst kept. rewrite length_app. destruct (bind_row host item); simpl; lia. }
    exists n, w2, (errs1 ++ errs2)%list.
    split; [simpl; unfold bind; rewrite Hone; exact Hrun |].
    split; [rewrite Hrows, Hrows1; now rewrite app_assoc |].
    split; [rewrite Herr2, Herr, length_app; simpl List.length; lia |].
    split.
    + intros Hnil Hall. apply app_eq_nil in Hnil. destruct Hnil as [H1 H2].
      simpl List.length in Hall.
      assert (Hk : kept = O) by lia.
      assert (Hall2 : List.length (bound_rows host rest) = List.length rest) by lia.
      destruct (Hquiet H1 Hk) as (A & B & C).
      destruct (Hquiet2 H2 Hall2) as (A2 & B2 & C2).
      repeat split; congruence.
    + intros Hne. simpl List.length in Hne.
      destruct (nil_or_not errs2) as [E2 | E2].
      * destruct (Nat.eq_dec (List.length (bound_rows host rest)) (List.length rest))
          as [Hall2 | Hall2].
        -- destruct (Hquiet2 E2 Hall2) as (A2 & _). rewrite A2.
           subst errs2. rewrite app_nil_r in Hne.
           assert (Hfirst : errs1 <> [] \/ kept <> O).
           { destruct Hne as [H | H]; [now left | right; lia]. }
           destruct (Hloud Hfirst) as (m & Hm). eexists. exact Hm.
        -- apply Hloud2. now right.
      * apply Hloud2. now left.
Qed.

Lemma campaign_try_accounts (id : value) (text : string) (runHadError : bool) (w : World) :
  ToString host id = Ok text ->
  let fails := if truthy id
               then match and_then (fetch_logs env (List.length (io w)) id)
                            (mapLogs host) with
                    | Throw _ => true
                    | Ok _ => false
                    end
               else true in
  exists b' w' errs kept batch,
    campaign_try host env id runHadError w = (Ok b', w')
    /\ io w' = (batch ++ io w)%list
    /\ forallb log_traffic batch = true
    /\ error_rows env (io w') = (error_rows env (io w) ++ errs)%list
    /\ unsent host env (io w') = (unsent host env (io w) + kept)%nat
    /\ logInsertErrors (status w')
       = logInsertErrors (status w) + Z.of_nat (List.length errs + kept)
    /\ (fails = false -> errs = [] -> kept = O ->
        lastError (status w') = lastError (status w)
        /\ lastErrorAt (status w') = lastErrorAt (status w)
        /\ ticks w' = ticks w)
    /\ (fails = true \/ errs <> [] \/ kept <> O ->
        exists m, lastError (status w') = Some m).
Proof.
  intros Htext.
  unfold campaign_try, fetchLogsForCampaign, try_catch, bind, lift.
  rewrite Htext.
  destruct (truthy id) eqn:Hid; simpl.
  - destruct (fetch_logs env (List.length (io w)) id) as [root|msg] eqn:Hfetch;
      cbn [and_then].
    + destruct (mapLogs host root) as [items|msg] eqn:Hmap.
      * destruct (insertLogs_from_accounts items 0 (request (FetchLogs id) w))
          as (n & w1 & errs & Hrun & Hrows & Herr & Hquiet & Hloud).
        destruct (insertLogs_from_run host env items 0 (request (FetchLogs id) w))
          as (n' & w1' & Hrun' & Hio & _).
        rewrite Hrun in Hrun'. injection Hrun' as <- <-.
        pose proof (bound_rows_length items) as Hle.
        unfold insertLogs. rewrite Hrun. simpl.
        exists runHadError. eexists.
        exists errs, (List.length items - List.length (bound_rows host items))%nat.
        exists (rev (List.map InsertRow (bound_rows host items)) ++ [FetchLogs id])%list.
        split; [reflexivity |]. simpl.
        split; [rewrite Hio; simpl; now rewrite <- app_assoc |].
        split.
        { rewrite forallb_app. simpl. rewrite andb_true_r.
          rewrite <- map_rev. apply inserts_are_traffic. }
        split; [rewrite Hrows; simpl; now rewrite app_nil_r |].
        split.
        { rewrite Hio, <- map_rev, unsent_inserts.
          cbn [unsent unsent_of request io].
          rewrite Hfetch. cbn [and_then]. now rewrite Hmap. }
        split; [exact Herr |].
        split; [intros _ Hnil Hk; apply (Hquiet Hnil); lia |].
        intros [H | [H | H]]; [discriminate | apply Hloud; now left |].
        apply Hloud. right. lia.
      * exists true. eexists. exists [], O, [FetchLogs id].
        split; [reflexivity |]. cbn -[mapLogs].
        rewrite !app_nil_r, ?Hfetch. cbn [and_then]. rewrite ?Hmap.
        repeat split; try lia; try discriminate.
        intros _. eexists. reflexivity.
    + exists true. eexists. exists [], O, [FetchLogs id].
      split; [reflexivity |]. cbn -[mapLogs].
      rewrite !app_nil_r, ?Hfetch. cbn [and_then].
      repeat split; try lia; try discriminate.
      intros _. eexists. reflexivity.
  - exists true. eexists. exists [], O, [].
    split; [reflexivity |]. simpl. rewrite !app_nil_r.
    repeat split; try lia; try discriminate.
    intros _. eexists. reflexivity.
Qed.

Lemma campaign_iteration_accounts (i : Z) (b : bool) (campaign : value) (w : World) :
  0 <= i -> 0 <= campaignsTotal (status w) ->
  id_without_text host campaign = false ->
  exists b' w' errs kept batch,
    campaign_iteration host env i b campaign w = (Ok b', w')
    /\ io w' = (batch ++ io w)%list
    /\ forallb log_traffic batch = true
    /\ error_rows env (io w') = (error_rows env (io w) ++ errs)%list
    /\ unsent host env (io w') = (unsent host env (io w) + kept)%nat
    /\ logInsertErrors (status w')
       = logInsertErrors (status w) + Z.of_nat (List.length errs + kept)
    /\ (campaign_fails host env campaign w = false -> errs = [] -> kept = O ->
        lastError (status w') = lastError (status w)
        /\ lastErrorAt (status w') = lastErrorAt (status w)
        /\ ticks w' = ticks w)
    /\ (campaign_fails host env campaign w = true \/ errs <> [] \/ kept <> O ->
        exists m, lastError (status w') = Some m).
Proof.
  intros Hi Ht Hnt.
  destruct (id_with_text host campaign Hnt) as [text Htext].
  pose proof (campaign_attempt_with_text host env campaign text w Htext) as Hatt.
  unfold campaign_fails. rewrite Hatt. clear Hatt.
  set (id := opt_get campaign "id") in *.
  set (w0 := Build_World (set_currentCampaignId (or_else id VNull) (status w))
               (poolPromise w) (ticks w) (io w) (console w)).
  destruct (campaign_try_accounts id text b w0 Htext)
    as (b' & w1 & errs & kept & batch & Htry & Hio & Htraffic & Hrows & Hkept & Herr
          & Hquiet & Hloud).
  destruct (campaign_try_run host env id text b w0 Htext)
    as (b'' & w1' & Htry' & _ & ((_ & _ & _ & _ & Htot) & _) & _).
  rewrite Htry in Htry'. injection Htry' as <- <-.
  simpl in Htot.
  destruct (progress_update_run host i w1 Hi) as (bar & _ & Hprog).
  { rewrite Htot. exact Ht. }
  exists b'. eexists. exists errs, kept, batch.
  split.
  { unfold campaign_iteration, bind. fold id. unfold modify at 1. fold w0.
    rewrite Htry, Hprog. reflexivity. }
  simpl. simpl in Hio, Hrows, Hkept, Herr, Hquiet, Hloud.
  split; [exact Hio |]. split; [exact Htraffic |]. split; [exact Hrows |].
  split; [exact Hkept |]. split; [exact Herr |].
  split.
  - intros Hf. apply Hquiet. destruct (truthy id); [| discriminate].
    destruct (and_then (fetch_logs env (List.length (io w)) id) (mapLogs host));
      [reflexivity | discriminate].
  - intros Hf. apply Hloud. destruct Hf as [Hf | Hf]; [left | now right].
    destruct (truthy id); [| reflexivity].
    destruct (and_then (fetch_logs env (List.length (io w)) id) (mapLogs host));
      [discriminate | reflexivity].
Qed.

Lemma campaign_loop_accounts (campaigns : list value) :
  forall (i : Z) (b : bool) (w : World),
  0 <= i -> 0 <= campaignsTotal (status w) ->
  exists r w' errs kept batch,
    campaign_loop host env i b campaigns w = (r, w')
    /\ io w' = (batch ++ io w)%list
    /\ forallb log_traffic batch = true
    /\ error_rows env (io w') = (error_rows env (io w) ++ errs)%list
    /\ unsent host env (io w') = (unsent host env (io w) + kept)%nat
    /\ logInsertErrors (status w')
       = logInsertErrors (status w) + Z.of_nat (List.length errs + kept)
    /\ (campaign_errors host env i campaigns w = O -> errs = [] -> kept = O ->
        lastError (status w') = lastError (status w)
        /\ lastErrorAt (status w') = lastErrorAt (status w)
        /\ ticks w' = ticks w)
    /\ (forall b', r = Ok b' ->
        campaign_errors host env i campaigns w <> O \/ errs <> [] \/ kept <> O ->
        exists m, lastError (status w') = Some m).
Proof.
  induction campaigns as [|campaign rest IH]; intros i b w Hi Ht.
  - exists (Ok b), w, [], O, []. simpl. rewrite app_nil_r.
    repeat split; try lia. intros b' _ [H | [H | H]]; now contradiction H.
  - destruct (id_without_text host campaign) eqn:Hnt.
    + destruct (campaign_iteration_throws host env i b campaign w Hnt)
        as (msg & _ & Hrun & Hfails).
      eexists (Throw msg), _, [], O, [].
      split; [simpl; unfold bind; rewrite Hrun; reflexivity |]. simpl.
      rewrite app_nil_r, Hfails.
      repeat split; try lia; try discriminate.
    + destruct (campaign_iteration_accounts i b campaign w Hi Ht Hnt)
        as (b1 & w1 & errs1 & kept1 & batch1 & Hrun & Hio & Htr & Hrows & Hkept & Herr
              & Hquiet & Hloud).
      destruct (campaign_iteration_run host env i b campaign w Hi Ht Hnt)
        as (b1' & w1' & Hrun' & _ & _ & (_ & _ & _ & _ & Htot) & _).
      rewrite Hrun in Hrun'. injection Hrun' as <- <-.
      destruct (IH (i + 1) b1 w1 ltac:(lia) ltac:(lia))
        as (r2 & w2 & errs2 & kept2 & batch2 & Hrun2 & Hio2 & Htr2 & Hrows2 & Hkept2
              & Herr2 & Hquiet2 & Hloud2).
      assert (Hcount : campaign_errors host env i (campaign :: rest) w
                       = ((if campaign_fails host env campaign w then 1 else 0)
                          + campaign_errors host env (i + 1) rest w1)%nat).
      { simpl campaign_errors.
        rewrite (campaign_iteration_flag host env i b campaign w) in Hrun.
        destruct (campaign_iteration host env i false campaign w) as [[b0|m0] w0];
          [| discriminate].
        injection Hrun as _ <-. reflexivity. }
      exists r2, w2, (errs1 ++ errs2)%list, (kept1 + kept2)%nat, (batch2 ++ batch1)%list.
      split; [simpl; unfold bind; rewrite Hrun; exact Hrun2 |].
      split; [rewrite Hio2, Hio; now rewrite app_assoc |].
      split; [rewrite forallb_app, Htr, Htr2; reflexivity |].
      split; [rewrite Hrows2, Hrows; now rewrite app_assoc |].
      split; [rewrite Hkept2, Hkept; lia |].
      split; [rewrite Herr2, Herr, length_app; lia |].
      rewrite Hcount.
      split.
      * intros Hzero Hnil Hk. apply app_eq_nil in Hnil. destruct Hnil as [H1 H2].
        destruct (campaign_fails host env campaign w) eqn:Hf; [discriminate |].
        simpl in Hzero.
        destruct (Hquiet eq_refl H1 ltac:(lia)) as (A & B & C).
        destruct (Hquiet2 Hzero H2 ltac:(lia)) as (A2 & B2 & C2).
        repeat split; congruence.
      * intros b' Hok Hsome.
        destruct (Nat.eq_dec (campaign_errors host env (i + 1) rest w1) O) as [Hc | Hc];
          [destruct (nil_or_not errs2) as [E2 | E2];
             [destruct (Nat.eq_dec kept2 O) as [K2 | K2] | ] |].
        -- destruct (Hquiet2 Hc E2 K2) as (A2 & _). rewrite A2.
           apply Hloud. subst errs2 kept2. rewrite app_nil_r, Hc, Nat.add_0_r in Hsome.
           destruct (campaign_fails host env campaign w); [now left |].
           destruct Hsome as [H | [H | H]];
             [now contradiction H | right; now left | right; right; lia].
        -- apply (Hloud2 b' Hok). right. now right.
        -- apply (Hloud2 b' Hok). right. now left.
        -- apply (Hloud2 b' Hok). now left.
Qed.

(** What loading the list requests: nothing without a token; otherwise the
    connection, the first time only, and then the query if the connection
    stands. *)
Lemma load_campaigns_requests (w : World) :
  exists r w1,
    load_campaigns env w = (r, w1)
    /\ io w1
       = ((if token_missing env then []
           else (match sql_connect env with Ok _ => [QueryCampaigns] | Throw _ => [] end
                 ++ (if poolPromise w then [] else [Connect])))
          ++ io w)%list
    /\ poolPromise w1 = (if token_missing env then poolPromise w else true)
    /\ error_rows env (io w1) = error_rows env (io w)
    /\ unsent host env (io w1) = unsent host env (io w)
    /\ match r with
       | Ok campaigns =>
           token_missing env = false /\ sql_connect env = Ok tt
           /\ query_campaigns env
                (List.length (io w) + (if poolPromise w then 0 else 1))%nat
              = Ok campaigns
       | Throw msg =>
           (token_missing env = true /\ msg = "Missing ZAP_API_TOKEN")
           \/ (token_missing env = false /\ sql_connect env = Throw msg)
           \/ (token_missing env = false /\ sql_connect env = Ok tt
               /\ query_campaigns env
                    (List.length (io w) + (if poolPromise w then 0 else 1))%nat
                  = Throw msg)
       end.
Proof.
  unfold load_campaigns, bind.
  destruct (token_missing env).
  - do 2 eexists. split; [reflexivity |]. simpl. repeat split. now left.
  - simpl. unfold getPool.
    destruct (poolPromise w) eqn:Hp; destruct (sql_connect env) as [[]|msg]; simpl;
      rewrite ?Nat.add_0_r;
      replace (List.length (io w) + 1)%nat with (S (List.length (io w))) by lia;
      try (match goal with
           | |- context [query_campaigns env ?n] =>
               destruct (query_campaigns env n) as [campaigns|msg] eqn:Hq
           end; simpl);
      do 2 eexists; (split; [reflexivity |]); simpl; rewrite ?app_nil_r;
      repeat split; try assumption; try lia;
      try (right; right; repeat split; assumption);
      try (right; left; repeat split; reflexivity).
Qed.

(** How a run that is not skipped ends. *)
Lemma full_run_cases (w : World) :
  match load_campaigns env (after_reset env w) with
  | (Ok campaigns, w1) =>
      exists r w2,
        campaign_loop host env 0 false campaigns w1 = (r, w2)
        /\ full_run host env w
           = match r with
             | Ok b => completed env b w2
             | Throw msg => aborted env msg w2
             end
  | (Throw msg, w1) => full_run host env w = aborted env msg w1
  end.
Proof.
  unfold full_run.
  destruct (load_campaigns env (after_reset env w)) as [[campaigns|msg] w1] eqn:Hload.
  - destruct (campaign_loop host env 0 false campaigns w1) as [[b|msg] w2] eqn:Hloop.
    + exists (Ok b), w2. split; [reflexivity |].
      now rewrite (run_completes host env _ w1 w2 campaigns b Hload Hloop).
    + exists (Throw msg), w2. split; [reflexivity |].
      now rewrite (run_breaks host env _ w1 w2 campaigns msg Hload Hloop).
  - now rewrite (run_aborts host env _ w1 msg Hload).
Qed.

(** A run that is not skipped is [full_run], and ends not running. *)
Lemma runOnce_full (w : World) :
  running (status w) = false ->
  runOnce host env w = (Ok tt, full_run host env w)
  /\ running (status (full_run host env w)) = false.
Proof.
  intros Hr. rewrite (runOnce_starts host env w Hr). unfold full_run.
  destruct (load_campaigns env (after_reset env w)) as [[campaigns|msg] w1] eqn:Hload.
  - destruct (campaign_loop host env 0 false campaigns w1) as [[b|msg] w2] eqn:Hloop.
    + rewrite (run_completes host env _ w1 w2 campaigns b Hload Hloop).
      split; [reflexivity |]. unfold completed. destruct b; reflexivity.
    + rewrite (run_breaks host env _ w1 w2 campaigns msg Hload Hloop).
      split; reflexivity.
  - rewrite (run_aborts host env _ w1 msg Hload). split; reflexivity.
Qed.

End Accounting.

(** ** Progress *)

Lemma percent_of_mono (p p' t : Z) :
  0 <= p <= p' -> 0 <= t -> percent_of p t <= percent_of p' t.
Proof.
  intros [Hp Hpp] Ht. unfold percent_of.
  destruct (Z.eqb_spec t 0); [lia |].
  assert (Ht' : (0 < inject_Z t)%Q)
    by (change 0%Q with (inject_Z 0); rewrite <- Zlt_Qlt; lia).
  assert (Hinv : (0 <= / inject_Z t)%Q) by (apply Qinv_le_0_compat, Qlt_le_weak, Ht').
  assert (Hp0 : (0 <= inject_Z p)%Q)
    by (change 0%Q with (inject_Z 0); now rewrite <- Zle_Qle).
  apply Math_round_mono. unfold Binary64.mul, Binary64.div.
  apply Binary64Facts.round_mono.
  - apply Qmult_le_0_compat; [| discriminate].
    apply Binary64Facts.round_nonneg. now apply Qmult_le_0_compat.
  - apply Qmult_le_compat_r; [| discriminate].
    apply Binary64Facts.round_mono; [now apply Qmult_le_0_compat |].
    apply Qmult_le_compat_r; [now rewrite <- Zle_Qle | exact Hinv].
Qed.

Lemma bar_filled_mono (p q : Q) (size : Z) :
  (0 <= p)%Q -> (p <= q)%Q -> 0 <= size -> bar_filled p size <= bar_filled q size.
Proof.
  intros Hp Hpq Hs. unfold bar_filled.
  assert (Hs' : (0 <= inject_Z size)%Q)
    by (change 0%Q with (inject_Z 0); now rewrite <- Zle_Qle).
  apply Math_round_mono. unfold Binary64.mul, Binary64.div.
  apply Binary64Facts.round_mono.
  - apply Qmult_le_0_compat; [| exact Hs'].
    apply Binary64Facts.round_nonneg. apply Qmult_le_0_compat; [exact Hp | discriminate].
  - apply Qmult_le_compat_r; [| exact Hs'].
    apply Binary64Facts.round_mono.
    + apply Qmult_le_0_compat; [exact Hp | discriminate].
    + apply Qmult_le_compat_r; [exact Hpq | discriminate].
Qed.

Lemma length_append (a b : string) :
  String.length (a ++ b) = (String.length a + String.length b)%nat.
Proof. induction a as [|c a IH]; simpl; [reflexivity | now rewrite IH]. Qed.

Lemma length_repeat_nat (s : string) (n : nat) :
  String.length (repeat_nat s n) = (n * String.length s)%nat.
Proof.
  induction n as [|n IH]; simpl; [reflexivity |]. now rewrite length_append, IH.
Qed.

(** X11. For every finite percentage that is not negative and every whole
    width that is not negative, as long as the bar is no longer than every
    engine builds ([safe_string_length] characters), [buildProgressBar]
    returns a bar; an omitted width and a width of 0 are both 20 cells.
    The bar holds the rounded
    [percent / 100 * size] filled cells and pads with empty cells up to
    [size], so it is [size + 2] characters long, except that a percentage
    above 100 is not clamped: the filled cells then exceed the width and
    the bar is longer. More percent never gives fewer filled cells. *)
Theorem X11_bar_for_any_percentage (percent : Q) (width : option Z) :
  (0 <= percent)%Q -> 0 <= bar_size width ->
  2 + Z.max (bar_size width) (bar_filled percent (bar_size width)) <= safe_string_length ->
  let size := bar_size width in
  let filled := bar_filled percent size in
  buildProgressBar percent width
  = Ok ("[" ++ repeat_nat "#" (Z.to_nat filled)
            ++ repeat_nat "-" (Z.to_nat (Z.max (size - filled) 0)) ++ "]")
  /\ 0 <= filled
  /\ (forall bar, buildProgressBar percent width = Ok bar ->
        Z.of_nat (String.length bar) = 2 + Z.max size filled)
  /\ ((percent <= 100)%Q -> Binary64.round (inject_Z size) = inject_Z size ->
      filled <= size)
  /\ bar_size None = 20 /\ bar_size (Some 0) = 20
  /\ (forall more, (percent <= more)%Q -> filled <= bar_filled more size).
Proof.
  intros Hp Hs _ size filled.
  assert (Hfilled : 0 <= filled).
  { unfold filled, bar_filled. apply Math_round_nonneg.
    apply Binary64Facts.mul_nonneg.
    - apply Binary64Facts.div_nonneg; [exact Hp | discriminate].
    - change 0%Q with (inject_Z 0). now rewrite <- Zle_Qle. }
  assert (Hbar : buildProgressBar percent width
                 = Ok ("[" ++ repeat_nat "#" (Z.to_nat filled)
                           ++ repeat_nat "-" (Z.to_nat (Z.max (size - filled) 0)) ++ "]")).
  { unfold buildProgressBar. fold size. fold filled.
    rewrite !String_repeat_ok by lia. reflexivity. }
  split; [exact Hbar |]. split; [exact Hfilled |].
  split.
  { intros bar Hb. rewrite Hbar in Hb. injection Hb as <-.
    cbn [String.length append]. rewrite !length_append, !length_repeat_nat.
    cbn [String.length]. lia. }
  split.
  { intros Hhi Hfix. unfold filled, bar_filled.
    apply (scaled_ratio_le percent 100 size); try assumption; reflexivity. }
  split; [reflexivity |]. split; [reflexivity |].
  intros more Hmore. now apply bar_filled_mono.
Qed.

Lemma X11_bar_for_any_percentage_witness :
  (0 <= 150)%Q /\ 0 <= bar_size (Some 10)
  /\ 2 + Z.max (bar_size (Some 10)) (bar_filled 150 (bar_size (Some 10)))
     <= safe_string_length
  /\ buildProgressBar 150 (Some 10) = Ok "[###############]".
Proof.
  split; [discriminate |]. split; [discriminate |].
  split; [vm_compute; discriminate |].
  destruct (X11_bar_for_any_percentage 150 (Some 10)) as (Hbar & _).
  - discriminate.
  - discriminate.
  - vm_compute. discriminate.
  - rewrite Hbar. vm_compute. reflexivity.
Defined.


(** ** Runs and the scheduler *)

Section RunExtras.

Variable host : Host.
Variable env : Env.

(** X1. In the scheduler's chain every turn is a full run: [runOnce] never
    rejects, so the next turn is always scheduled, and each turn finds
    [running] false, so the single-flight guard never skips one. *)
Theorem X1_scheduler_chain_never_skips (n : nat) (w : World) :
  running (status w) = false ->
  runLoop host env n w = (Ok tt, Nat.iter n (full_run host env) w)
  /\ running (status (Nat.iter n (full_run host env) w)) = false.
Proof.
  revert w. induction n as [|n IH]; intros w Hr.
  - split; [reflexivity | exact Hr].
  - destruct (runOnce_full host env w Hr) as [Hrun Hr'].
    destruct (IH (full_run host env w) Hr') as [Hloop Hend].
    rewrite Nat.iter_succ_r. split; [| exact Hend].
    simpl. unfold bind. rewrite Hrun. exact Hloop.
Qed.

(** The pool is requested at most once, whatever the runs do. *)
Lemma full_run_pool (w : World) :
  connects (io w) = (if poolPromise w then 1 else 0)%nat ->
  connects (io (full_run host env w))
  = (if poolPromise (full_run host env w) then 1 else 0)%nat
  /\ (poolPromise w = true -> poolPromise (full_run host env w) = true).
Proof.
  intros Hinv.
  destruct (reset_run_run env w) as (_ & Hs0 & Hp0 & _ & Hio0 & _).
  destruct (load_campaigns_requests host env (after_reset env w))
    as (r & w1 & Hload & Hio1 & Hp1 & _ & _ & _).
  rewrite Hp0, Hio0 in *.
  assert (Hinv1 : connects (io w1) = (if poolPromise w1 then 1 else 0)%nat
                  /\ (poolPromise w = true -> poolPromise w1 = true)).
  { rewrite Hio1, Hp1, connects_app, Hinv.
    destruct (token_missing env); [split; [reflexivity | tauto] |].
    destruct (poolPromise w); destruct (sql_connect env) as [[]|m];
      split; reflexivity. }
  destruct Hinv1 as [Hinv1 Hkeep].
  pose proof (full_run_cases host env w) as Hcases. rewrite Hload in Hcases.
  destruct r as [campaigns|msg].
  - destruct Hcases as (r & w2 & Hloop & ->).
    assert (Htot : 0 <= campaignsTotal (status w1)).
    { destruct (loop_entry env w w1 campaigns Hload) as (-> & _). lia. }
    destruct (campaign_loop_accounts host env campaigns 0 false w1 ltac:(lia) Htot)
      as (r' & w2' & errs & kept & batch & Hloop' & Hio2 & Htr & _).
    destruct (campaign_loop_run host env campaigns 0 false w1 ltac:(lia) Htot)
      as (r'' & w2'' & Hloop'' & Hp2 & _).
    rewrite Hloop in Hloop', Hloop''.
    injection Hloop' as <- <-. injection Hloop'' as <- <-.
    assert (Hend : io (match r with
                       | Ok b => completed env b w2
                       | Throw msg => aborted env msg w2
                       end) = io w2
                   /\ poolPromise (match r with
                                   | Ok b => completed env b w2
                                   | Throw msg => aborted env msg w2
                                   end) = poolPromise w2)
      by (destruct r; split; reflexivity).
    destruct Hend as (-> & ->).
    rewrite Hio2, connects_app, (connects_traffic batch Htr), Hp2.
    split; [exact Hinv1 | intros H; now apply Hkeep].
  - rewrite Hcases. simpl. split; [exact Hinv1 | exact Hkeep].
Qed.

(** X2. [sql.connect] is called at most once in the life of the process:
    starting with no pool, after any number of turns of the scheduler the
    trace holds one connection request if the pool promise exists and none
    otherwise; and once the promise exists it stays. *)
Theorem X2_connection_is_requested_once (n : nat) (w : World) :
  poolPromise w = false -> connects (io w) = O ->
  let w' := Nat.iter n (full_run host env) w in
  (connects (io w') <= 1)%nat
  /\ connects (io w') = (if poolPromise w' then 1 else 0)%nat
  /\ (forall k, (k <= n)%nat ->
        poolPromise (Nat.iter k (full_run host env) w) = true ->
        poolPromise w' = true).
Proof.
  intros Hp Hc.
  assert (Hinv : forall k,
            connects (io (Nat.iter k (full_run host env) w))
            = (if poolPromise (Nat.iter k (full_run host env) w) then 1 else 0)%nat).
  { induction k as [|k IH]; [simpl; now rewrite Hp, Hc |].
    simpl. now apply full_run_pool. }
  assert (Hstay : forall k j,
            poolPromise (Nat.iter k (full_run host env) w) = true ->
            poolPromise (Nat.iter (j + k) (full_run host env) w) = true).
  { intros k j Hk. induction j as [|j IH]; [exact Hk |].
    simpl. apply full_run_pool; [apply Hinv | exact IH]. }
  intros w'. subst w'. split; [| split].
  - rewrite Hinv. destruct (poolPromise (Nat.iter n (full_run host env) w)); lia.
  - apply Hinv.
  - intros k Hk Hpk. replace n with ((n - k) + k)%nat by lia. now apply Hstay.
Qed.

(** X3. A rejected connection is never retried: the rejected promise stays
    memoised, so every later run ends with the same error, after at most
    the one connection request, without querying the campaigns, fetching
    a log or inserting a row, and without a success time. *)
Theorem X3_rejected_connection_is_permanent (w : World) (msg : string) :
  running (status w) = false ->
  token_missing env = false ->
  sql_connect env = Throw msg ->
  exists wf,
    runOnce host env w = (Ok tt, wf)
    /\ io wf = ((if poolPromise w then [] else [Connect]) ++ io w)%list
    /\ poolPromise wf = true
    /\ lastError (status wf) = Some msg
    /\ lastSuccessAt (status wf) = lastSuccessAt (status w)
    /\ campaignsTotal (status wf) = 0
    /\ running (status wf) = false
    /\ io (full_run host env wf) = io wf.
Proof.
  intros Hr Htok Hconn.
  assert (Hone : forall v,
            exists w1,
              load_campaigns env (after_reset env v) = (Throw msg, w1)
              /\ full_run host env v = aborted env msg w1
              /\ io w1 = ((if poolPromise v then [] else [Connect]) ++ io v)%list
              /\ poolPromise w1 = true
              /\ status w1 = status (after_reset env v)).
  { intros v.
    destruct (reset_run_run env v) as (_ & _ & Hp0 & _ & Hio0 & _).
    pose proof (full_run_cases host env v) as Hc.
    destruct (load_campaigns_requests host env (after_reset env v))
      as (r & w1 & Hload & Hio1 & Hp1 & _ & _ & Hcase).
    destruct (load_campaigns_run env (after_reset env v)) as (r' & w1' & Hload' & Hst & _).
    rewrite Hload in Hload'. injection Hload' as <- <-.
    rewrite Hload in Hc.
    rewrite Htok, Hconn, Hp0, Hio0 in Hio1. rewrite Htok in Hp1.
    destruct r as [campaigns|m].
    - destruct Hcase as (_ & Habs & _). rewrite Hconn in Habs. discriminate Habs.
    - destruct Hcase as [(Habs & _) | [(_ & Hm) | (_ & Habs & _)]].
      + rewrite Htok in Habs. discriminate Habs.
      + rewrite Hconn in Hm. injection Hm as <-.
        exists w1. repeat split; assumption.
      + rewrite Hconn in Habs. discriminate Habs. }
  destruct (Hone w) as (w1 & Hload & Hfull & Hio & Hp & Hst).
  destruct (runOnce_full host env w Hr) as [Hrun Hend].
  exists (full_run host env w).
  split; [exact Hrun |].
  destruct (Hone (full_run host env w)) as (w1' & _ & Hfull' & Hio' & _).
  rewrite Hfull'. clear Hfull' Hone Hload Hrun Hend.
  rewrite Hfull in *. clear Hfull.
  destruct (reset_run_run env w) as (_ & Hs0 & _).
  rewrite Hs0 in Hst. clear Hs0.
  unfold aborted in *. cbn [status io poolPromise ticks console] in *.
  rewrite Hst. rewrite Hp in Hio'.
  split; [exact Hio |]. split; [exact Hp |]. split; [reflexivity |].
  split; [reflexivity |]. split; [reflexivity |]. split; [reflexivity |].
  exact Hio'.
Qed.

(** X4. Without a token ([undefined] or empty) a run fails before any
    request: the trace and the pool are as before, the error is "Missing
    ZAP_API_TOKEN", the counters stay at the zeros of the reset, and the
    run still records its finish time and clears [running]. *)
Theorem X4_missing_token_aborts_before_any_request (w : World) :
  running (status w) = false ->
  api_token env = None \/ api_token env = Some "" ->
  exists wf,
    runOnce host env w = (Ok tt, wf)
    /\ io wf = io w
    /\ poolPromise wf = poolPromise w
    /\ lastError (status wf) = Some "Missing ZAP_API_TOKEN"
    /\ lastErrorAt (status wf) = Some (clock env (S (ticks w)))
    /\ lastRunFinishedAt (status wf) = Some (clock env (S (S (ticks w))))
    /\ lastSuccessAt (status wf) = lastSuccessAt (status w)
    /\ campaignsTotal (status wf) = 0
    /\ campaignsProcessed (status wf) = 0
    /\ logsInserted (status wf) = 0
    /\ running (status wf) = false.
Proof.
  intros Hr Htok.
  assert (Hmiss : token_missing env = true).
  { unfold token_missing. destruct Htok as [-> | ->]; reflexivity. }
  destruct (runOnce_full host env w Hr) as [Hrun _].
  exists (full_run host env w). split; [exact Hrun |]. clear Hrun.
  destruct (reset_run_run env w) as (_ & Hs0 & Hp0 & Ht0 & Hio0 & _).
  pose proof (full_run_cases host env w) as Hc.
  remember (after_reset env w) as w0 eqn:E. clear E.
  assert (Hload : load_campaigns env w0 = (Throw "Missing ZAP_API_TOKEN", w0)).
  { unfold load_campaigns, bind. rewrite Hmiss. reflexivity. }
  rewrite Hload in Hc. rewrite Hc. clear Hc Hload.
  unfold aborted. cbn [status io poolPromise ticks console].
  rewrite Hs0, Hp0, Ht0, Hio0. simpl. repeat split.
Qed.

(** X5. When the campaign query is rejected the run ends with that error:
    no log is fetched and no row inserted, [campaignsTotal] stays 0 and
    [lastSuccessAt] is as before. *)
Theorem X5_failed_campaign_query_aborts_the_run (w : World) (msg : string) :
  running (status w) = false ->
  token_missing env = false ->
  sql_connect env = Ok tt ->
  query_campaigns env (List.length (io w) + (if poolPromise w then 0 else 1))%nat
  = Throw msg ->
  exists wf,
    runOnce host env w = (Ok tt, wf)
    /\ io wf = (QueryCampaigns :: (if poolPromise w then [] else [Connect]) ++ io w)%list
    /\ lastError (status wf) = Some msg
    /\ lastSuccessAt (status wf) = lastSuccessAt (status w)
    /\ campaignsTotal (status wf) = 0
    /\ campaignsProcessed (status wf) = 0
    /\ currentCampaignId (status wf) = VNull
    /\ running (status wf) = false.
Proof.
  intros Hr Htok Hconn Hq.
  destruct (runOnce_full host env w Hr) as [Hrun _].
  exists (full_run host env w). split; [exact Hrun |].
  destruct (reset_run_run env w) as (_ & Hs0 & Hp0 & _ & Hio0 & _).
  destruct (load_campaigns_requests host env (after_reset env w))
    as (r & w1 & Hload & Hio1 & _ & _ & _ & Hcase).
  destruct (load_campaigns_run env (after_reset env w)) as (r' & w1' & Hload' & Hst & _).
  rewrite Hload in Hload'. injection Hload' as <- <-.
  pose proof (full_run_cases host env w) as Hc. rewrite Hload in Hc.
  rewrite Htok, Hconn, Hp0, Hio0 in Hio1. rewrite Hp0, Hio0 in Hcase.
  clear Hload Hrun.
  destruct r as [campaigns|m].
  - destruct Hcase as (_ & _ & Habs). rewrite Hq in Habs. discriminate Habs.
  - destruct Hcase as [(Habs & _) | [(_ & Habs) | (_ & _ & Hm)]].
    + rewrite Htok in Habs. discriminate Habs.
    + rewrite Hconn in Habs. discriminate Habs.
    + rewrite Hq in Hm. injection Hm as <-.
      rewrite Hc. unfold aborted. cbn [status io poolPromise ticks console].
      rewrite Hst, Hs0. simpl.
      split; [exact Hio1 |]. repeat split.
Qed.

(** X6. A campaign row without a usable id (absent, null, empty, zero) is
    not fetched: its iteration makes no request, sets [currentCampaignId]
    to null, records "Campaign ... failed: Campaign missing id" with the
    text of the id it has, raises the flag of the run and still counts the
    campaign as processed. *)
Theorem X6_campaign_without_id_is_not_fetched
    (i : Z) (b : bool) (campaign : value) (w : World) :
  0 <= i -> 0 <= campaignsTotal (status w) ->
  truthy (opt_get campaign "id") = false ->
  exists w' text,
    campaign_iteration host env i b campaign w = (Ok true, w')
    /\ ToString host (opt_get campaign "id") = Ok text
    /\ io w' = io w
    /\ currentCampaignId (status w') = VNull
    /\ lastError (status w')
       = Some ("Campaign " ++ text ++ " failed: Campaign missing id")
    /\ lastErrorAt (status w') = Some (clock env (ticks w))
    /\ campaignsProcessed (status w') = i + 1
    /\ logsInserted (status w') = logsInserted (status w)
    /\ logInsertErrors (status w') = logInsertErrors (status w).
Proof.
  intros Hi Ht Hid.
  set (id := opt_get campaign "id") in *.
  destruct (ToString_falsy host id Hid) as [text Htext].
  set (w0 := Build_World (set_currentCampaignId (or_else id VNull) (status w))
               (poolPromise w) (ticks w) (io w) (console w)).
  destruct (campaign_try_run host env id text b w0 Htext)
    as (b' & w1 & Htry & _ & ((_ & _ & _ & _ & Htot) & _ & Hcur & _) & _ & _ & Hcase).
  rewrite Hid in Hcase. destruct Hcase as (-> & Hio & He & Hat & Hins & Herr & _).
  simpl in Htot, Hcur, Hio, Hat, Hins, Herr.
  destruct (progress_update_run host i w1 Hi) as (bar & _ & Hprog).
  { rewrite Htot. exact Ht. }
  eexists. exists text. split.
  { unfold campaign_iteration, bind. fold id. unfold modify at 1. fold w0.
    rewrite Htry, Hprog. reflexivity. }
  simpl. split; [exact Htext |]. split; [exact Hio |].
  split; [rewrite Hcur; unfold or_else; now rewrite Hid |].
  repeat split; assumption.
Qed.

(** X7. At the end of a run the counters say what the trace shows:
    [logsInserted] is the number of inserts of this run that were
    accepted; [logInsertErrors] is the number of its inserts that were
    rejected or whose record has an invalid date, plus the number of
    records of this run that were mapped but never sent because a field
    of theirs has no text; [campaignsProcessed] does not exceed
    [campaignsTotal]; and [progressPercent] lies between 0 and 100. *)
Theorem X7_counters_match_the_trace (w : World) :
  running (status w) = false ->
  exists wf new errs kept,
    runOnce host env w = (Ok tt, wf)
    /\ inserted_rows env (io wf) = (inserted_rows env (io w) ++ new)%list
    /\ error_rows env (io wf) = (error_rows env (io w) ++ errs)%list
    /\ unsent host env (io wf) = (unsent host env (io w) + kept)%nat
    /\ logsInserted (status wf) = Z.of_nat (List.length new)
    /\ logInsertErrors (status wf) = Z.of_nat (List.length errs + kept)
    /\ 0 <= campaignsProcessed (status wf) <= campaignsTotal (status wf)
    /\ 0 <= progressPercent (status wf) <= 100.
Proof.
  intros Hr.
  destruct (runOnce_full host env w Hr) as [Hrun _].
  exists (full_run host env w).
  cut (exists new errs kept,
         inserted_rows env (io (full_run host env w))
         = (inserted_rows env (io w) ++ new)%list
         /\ error_rows env (io (full_run host env w))
            = (error_rows env (io w) ++ errs)%list
         /\ unsent host env (io (full_run host env w))
            = (unsent host env (io w) + kept)%nat
         /\ logsInserted (status (full_run host env w)) = Z.of_nat (List.length new)
         /\ logInsertErrors (status (full_run host env w))
            = Z.of_nat (List.length errs + kept)
         /\ 0 <= campaignsProcessed (status (full_run host env w))
            <= campaignsTotal (status (full_run host env w))
         /\ 0 <= progressPercent (status (full_run host env w)) <= 100).
  { intros (new & errs & kept & H). exists new, errs, kept.
    split; [exact Hrun | exact H]. }
  clear Hrun.
  destruct (reset_run_run env w) as (_ & Hs0 & _ & _ & Hio0 & _).
  pose proof (full_run_cases host env w) as Hc.
  destruct (load_campaigns_requests host env (after_reset env w))
    as (r & w1 & Hload & _ & _ & Herows & Hunsent & _).
  destruct (load_campaigns_run env (after_reset env w))
    as (r' & w1' & Hload' & Hst & _ & _ & Hrows & _).
  rewrite Hload in Hload'. injection Hload' as <- <-.
  rewrite Hload in Hc. rewrite Hio0 in Herows, Hrows, Hunsent. rewrite Hs0 in Hst.
  clear Hload Hs0 Hio0.
  destruct r as [campaigns|msg].
  - destruct Hc as (r & w2 & Hloop & ->).
    assert (Htot : campaignsTotal (status w1) = Z.of_nat (List.length campaigns))
      by (rewrite Hst; reflexivity).
    destruct (campaign_loop_run host env campaigns 0 false w1 ltac:(lia) ltac:(lia))
      as (r' & w2' & Hloop' & _ & (_ & _ & _ & _ & Htot2) & _
            & (new & Hnew & Hins & _) & (k & Hk & Hk0 & Hkn & _) & _).
    rewrite Hloop in Hloop'. injection Hloop' as <- <-.
    destruct (campaign_loop_accounts host env campaigns 0 false w1 ltac:(lia) ltac:(lia))
      as (r' & w2' & errs & kept & batch & Hloop' & _ & _ & Herrs & Hkept & Hcount & _).
    rewrite Hloop in Hloop'. injection Hloop' as <- <-.
    exists new, errs, kept.
    assert (Hfields : logsInserted (status w1) = 0 /\ logInsertErrors (status w1) = 0
                      /\ campaignsProcessed (status w1) = 0
                      /\ progressPercent (status w1) = 0)
      by (rewrite Hst; repeat split).
    destruct Hfields as (Hi0 & He0 & Hp0 & Hq0).
    assert (Hend : 0 <= campaignsProcessed (status w2) <= campaignsTotal (status w2)
                   /\ 0 <= progressPercent (status w2) <= 100).
    { destruct k as [|k'].
      - destruct (Hk0 eq_refl) as (Hp & Hq & _).
        rewrite Hp, Hq, Hp0, Hq0, Htot2, Htot. lia.
      - destruct (Hkn ltac:(discriminate)) as (Hp & Hq & _).
        rewrite Hp, Hq, Htot2, Htot. split; [lia |].
        apply percent_of_bounds. lia. }
    assert (Hsame : forall wf,
              wf = match r with
                   | Ok b => completed env b w2
                   | Throw m => aborted env m w2
                   end ->
              io wf = io w2
              /\ logsInserted (status wf) = logsInserted (status w2)
              /\ logInsertErrors (status wf) = logInsertErrors (status w2)
              /\ campaignsProcessed (status wf) = campaignsProcessed (status w2)
              /\ campaignsTotal (status wf) = campaignsTotal (status w2)
              /\ progressPercent (status wf) = progressPercent (status w2)).
    { intros wf ->. destruct r as [[|]|m]; repeat split. }
    destruct (Hsame _ eq_refl) as (-> & -> & -> & -> & -> & ->).
    rewrite Hnew, Herrs, Hkept, Hrows, Herows, Hunsent.
    split; [reflexivity |]. split; [reflexivity |]. split; [reflexivity |].
    split; [lia |]. split; [lia |]. exact Hend.
  - rewrite Hc. exists [], [], O.
    unfold aborted. cbn [status io poolPromise ticks console].
    rewrite Hrows, Herows, Hunsent, Hst, !app_nil_r. simpl. repeat split; lia.
Qed.

(** X8. After a run, [lastError] is null exactly when nothing failed in
    it: the campaign list loaded, no campaign failed, and no insert was
    counted as an error. *)
Theorem X8_last_error_is_null_iff_nothing_failed (w : World) :
  running (status w) = false ->
  exists wf,
    runOnce host env w = (Ok tt, wf)
    /\ (lastError (status wf) = None
        <-> exists campaigns w1,
              load_campaigns env (after_reset env w) = (Ok campaigns, w1)
              /\ campaign_errors host env 0 campaigns w1 = O
              /\ logInsertErrors (status wf) = 0).
Proof.
  intros Hr.
  destruct (runOnce_full host env w Hr) as [Hrun _].
  exists (full_run host env w). split; [exact Hrun |]. clear Hrun.
  destruct (reset_run_run env w) as (_ & Hs0 & _).
  pose proof (full_run_cases host env w) as Hc.
  destruct (load_campaigns_run env (after_reset env w)) as (r & w1 & Hload & Hst & _).
  rewrite Hs0 in Hst. clear Hs0.
  remember (after_reset env w) as w0 eqn:E. clear E.
  rewrite Hload in Hc |- *.
  destruct r as [campaigns|msg].
  - destruct Hc as (r & w2 & Hloop & ->).
    destruct (campaign_loop_accounts host env campaigns 0 false w1 ltac:(lia))
      as (r' & w2' & errs & kept & batch & Hloop' & _ & _ & _ & _ & Hcount & Hquiet
            & Hloud).
    { rewrite Hst. simpl. lia. }
    rewrite Hloop in Hloop'. injection Hloop' as <- <-.
    destruct (campaign_loop_run host env campaigns 0 false w1 ltac:(lia))
      as (r' & w2' & Hloop' & _ & _ & _ & _ & _ & Hres).
    { rewrite Hst. simpl. lia. }
    rewrite Hloop in Hloop'. injection Hloop' as <- <-.
    assert (Hfields : lastError (status w1) = None /\ logInsertErrors (status w1) = 0)
      by (rewrite Hst; split; reflexivity).
    destruct Hfields as (Hl0 & He0).
    destruct r as [b|msg].
    + assert (Hsame : lastError (status (completed env b w2)) = lastError (status w2)
                      /\ logInsertErrors (status (completed env b w2))
                         = logInsertErrors (status w2))
        by (unfold completed; destruct b; split; reflexivity).
      destruct Hsame as (-> & ->).
      split.
      * intros Hnone. exists campaigns, w1. split; [reflexivity |].
        assert (Hall : campaign_errors host env 0 campaigns w1 = O
                       /\ errs = [] /\ kept = O).
        { destruct (Nat.eq_dec (campaign_errors host env 0 campaigns w1) O) as [Hc | Hc].
          - destruct (nil_or_not errs) as [He | He].
            + destruct (Nat.eq_dec kept O) as [Hk | Hk]; [now repeat split |].
              destruct (Hloud b eq_refl (or_intror (or_intror Hk))) as (m & Hm).
              rewrite Hm in Hnone. discriminate Hnone.
            + destruct (Hloud b eq_refl (or_intror (or_introl He))) as (m & Hm).
              rewrite Hm in Hnone. discriminate Hnone.
          - destruct (Hloud b eq_refl (or_introl Hc)) as (m & Hm).
            rewrite Hm in Hnone. discriminate Hnone. }
        destruct Hall as (Hclean & -> & ->).
        split; [exact Hclean |]. rewrite Hcount, He0. reflexivity.
      * intros (campaigns' & w1' & Heq & Hclean & Hzero).
        injection Heq as <- <-.
        assert (Hnil : errs = [] /\ kept = O).
        { rewrite Hcount, He0 in Hzero.
          destruct errs; [split; [reflexivity | simpl in Hzero; lia] |].
          simpl in Hzero. lia. }
        destruct Hnil as (Hnil & Hk).
        destruct (Hquiet Hclean Hnil Hk) as (-> & _). exact Hl0.
    + destruct Hres as (_ & Hpos). split.
      * unfold aborted. simpl. discriminate.
      * intros (campaigns' & w1' & Heq & Hclean & _).
        injection Heq as <- <-. lia.
  - rewrite Hc. split.
    + unfold aborted. simpl. discriminate.
    + intros (campaigns & w1' & Heq & _). discriminate Heq.
Qed.

(** X9. A record whose converted date is an invalid [Date] (a timestamp at
    the very start of the representable range) is inserted with that
    date, and then [toISOString] throws inside the same [try]: the record
    counts both as inserted and as an insert error, [lastError] becomes
    "Insert failed: Invalid time value", and [lastLogCreatedAt] is left
    alone. *)
Theorem X9_invalid_date_counts_twice
    (inserted : Z) (item : MappedLog) (row : Row) (w : World) :
  bind_row host item = Ok row ->
  insert_query env (List.length (io w)) row = Ok tt ->
  m_createdAt item = Some InvalidDate ->
  exists w',
    insert_one host env inserted item w = (Ok (inserted + 1), w')
    /\ r_created_at row = Some InvalidDate
    /\ inserted_rows env (io w') = (inserted_rows env (io w) ++ [row])%list
    /\ error_rows env (io w') = (error_rows env (io w) ++ [row])%list
    /\ logInsertErrors (status w') = logInsertErrors (status w) + 1
    /\ lastError (status w') = Some "Insert failed: Invalid time value"
    /\ lastLogCreatedAt (status w') = lastLogCreatedAt (status w).
Proof.
  intros Hbind Hq Hd.
  destruct (insert_one_run host env inserted item w)
    as (k & w' & Hrun & _ & _ & Hcase).
  rewrite Hbind in Hcase. destruct Hcase as (Hio & Hcase).
  rewrite Hq, Hd in Hcase. destruct Hcase as (-> & Herr & Hlast & _ & Hkeep).
  assert (Hrow : r_created_at row = Some InvalidDate).
  { pose proof (bind_row_cases host item) as Hc. rewrite Hbind in Hc.
    destruct Hc as (? & ? & ? & ? & ? & ? & _ & _ & _ & _ & _ & _ & ->).
    exact Hd. }
  exists w'. split; [exact Hrun |]. split; [exact Hrow |].
  rewrite Hio. simpl. rewrite Hq, Hrow.
  repeat split; assumption.
Qed.

(** X10. Within a run progress only moves forward: after an iteration and
    after any further iterations of the same loop, [campaignsProcessed],
    [progressPercent] and the number of filled cells of the bar are at
    least what they were, and they stay within [campaignsTotal], 100 and
    20. *)
Theorem X10_progress_never_goes_back
    (i : Z) (b b1 b2 : bool) (campaign : value) (rest : list value) (w w1 w2 : World) :
  0 <= i ->
  i + 1 + Z.of_nat (List.length rest) <= campaignsTotal (status w) ->
  campaign_iteration host env i b campaign w = (Ok b1, w1) ->
  campaign_loop host env (i + 1) b1 rest w1 = (Ok b2, w2) ->
  campaignsProcessed (status w1) <= campaignsProcessed (status w2)
    <= campaignsTotal (status w2)
  /\ 0 <= progressPercent (status w1) <= progressPercent (status w2)
  /\ progressPercent (status w2) <= 100
  /\ bar_filled (inject_Z (progressPercent (status w1))) 20
     <= bar_filled (inject_Z (progressPercent (status w2))) 20
  /\ bar_filled (inject_Z (progressPercent (status w2))) 20 <= 20.
Proof.
  intros Hi Hfit Hiter Hloop.
  assert (Hnt : id_without_text host campaign = false).
  { destruct (id_without_text host campaign) eqn:Hnt; [| reflexivity].
    destruct (campaign_iteration_throws host env i b campaign w Hnt)
      as (msg & _ & Hthrow & _).
    rewrite Hiter in Hthrow. discriminate Hthrow. }
  destruct (campaign_iteration_run host env i b campaign w Hi ltac:(lia) Hnt)
    as (b1' & w1' & Hiter' & _ & _ & (_ & _ & _ & _ & Htot1) & Hproc1 & Hpct1 & _).
  rewrite Hiter in Hiter'. injection Hiter' as <- <-.
  destruct (campaign_loop_run host env rest (i + 1) b1 w1 ltac:(lia) ltac:(lia))
    as (r & w2' & Hloop' & _ & (_ & _ & _ & _ & Htot2) & _ & _
          & (k & _ & Hk0 & Hkn & Hall) & _).
  rewrite Hloop in Hloop'. injection Hloop' as <- <-.
  specialize (Hall b2 eq_refl). subst k.
  assert (Hfacts : campaignsProcessed (status w2) = i + 1 + Z.of_nat (List.length rest)
                   /\ progressPercent (status w2)
                      = percent_of (i + 1 + Z.of_nat (List.length rest))
                          (campaignsTotal (status w))).
  { destruct rest as [|c rest'].
    - destruct (Hk0 eq_refl) as (Hp & Hq & _).
      rewrite Hp, Hq, Hproc1, Hpct1. simpl. rewrite Z.add_0_r. split; reflexivity.
    - destruct (Hkn ltac:(discriminate)) as (Hp & Hq & _).
      rewrite Hp, Hq, Htot1. split; reflexivity. }
  destruct Hfacts as (Hproc2 & Hpct2).
  assert (Hlo : 0 <= progressPercent (status w1))
    by (rewrite Hpct1; apply percent_of_nonneg; lia).
  assert (Hmono : progressPercent (status w1) <= progressPercent (status w2))
    by (rewrite Hpct1, Hpct2; apply percent_of_mono; lia).
  assert (Hhi : progressPercent (status w2) <= 100)
    by (rewrite Hpct2; apply percent_of_bounds; lia).
  split; [rewrite Hproc1, Hproc2, Htot2, Htot1; lia |].
  split; [lia |]. split; [exact Hhi |].
  split.
  - apply bar_filled_mono; [| rewrite <- Zle_Qle; exact Hmono | lia].
    change 0%Q with (inject_Z 0). now rewrite <- Zle_Qle.
  - apply bar_filled_bounds.
    + change 0%Q with (inject_Z 0). rewrite <- Zle_Qle. lia.
    + change 100%Q with (inject_Z 100). now rewrite <- Zle_Qle.
Qed.

End RunExtras.

Lemma X1_scheduler_chain_never_skips_witness :
  running (status initial_world) = false
  /\ runLoop utc_host scenario_env 3 initial_world
     = (Ok tt, Nat.iter 3 (full_run utc_host scenario_env) initial_world).
Proof.
  split; [reflexivity |].
  apply (X1_scheduler_chain_never_skips utc_host scenario_env 3 initial_world).
  reflexivity.
Defined.

Lemma X2_connection_is_requested_once_witness :
  poolPromise initial_world = false /\ connects (io initial_world) = O
  /\ (connects (io (Nat.iter 3 (full_run utc_host scenario_env) initial_world)) <= 1)%nat.
Proof.
  split; [reflexivity |]. split; [reflexivity |].
  apply (X2_connection_is_requested_once utc_host scenario_env 3 initial_world);
    reflexivity.
Defined.

Lemma X3_rejected_connection_is_permanent_witness :
  running (status initial_world) = false
  /\ exists wf,
       runOnce utc_host unreachable_db_env initial_world = (Ok tt, wf)
       /\ lastError (status wf) = Some "Failed to connect to db:1433".
Proof.
  split; [reflexivity |].
  destruct (X3_rejected_connection_is_permanent utc_host unreachable_db_env
              initial_world "Failed to connect to db:1433" eq_refl eq_refl eq_refl)
    as (wf & Hrun & _ & _ & Herr & _).
  exists wf. split; assumption.
Defined.

Lemma X4_missing_token_aborts_before_any_request_witness :
  running (status initial_world) = false
  /\ exists wf,
       runOnce utc_host no_token_env initial_world = (Ok tt, wf)
       /\ io wf = io initial_world.
Proof.
  split; [reflexivity |].
  destruct (X4_missing_token_aborts_before_any_request utc_host no_token_env
              initial_world eq_refl (or_introl eq_refl))
    as (wf & Hrun & Hio & _).
  exists wf. split; assumption.
Defined.

Lemma X5_failed_campaign_query_aborts_the_run_witness :
  running (status initial_world) = false
  /\ exists wf,
       runOnce utc_host failing_query_env initial_world = (Ok tt, wf)
       /\ lastError (status wf) = Some "Invalid object name 'campanhas'.".
Proof.
  split; [reflexivity |].
  destruct (X5_failed_campaign_query_aborts_the_run utc_host failing_query_env
              initial_world "Invalid object name 'campanhas'." eq_refl eq_refl eq_refl
              eq_refl)
    as (wf & Hrun & _ & Herr & _).
  exists wf. split; assumption.
Defined.

Lemma X6_campaign_without_id_is_not_fetched_witness :
  truthy (opt_get (VObj [("name", VStr "promo")]) "id") = false
  /\ exists w',
       campaign_iteration utc_host scenario_env 0 false (VObj [("name", VStr "promo")])
         initial_world = (Ok true, w')
       /\ io w' = io initial_world.
Proof.
  split; [reflexivity |].
  destruct (X6_campaign_without_id_is_not_fetched utc_host scenario_env 0 false
              (VObj [("name", VStr "promo")]) initial_world)
    as (w' & text & Hrun & _ & Hio & _).
  - lia.
  - simpl. lia.
  - reflexivity.
  - exists w'. split; assumption.
Defined.

Lemma X7_counters_match_the_trace_witness :
  running (status initial_world) = false
  /\ exists wf (new : list Row),
       runOnce utc_host flaky_insert_env initial_world = (Ok tt, wf)
       /\ logsInserted (status wf) = Z.of_nat (List.length new).
Proof.
  split; [reflexivity |].
  destruct (X7_counters_match_the_trace utc_host flaky_insert_env initial_world eq_refl)
    as (wf & new & errs & kept & Hrun & _ & _ & _ & Hins & _).
  exists wf, new. split; assumption.
Defined.

Lemma X8_last_error_is_null_iff_nothing_failed_witness :
  running (status initial_world) = false
  /\ exists wf, runOnce utc_host flaky_insert_env initial_world = (Ok tt, wf).
Proof.
  split; [reflexivity |].
  destruct (X8_last_error_is_null_iff_nothing_failed utc_host flaky_insert_env
              initial_world eq_refl)
    as (wf & Hrun & _).
  exists wf. exact Hrun.
Defined.

Lemma X9_invalid_date_counts_twice_witness :
  mapLog utc_host (raw_log "-271821-04-20T00:00:00Z") = Ok out_of_range_record
  /\ exists row w',
       bind_row utc_host out_of_range_record = Ok row
       /\ insert_one utc_host scenario_env 0 out_of_range_record initial_world
          = (Ok 1, w')
       /\ logInsertErrors (status w') = 1.
Proof.
  split; [vm_compute; reflexivity |].
  destruct (X9_invalid_date_counts_twice utc_host scenario_env 0 out_of_range_record
              {| r_id := Some "c"; r_status := Some "sent";
                 r_destino := Some "5511999990000"; r_departamento := Some "vendas";
                 r_template_name := Some "promo"; r_contact_name := Some "Ana";
                 r_created_at := Some InvalidDate |}
              initial_world)
    as (w' & Hrun & _ & _ & _ & Herr & _).
  - vm_compute. reflexivity.
  - reflexivity.
  - reflexivity.
  - eexists. exists w'. split; [vm_compute; reflexivity |].
    split; [exact Hrun | exact Herr].
Defined.

Lemma X10_progress_never_goes_back_witness :
  exists w1 w2,
    campaign_iteration utc_host scenario_env 0 false (campaign_row "c1") loop_start_world
    = (Ok false, w1)
    /\ campaign_loop utc_host scenario_env 1 false [campaign_row "c2"] w1 = (Ok true, w2)
    /\ progressPercent (status w1) <= progressPercent (status w2).
Proof.
  pose (w1 := snd (campaign_iteration utc_host scenario_env 0 false (campaign_row "c1")
                     loop_start_world)).
  pose (w2 := snd (campaign_loop utc_host scenario_env 1 false [campaign_row "c2"] w1)).
  assert (H1 : campaign_iteration utc_host scenario_env 0 false (campaign_row "c1")
                 loop_start_world = (Ok false, w1)) by (vm_compute; reflexivity).
  assert (H2 : campaign_loop utc_host scenario_env 1 false [campaign_row "c2"] w1
               = (Ok true, w2)) by (vm_compute; reflexivity).
  exists w1, w2. split; [exact H1 |]. split; [exact H2 |].
  apply (X10_progress_never_goes_back utc_host scenario_env 0 false false true
           (campaign_row "c1") [campaign_row "c2"] loop_start_world w1 w2).
  - lia.
  - vm_compute. discriminate.
  - exact H1.
  - exact H2.
Defined.



(** ** Dates written and read back *)

Lemma all_from_spec (check : Z -> bool) (n : nat) :
  forall start, all_from check n start = true ->
  forall z, start <= z < start + Z.of_nat n -> check z = true.
Proof.
  induction n as [|n IH]; intros start Hall z Hz; [lia |].
  simpl in Hall. apply andb_prop in Hall. destruct Hall as [Hhere Hrest].
  destruct (Z.eq_dec z start) as [-> | Hne]; [exact Hhere |].
  apply (IH (start + 1) Hrest). lia.
Qed.

Lemma cycle_days_check : all_from doe_checks (Z.to_nat 146097) 0 = true.
Proof. vm_compute. reflexivity. Qed.

Lemma doe_checks_holds (doe : Z) : 0 <= doe < 146097 -> doe_checks doe = true.
Proof.
  intros H. apply (all_from_spec doe_checks (Z.to_nat 146097) 0 cycle_days_check). lia.
Qed.

Lemma is_leap_cycle (y k : Z) : is_leap (y + k * 400) = is_leap y.
Proof.
  unfold is_leap.
  replace ((y + k * 400) mod 4) with (y mod 4)
    by (replace (k * 400) with ((k * 100) * 4) by lia; now rewrite Z.mod_add).
  replace ((y + k * 400) mod 100) with (y mod 100)
    by (replace (k * 400) with ((k * 4) * 100) by lia; now rewrite Z.mod_add).
  replace ((y + k * 400) mod 400) with (y mod 400) by (now rewrite Z.mod_add).
  reflexivity.
Qed.

Lemma DaysInMonth_cycle (y k m : Z) : DaysInMonth (y + k * 400) m = DaysInMonth y m.
Proof. unfold DaysInMonth. now rewrite is_leap_cycle. Qed.

(** The calendar date of a day number is a legal date, and it is the date
    of that day. *)
Lemma civil_round_trip (day : Z) :
  let '(y, m, d) := civil_from_days day in
  days_from_civil y m d = day
  /\ 1 <= m <= 12 /\ 1 <= d <= DaysInMonth y m
  /\ (day + 719468) / 146097 * 400 <= y <= (day + 719468) / 146097 * 400 + 400.
Proof.
  unfold civil_from_days.
  set (z := day + 719468). set (era := z / 146097). set (doe := z - era * 146097).
  assert (Hdoe : 0 <= doe < 146097).
  { unfold doe, era. pose proof (Z.mod_pos_bound z 146097 ltac:(lia)) as H.
    rewrite Z.mod_eq in H by lia. lia. }
  pose proof (doe_checks_holds doe Hdoe) as Hc. unfold doe_checks in Hc.
  destruct (civil_of_doe doe) as [[yoe m] d].
  repeat (apply andb_prop in Hc; destruct Hc as [Hc ?]).
  repeat match goal with
         | H : (_ <=? _) = true |- _ => apply Z.leb_le in H
         | H : (_ <? _) = true |- _ => apply Z.ltb_lt in H
         | H : (_ =? _) = true |- _ => apply Z.eqb_eq in H
         end.
  set (adj := if m <=? 2 then 1 else 0) in *.
  assert (Hadj : 0 <= adj <= 1) by (unfold adj; destruct (m <=? 2); lia).
  split.
  - unfold days_from_civil.
    assert (Hy : (if m <=? 2 then yoe + era * 400 + adj - 1 else yoe + era * 400 + adj)
                 = yoe + era * 400).
    { unfold adj. destruct (m <=? 2); lia. }
    rewrite Hy.
    assert (Hera : (yoe + era * 400) / 400 = era).
    { rewrite Z.div_add by lia. rewrite Z.div_small by lia. lia. }
    rewrite Hera.
    replace (yoe + era * 400 - era * 400) with yoe by lia.
    unfold doe, z in *. lia.
  - replace (yoe + era * 400 + adj) with ((yoe + adj) + era * 400) by lia.
    rewrite DaysInMonth_cycle. repeat split; lia.
Qed.

Lemma digit_of_char (d : Z) : 0 <= d <= 9 -> digit (digit_char d) = Some d.
Proof.
  intros H.
  assert (Hd : d = 0 \/ d = 1 \/ d = 2 \/ d = 3 \/ d = 4 \/ d = 5 \/ d = 6 \/ d = 7
               \/ d = 8 \/ d = 9) by lia.
  repeat (destruct Hd as [-> | Hd]; [reflexivity |]). subst d. reflexivity.
Qed.

(** Reading back [n] digits written by [pad]. *)
Lemma digits_pad (n : nat) :
  forall (v acc : Z) (rest : string),
  0 <= v ->
  digits n acc (pad n v ++ rest)
  = Some (acc * 10 ^ Z.of_nat n + v mod 10 ^ Z.of_nat n, rest).
Proof.
  induction n as [|n IH]; intros v acc rest Hv.
  - simpl. rewrite Z.mod_1_r. f_equal. f_equal. lia.
  - cbn [pad append digits].
    rewrite digit_of_char
      by (pose proof (Z.mod_pos_bound (v / 10 ^ Z.of_nat n) 10 ltac:(lia)); lia).
    rewrite IH by exact Hv. f_equal. f_equal.
    rewrite Nat2Z.inj_succ, Z.pow_succ_r by lia.
    set (p := 10 ^ Z.of_nat n).
    assert (Hp : 0 < p) by (apply Z.pow_pos_nonneg; lia).
    rewrite (Z.mul_comm 10 p), Z.rem_mul_r by lia. lia.
Qed.

Lemma digits_pad_small (n : nat) (v acc : Z) (rest : string) :
  0 <= v < 10 ^ Z.of_nat n ->
  digits n acc (pad n v ++ rest) = Some (acc * 10 ^ Z.of_nat n + v, rest).
Proof.
  intros H. rewrite digits_pad by lia. now rewrite Z.mod_small.
Qed.

(** The first character of a padded number is a digit, so neither sign. *)
Lemma parse_year_unsigned (v : Z) (rest : string) :
  0 <= v < 10000 ->
  parse_year (pad 4 v ++ rest) = Some (v, rest).
Proof.
  intros H.
  pose proof (digits_pad_small 4 v 0 rest ltac:(simpl; lia)) as Hd.
  simpl Z.of_nat in Hd. rewrite Z.mul_0_l, Z.add_0_l in Hd.
  cbn [pad append] in Hd |- *.
  set (c := digit_char ((v / 10 ^ Z.of_nat 3) mod 10)) in *.
  assert (Hc : digit c = Some ((v / 10 ^ Z.of_nat 3) mod 10))
    by (apply digit_of_char;
        pose proof (Z.mod_pos_bound (v / 10 ^ Z.of_nat 3) 10 ltac:(lia)); lia).
  unfold parse_year.
  destruct c as [[] [] [] [] [] [] [] []]; try exact Hd; discriminate Hc.
Qed.

Lemma parse_year_text (y : Z) (rest : string) :
  - 1000000 < y < 1000000 ->
  parse_year (year_text y ++ rest) = Some (y, rest).
Proof.
  intros H. unfold year_text.
  destruct ((0 <=? y) && (y <=? 9999)) eqn:Hsmall.
  - apply andb_prop in Hsmall. destruct Hsmall as [H1 H2].
    apply Z.leb_le in H1. apply Z.leb_le in H2.
    apply parse_year_unsigned. lia.
  - assert (Hout : y < 0 \/ 9999 < y).
    { apply andb_false_iff in Hsmall. destruct Hsmall as [H1 | H1].
      - apply Z.leb_gt in H1. now left.
      - apply Z.leb_gt in H1. now right. }
    pose proof (digits_pad_small 6 (Z.abs y) 0 rest ltac:(simpl; lia)) as Hd.
    simpl Z.of_nat in Hd. rewrite Z.mul_0_l, Z.add_0_l in Hd.
    destruct (Z.ltb_spec y 0) as [Hneg | Hpos].
    + cbn [append]. unfold parse_year. rewrite Hd.
      destruct (Z.eqb_spec (Z.abs y) 0); [lia |]. f_equal. f_equal. lia.
    + cbn [append]. unfold parse_year. rewrite Hd. f_equal. f_equal. lia.
Qed.

Lemma parse_fields_written (y mo d h mi s ms : Z) :
  - 1000000 < y < 1000000 ->
  0 <= mo < 100 -> 0 <= d < 100 -> 0 <= h < 100 -> 0 <= mi < 100 -> 0 <= s < 100 ->
  0 <= ms < 1000 ->
  parse_fields
    (year_text y ++ "-" ++ pad 2 mo ++ "-" ++ pad 2 d ++ "T"
     ++ pad 2 h ++ ":" ++ pad 2 mi ++ ":" ++ pad 2 s ++ "." ++ pad 3 ms ++ "Z")
  = Some (Build_iso_fields y mo d h mi s ms true (Some 0)).
Proof.
  intros Hy Hmo Hd Hh Hmi Hs Hms.
  unfold parse_fields. rewrite parse_year_text by exact Hy.
  cbn [append].
  rewrite (digits_pad_small 2 mo 0) by (simpl; lia). cbn [append].
  rewrite (digits_pad_small 2 d 0) by (simpl; lia).
  unfold parse_tail. cbn [append]. unfold parse_time.
  rewrite (digits_pad_small 2 h 0) by (simpl; lia). cbn [append].
  rewrite (digits_pad_small 2 mi 0) by (simpl; lia). cbn [append].
  rewrite (digits_pad_small 2 s 0) by (simpl; lia).
  unfold parse_ms. cbn [append].
  rewrite (digits_pad_small 3 ms 0) by (simpl; lia).
  simpl. repeat f_equal; lia.
Qed.

Lemma time_of_day_fields (t : Z) :
  0 <= HourFromTime t < 24 /\ 0 <= MinFromTime t < 60 /\ 0 <= SecFromTime t < 60
  /\ 0 <= msFromTime t < 1000
  /\ MakeDate (Day t)
       (MakeTime (HourFromTime t) (MinFromTime t) (SecFromTime t) (msFromTime t)) = t.
Proof.
  unfold MakeDate, MakeTime, Day, HourFromTime, MinFromTime, SecFromTime, msFromTime,
    msPerDay, msPerHour, msPerMinute, msPerSecond.
  repeat split; Z.div_mod_to_equations; lia.
Qed.

(** The text [toISOString] writes is in the date-time format and reads
    back as the same time value. *)
Lemma parse_iso_toISOString (host : Host) (t : Z) :
  Z.abs t <= 8640000000000000 ->
  parse_iso host (Date_toISOString t) = Some t.
Proof.
  intros Ht. unfold Date_toISOString.
  pose proof (civil_round_trip (Day t)) as Hc.
  destruct (civil_from_days (Day t)) as [[y m] d].
  destruct Hc as (Hdays & Hm & Hd & Hy).
  destruct (time_of_day_fields t) as (Hh & Hmi & Hs & Hms & Htime).
  assert (Hd31 : DaysInMonth y m <= 31).
  { unfold DaysInMonth.
    destruct (m =? 2); [destruct (is_leap y); lia |].
    destruct ((m =? 4) || (m =? 6) || (m =? 9) || (m =? 11)); lia. }
  assert (Hyear : - 1000000 < y < 1000000).
  { unfold Day, msPerDay in Hy. Z.div_mod_to_equations. lia. }
  unfold parse_iso.
  rewrite parse_fields_written by lia.
  unfold legal_fields. cbn [f_year f_month f_day f_hour f_min f_sec f_ms].
  replace ((1 <=? m) && (m <=? 12) && (1 <=? d) && (d <=? DaysInMonth y m)
           && (HourFromTime t <=? 24) && (MinFromTime t <=? 59)
           && (SecFromTime t <=? 59)
           && ((HourFromTime t <? 24)
               || (MinFromTime t =? 0) && (SecFromTime t =? 0) && (msFromTime t =? 0)))
    with true.
  - unfold fields_time. cbn [f_year f_month f_day f_hour f_min f_sec f_ms f_zone].
    rewrite Hdays, Htime. f_equal. lia.
  - symmetry.
    repeat (apply andb_true_intro; split); try (apply Z.leb_le; lia).
    apply orb_true_intro. left. apply Z.ltb_lt. lia.
Qed.

Lemma toISOString_not_empty (t : Z) : Date_toISOString t <> "".
Proof.
  unfold Date_toISOString. destruct (civil_from_days (Day t)) as [[y m] d].
  unfold year_text.
  destruct ((0 <=? y) && (y <=? 9999)); [| destruct (y <? 0)]; discriminate.
Qed.

Lemma Date_parse_toISOString (host : Host) (t : Z) :
  Z.abs t <= 8640000000000000 ->
  Date_parse host (Date_toISOString t) = ValidDate t.
Proof.
  intros Ht. unfold Date_parse. rewrite parse_iso_toISOString by exact Ht.
  unfold TimeClip.
  destruct (Z.abs t >? 8640000000000000) eqn:E; [| reflexivity].
  apply Z.gtb_lt in E. lia.
Qed.

Lemma toISOString_truthy (t : Z) : truthy (VStr (Date_toISOString t)) = true.
Proof.
  pose proof (toISOString_not_empty t) as H.
  unfold truthy. destruct (Date_toISOString t); [congruence | reflexivity].
Qed.

(** X12. The texts that [insertLogs] stores and compares (lines 160-165)
    denote their time values: for time values [t] and [p] in the range of
    a [Date], the text [toISOString] writes for [t] is never empty, is read
    back by [new Date] as [t] on every host, and replaces the stored text
    written for [p] exactly when [t > p]; it always replaces a missing
    one. *)
Theorem X12_stored_text_denotes_its_time (host : Host) (t p : Z) :
  Z.abs t <= 8640000000000000 ->
  Z.abs p <= 8640000000000000 ->
  new_Date host (VStr (Date_toISOString t)) = Ok (ValidDate t)
  /\ truthy (VStr (Date_toISOString t)) = true
  /\ replaces_stored host (Date_toISOString t) (Some (Date_toISOString p)) = (t >? p)
  /\ replaces_stored host (Date_toISOString t) None = true
  /\ (replaces_stored host (Date_toISOString t) (Some (Date_toISOString p)) = true
      <-> advance (Some p) t = Some t /\ t <> p).
Proof.
  intros Ht Hp.
  assert (Hcmp : replaces_stored host (Date_toISOString t) (Some (Date_toISOString p))
                 = (t >? p)).
  { unfold replaces_stored.
    rewrite toISOString_truthy, !Date_parse_toISOString by assumption.
    reflexivity. }
  split; [cbn [new_Date]; now rewrite Date_parse_toISOString |].
  split; [apply toISOString_truthy |].
  split; [exact Hcmp |].
  split; [reflexivity |].
  rewrite Hcmp. unfold advance.
  destruct (t >? p) eqn:E.
  - apply Z.gtb_lt in E. split; [intros _; split; [reflexivity | lia] | reflexivity].
  - split; [discriminate |]. intros [H Hne]. congruence.
Qed.

Lemma X12_stored_text_denotes_its_time_witness :
  new_Date utc_host (VStr (Date_toISOString 1704103200000))
    = Ok (ValidDate 1704103200000)
  /\ Date_toISOString 1704103200000 = "2024-01-01T10:00:00.000Z"
  /\ replaces_stored utc_host (Date_toISOString 1704103200000)
       (Some (Date_toISOString (- 1))) = true.
Proof.
  pose proof (X12_stored_text_denotes_its_time utc_host 1704103200000 (- 1)
                ltac:(vm_compute; discriminate) ltac:(vm_compute; discriminate))
    as (Hread & _ & Hcmp & _).
  split; [exact Hread |].
  split; [vm_compute; reflexivity |].
  rewrite Hcmp. reflexivity.
Defined.

(** ** What holds along every stretch of a run *)

Lemma length_substring_le (n : nat) :
  forall s : string, (String.length (substring 0 n s) <= n)%nat.
Proof.
  induction n as [|n IH]; intros [|c s]; simpl; try lia.
  specialize (IH s). lia.
Qed.

Lemma truncated_fits (n : nat) (width : Z) (v : value) (text : string) :
  Z.of_nat n <= width -> fits width (truncated n v text) = true.
Proof.
  intros Hn. unfold truncated. destruct (nullish v); [reflexivity |].
  unfold fits. apply Z.leb_le. pose proof (length_substring_le n text). lia.
Qed.

Lemma clampStr_fits (host : Host) (v : value) (maxLen : nat) (column : option string) :
  clampStr host v (Z.of_nat maxLen) = Ok column -> fits (Z.of_nat maxLen) column = true.
Proof.
  intros Hclamp.
  destruct (ToString host v) as [text|msg] eqn:Htext.
  - rewrite (clampStr_truncated host v maxLen text Htext) in Hclamp.
    injection Hclamp as <-. apply truncated_fits. lia.
  - rewrite (clampStr_throws host v (Z.of_nat maxLen) msg Htext) in Hclamp.
    discriminate Hclamp.
Qed.

Lemma bind_row_fits (host : Host) (item : MappedLog) (row : Row) :
  bind_row host item = Ok row -> row_fits row = true.
Proof.
  intros Hbind. pose proof (bind_row_cases host item) as Hc. rewrite Hbind in Hc.
  destruct Hc as (? & ? & ? & ? & ? & ? & _ & _ & _ & _ & _ & _ & ->).
  unfold row_fits. cbn [r_id r_status r_destino r_departamento r_template_name
                        r_contact_name].
  rewrite !truncated_fits by (apply Z.leb_le; vm_compute; reflexivity).
  reflexivity.
Qed.

Section RunInvariants.

Variable host : Host.
Variable env : Env.

Lemma moves_on_refl (w : World) : moves_on env w w.
Proof.
  split; [lia |]. split; [now left |]. exists []. split; reflexivity.
Qed.

Lemma moves_on_trans (w1 w2 w3 : World) :
  moves_on env w1 w2 -> moves_on env w2 w3 -> moves_on env w1 w3.
Proof.
  intros (Ht & He & batch & Hio & Hfit) (Ht' & He' & batch' & Hio' & Hfit').
  split; [lia |]. split.
  - destruct He' as [He' | (k & Hk & He')].
    + destruct He as [He | (k & Hk & He)].
      * left. congruence.
      * right. exists k. split; [lia | congruence].
    + right. exists k. split; [lia | assumption].
  - exists (batch' ++ batch)%list.
    split; [rewrite Hio', Hio; apply app_assoc |].
    rewrite forallb_app, Hfit, Hfit'. reflexivity.
Qed.

(** A stretch that sends one request and reads the clock at most once,
    for [lastErrorAt]. *)
Lemma one_request_moves_on (e : event) (w w' : World) :
  insert_fits e = true ->
  io w' = e :: io w ->
  (ticks w' = ticks w /\ lastErrorAt (status w') = lastErrorAt (status w)
   \/ ticks w' = S (ticks w) /\ lastErrorAt (status w') = Some (clock env (ticks w))) ->
  moves_on env w w'.
Proof.
  intros Hfit Hio Hcase. split; [lia |]. split.
  - destruct Hcase as [[Ht He] | [Ht He]]; [now left |].
    right. exists (ticks w). split; [lia | exact He].
  - exists [e]. split; [exact Hio |]. simpl. now rewrite Hfit.
Qed.

(** A stretch that sends nothing and reads the clock once, for
    [lastErrorAt]. *)
Lemma one_failure_moves_on (w w' : World) :
  io w' = io w ->
  ticks w' = S (ticks w) ->
  lastErrorAt (status w') = Some (clock env (ticks w)) ->
  moves_on env w w'.
Proof.
  intros Hio Ht He. split; [lia |]. split.
  - right. exists (ticks w). split; [lia | exact He].
  - exists []. split; [exact Hio | reflexivity].
Qed.

Lemma insert_one_moves_on (inserted : Z) (item : MappedLog) (w : World) :
  exists inserted' w',
    insert_one host env inserted item w = (Ok inserted', w') /\ moves_on env w w'.
Proof.
  unfold insert_one, insertLog, try_catch, bind, lift.
  destruct (bind_row host item) as [row|msg0] eqn:Hbind.
  - assert (Hfit : insert_fits (InsertRow row) = true)
      by exact (bind_row_fits host item row Hbind).
    destruct (insert_query env (List.length (io w)) row) as [[]|msg].
    + unfold note_created.
      destruct (m_createdAt item) as [[t|]|].
      * unfold bind, toISOString, ret, get_status. simpl.
        destruct (lastLogCreatedAt (status w)) as [p|]; simpl;
          [destruct (t >? p); simpl |];
          (do 2 eexists; split; [reflexivity |];
           apply (one_request_moves_on (InsertRow row));
           [exact Hfit | reflexivity | left; split; reflexivity]).
      * do 2 eexists. split; [reflexivity |].
        apply (one_request_moves_on (InsertRow row));
          [exact Hfit | reflexivity | right; split; reflexivity].
      * do 2 eexists. split; [reflexivity |].
        apply (one_request_moves_on (InsertRow row));
          [exact Hfit | reflexivity | left; split; reflexivity].
    + do 2 eexists. split; [reflexivity |].
      apply (one_request_moves_on (InsertRow row));
        [exact Hfit | reflexivity | right; split; reflexivity].
  - do 2 eexists. split; [reflexivity |].
    apply one_failure_moves_on; reflexivity.
Qed.

Lemma insertLogs_from_moves_on (items : list MappedLog) :
  forall (inserted : Z) (w : World),
  exists n w',
    insertLogs_from host env inserted items w = (Ok n, w') /\ moves_on env w w'.
Proof.
  induction items as [|item rest IH]; intros inserted w.
  - exists inserted, w. split; [reflexivity | apply moves_on_refl].
  - destruct (insert_one_moves_on inserted item w) as (k1 & w1 & Hone & Hm1).
    destruct (IH k1 w1) as (n & w2 & Hrun & Hm2).
    exists n, w2. split; [simpl; unfold bind; rewrite Hone; exact Hrun |].
    exact (moves_on_trans w w1 w2 Hm1 Hm2).
Qed.

Lemma campaign_try_moves_on (id : value) (text : string) (runHadError : bool) (w : World) :
  ToString host id = Ok text ->
  exists b' w',
    campaign_try host env id runHadError w = (Ok b', w') /\ moves_on env w w'.
Proof.
  intros Htext.
  unfold campaign_try, fetchLogsForCampaign, try_catch, bind, lift.
  rewrite Htext.
  destruct (truthy id) eqn:Hid; simpl.
  - destruct (fetch_logs env (List.length (io w)) id) as [root|msg] eqn:Hfetch.
    + destruct (mapLogs host root) as [items|msg] eqn:Hmap.
      * destruct (insertLogs_from_moves_on items 0 (request (FetchLogs id) w))
          as (n & w1 & Hrun & Hm).
        unfold insertLogs. rewrite Hrun. simpl.
        do 2 eexists. split; [reflexivity |].
        apply (moves_on_trans w (request (FetchLogs id) w)).
        -- apply (one_request_moves_on (FetchLogs id));
             [reflexivity | reflexivity | left; split; reflexivity].
        -- destruct Hm as (Ht & He & Hio).
           split; [exact Ht |]. split; [exact He | exact Hio].
      * do 2 eexists. split; [reflexivity |].
        apply (one_request_moves_on (FetchLogs id));
          [reflexivity | reflexivity | right; split; reflexivity].
    + do 2 eexists. split; [reflexivity |].
      apply (one_request_moves_on (FetchLogs id));
        [reflexivity | reflexivity | right; split; reflexivity].
  - do 2 eexists. split; [reflexivity |].
    apply one_failure_moves_on; reflexivity.
Qed.

Lemma campaign_iteration_moves_on (i : Z) (b : bool) (campaign : value) (w : World) :
  0 <= i -> 0 <= campaignsTotal (status w) ->
  id_without_text host campaign = false ->
  exists b' w',
    campaign_iteration host env i b campaign w = (Ok b', w') /\ moves_on env w w'.
Proof.
  intros Hi Ht Hnt.
  destruct (id_with_text host campaign Hnt) as [text Htext].
  set (id := opt_get campaign "id") in *.
  set (w0 := Build_World (set_currentCampaignId (or_else id VNull) (status w))
               (poolPromise w) (ticks w) (io w) (console w)).
  destruct (campaign_try_moves_on id text b w0 Htext) as (b' & w1 & Htry & Hm).
  destruct (campaign_try_run host env id text b w0 Htext)
    as (b'' & w1' & Htry' & _ & ((_ & _ & _ & _ & Htot) & _) & _).
  rewrite Htry in Htry'. injection Htry' as <- <-.
  simpl in Htot.
  destruct (progress_update_run host i w1 Hi) as (bar & _ & Hprog).
  { rewrite Htot. exact Ht. }
  exists b'. eexists.
  split.
  { unfold campaign_iteration, bind. fold id. unfold modify at 1. fold w0.
    rewrite Htry, Hprog. reflexivity. }
  destruct Hm as (Hticks & He & Hio).
  split; [exact Hticks |]. split; [exact He | exact Hio].
Qed.

(** The loop, whether it goes through the list or is left at a campaign
    whose id has no text. *)
Lemma campaign_loop_moves_on (campaigns : list value) :
  forall (i : Z) (b : bool) (w : World),
  0 <= i -> 0 <= campaignsTotal (status w) ->
  exists r w',
    campaign_loop host env i b campaigns w = (r, w') /\ moves_on env w w'.
Proof.
  induction campaigns as [|campaign rest IH]; intros i b w Hi Ht.
  - exists (Ok b), w. split; [reflexivity | apply moves_on_refl].
  - destruct (id_without_text host campaign) eqn:Hnt.
    + destruct (campaign_iteration_throws host env i b campaign w Hnt)
        as (msg & _ & Hrun & _).
      eexists (Throw msg), _.
      split; [simpl; unfold bind; rewrite Hrun; reflexivity |].
      split; [simpl; lia |]. split; [now left |].
      exists []. split; reflexivity.
    + destruct (campaign_iteration_moves_on i b campaign w Hi Ht Hnt)
        as (b1 & w1 & Hrun & Hm1).
      destruct (campaign_iteration_run host env i b campaign w Hi Ht Hnt)
        as (b1' & w1' & Hrun' & _ & _ & (_ & _ & _ & _ & Htot) & _).
      rewrite Hrun in Hrun'. injection Hrun' as <- <-.
      destruct (IH (i + 1) b1 w1 ltac:(lia) ltac:(lia)) as (r2 & w2 & Hrun2 & Hm2).
      exists r2, w2.
      split; [simpl; unfold bind; rewrite Hrun; exact Hrun2 |].
      exact (moves_on_trans w w1 w2 Hm1 Hm2).
Qed.

Lemma last_campaign_id_cons (campaign next : value) (rest : list value) :
  last_campaign_id (campaign :: next :: rest) = last_campaign_id (next :: rest).
Proof.
  unfold last_campaign_id.
  change (rev (campaign :: next :: rest)) with (rev (next :: rest) ++ [campaign])%list.
  destruct (rev (next :: rest)) as [|c l] eqn:E; [| reflexivity].
  apply (f_equal (@List.length value)) in E. rewrite length_rev in E. discriminate.
Qed.

Lemma reached_all (campaigns : list value) :
  existsb (id_without_text host) campaigns = false -> reached host campaigns = campaigns.
Proof.
  induction campaigns as [|campaign rest IH]; [reflexivity |].
  simpl. intros H. apply orb_false_iff in H. destruct H as [Hhere Hrest].
  rewrite Hhere, (IH Hrest). reflexivity.
Qed.

(** The id that [status] shows once the loop has ended: that of the last
    campaign it reached. *)
Lemma campaign_loop_current (campaigns : list value) :
  forall (i : Z) (b : bool) (w : World),
  0 <= i -> 0 <= campaignsTotal (status w) -> campaigns <> [] ->
  exists r w',
    campaign_loop host env i b campaigns w = (r, w')
    /\ currentCampaignId (status w') = last_campaign_id (reached host campaigns).
Proof.
  induction campaigns as [|campaign rest IH]; intros i b w Hi Ht Hne; [contradiction |].
  destruct (id_without_text host campaign) eqn:Hnt.
  - destruct (campaign_iteration_throws host env i b campaign w Hnt)
      as (msg & Htext & Hrun & _).
    eexists (Throw msg), _.
    split; [simpl; unfold bind; rewrite Hrun; reflexivity |].
    cbn [reached]. rewrite Hnt. unfold last_campaign_id. cbn [rev app status].
    unfold id_without_text in Hnt. apply andb_prop in Hnt. destruct Hnt as [Hid _].
    unfold or_else. rewrite Hid. reflexivity.
  - destruct (campaign_iteration_run host env i b campaign w Hi Ht Hnt)
      as (b1 & w1 & Hrun & _ & _ & (_ & _ & _ & _ & Htot) & _ & _ & _ & Hcur & _).
    cbn [reached]. rewrite Hnt.
    destruct rest as [|next rest'].
    + exists (Ok b1), w1.
      split; [simpl; unfold bind; rewrite Hrun; reflexivity | exact Hcur].
    + destruct (IH (i + 1) b1 w1 ltac:(lia) ltac:(lia) ltac:(discriminate))
        as (r2 & w2 & Hrun2 & Hcur2).
      exists r2, w2.
      split; [change (campaign_loop host env i b (campaign :: next :: rest') w)
                with (bind (campaign_iteration host env i b campaign)
                        (fun b' => campaign_loop host env (i + 1) b' (next :: rest')) w);
              unfold bind; rewrite Hrun; exact Hrun2 |].
      rewrite Hcur2.
      destruct (reached host (next :: rest')) as [|c l] eqn:E.
      * cbn [reached] in E. destruct (id_without_text host next); discriminate E.
      * symmetry. apply last_campaign_id_cons.
Qed.

(** Loading the campaign list sends the connection and the query at most,
    and reads no clock. *)
Lemma load_campaigns_moves_on (w : World) :
  exists r w1,
    load_campaigns env w = (r, w1)
    /\ moves_on env w w1
    /\ lastRunStartedAt (status w1) = lastRunStartedAt (status w)
    /\ lastSuccessAt (status w1) = lastSuccessAt (status w)
    /\ (0 <= campaignsTotal (status w) -> 0 <= campaignsTotal (status w1)).
Proof.
  destruct (load_campaigns_requests host env w) as (r & w1 & Hload & Hio1 & _).
  destruct (load_campaigns_run env w) as (r' & w1' & Hload' & Hst & Ht1 & _).
  rewrite Hload in Hload'. injection Hload' as <- <-.
  exists r, w1. split; [exact Hload |]. clear Hload.
  split; [split; [lia | split] | split; [| split]].
  - left. rewrite Hst. destruct r; reflexivity.
  - eexists. split; [exact Hio1 |].
    destruct (token_missing env); [reflexivity |].
    destruct (sql_connect env); destruct (poolPromise w); reflexivity.
  - rewrite Hst. destruct r; reflexivity.
  - rewrite Hst. destruct r; reflexivity.
  - rewrite Hst. destruct r; cbn; lia.
Qed.

(** A run that is not skipped, cut at the point where the outer [try]
    ends: the stretch from the reset to there, and how the run ends. *)
Lemma full_run_stretch (w : World) :
  exists w1,
    moves_on env (after_reset env w) w1
    /\ lastRunStartedAt (status w1) = Some (clock env (ticks w))
    /\ lastSuccessAt (status w1) = lastSuccessAt (status w)
    /\ ((exists b, full_run host env w = completed env b w1)
        \/ (exists msg, full_run host env w = aborted env msg w1)).
Proof.
  destruct (reset_run_run env w) as (_ & Hs0 & _).
  pose proof (full_run_cases host env w) as Hc.
  assert (Hstart0 : lastRunStartedAt (status (after_reset env w))
                    = Some (clock env (ticks w))) by (rewrite Hs0; reflexivity).
  assert (Hsucc0 : lastSuccessAt (status (after_reset env w)) = lastSuccessAt (status w))
    by (rewrite Hs0; reflexivity).
  assert (Htot0 : campaignsTotal (status (after_reset env w)) = 0)
    by (rewrite Hs0; reflexivity).
  clear Hs0.
  remember (after_reset env w) as w0 eqn:E. clear E.
  destruct (load_campaigns_moves_on w0) as (r & w1 & Hload & Hm1 & Hstart & Hsucc & Htot).
  rewrite Hload in Hc. clear Hload.
  rewrite Hstart0 in Hstart. rewrite Hsucc0 in Hsucc. rewrite Htot0 in Htot.
  specialize (Htot ltac:(lia)).
  destruct r as [campaigns|msg].
  - destruct Hc as (r & w2 & Hloop & Hfull).
    destruct (campaign_loop_moves_on campaigns 0 false w1 ltac:(lia) ltac:(lia))
      as (r' & w2' & Hloop' & Hm2).
    rewrite Hloop in Hloop'. injection Hloop' as <- <-.
    destruct (campaign_loop_run host env campaigns 0 false w1 ltac:(lia) ltac:(lia))
      as (r' & w2' & Hloop' & _ & (_ & Hk1 & _ & Hk2 & _) & _).
    rewrite Hloop in Hloop'. injection Hloop' as <- <-.
    exists w2.
    split; [exact (moves_on_trans w0 w1 w2 Hm1 Hm2) |].
    split; [rewrite Hk1; exact Hstart |]. split; [rewrite Hk2; exact Hsucc |].
    destruct r as [b|msg]; [left; exists b | right; exists msg]; exact Hfull.
  - exists w1. split; [exact Hm1 |]. split; [exact Hstart |]. split; [exact Hsucc |].
    right. exists msg. exact Hc.
Qed.

(** X13. No text is bound to a [VarChar] parameter with more characters
    than the parameter declares: whatever the API returns, every row that
    a call of [runOnce] sends to the database has an id, department and
    contact name of at most 255 characters, a status and destination of at
    most 30 and a template name of at most 100 (or null). *)
Theorem X13_every_row_sent_fits_its_columns (w : World) :
  exists wf batch,
    runOnce host env w = (Ok tt, wf)
    /\ io wf = (batch ++ io w)%list
    /\ forall row, In (InsertRow row) batch -> row_fits row = true.
Proof.
  destruct (running (status w)) eqn:Hr.
  - eexists. exists [].
    split; [unfold runOnce, bind, get_status; rewrite Hr; reflexivity |].
    split; [reflexivity |]. intros row [].
  - destruct (runOnce_full host env w Hr) as [Hrun _].
    destruct (full_run_stretch w) as (w1 & (_ & _ & batch & Hio & Hfit) & _ & _ & Hend).
    destruct (reset_run_run env w) as (_ & _ & _ & _ & Hio0 & _).
    rewrite Hio0 in Hio.
    exists (full_run host env w), batch.
    split; [exact Hrun |].
    split.
    + destruct Hend as [(b & ->) | (msg & ->)].
      * unfold completed. cbn [io]. exact Hio.
      * unfold aborted. cbn [io]. exact Hio.
    + intros row Hin. rewrite forallb_forall in Hfit. exact (Hfit _ Hin).
Qed.

(** X14. With a clock that never goes back, the times a run leaves in
    [status] are in order: the run started when it says, it finished no
    earlier, an error time, if there is one, lies between the two, and
    [lastSuccessAt] is either the finish time of this run or what it was
    before the run. *)
Theorem X14_times_of_a_run_are_in_order (w : World) :
  running (status w) = false ->
  monotone (clock env) ->
  exists wf finished,
    runOnce host env w = (Ok tt, wf)
    /\ lastRunStartedAt (status wf) = Some (clock env (ticks w))
    /\ lastRunFinishedAt (status wf) = Some finished
    /\ clock env (ticks w) <= finished
    /\ (forall failedAt, lastErrorAt (status wf) = Some failedAt ->
        clock env (ticks w) <= failedAt <= finished)
    /\ (lastSuccessAt (status wf) = Some finished
        \/ lastSuccessAt (status wf) = lastSuccessAt (status w)).
Proof.
  intros Hr Hmono.
  destruct (runOnce_full host env w Hr) as [Hrun _].
  destruct (full_run_stretch w) as (w1 & (Ht & He & _) & Hstart & Hsucc & Hend).
  destruct (reset_run_run env w) as (_ & Hs0 & _ & Ht0 & _).
  rewrite Ht0 in Ht, He.
  assert (He0 : lastErrorAt (status (after_reset env w)) = None) by (rewrite Hs0; reflexivity).
  rewrite He0 in He. clear Hs0 Ht0 He0.
  exists (full_run host env w).
  destruct Hend as [(b & Hfull) | (msg & Hfull)]; rewrite Hfull in *; clear Hfull.
  - exists (clock env (ticks w1)).
    split; [exact Hrun |]. clear Hrun.
    assert (Hfin : clock env (ticks w) <= clock env (ticks w1)) by (apply Hmono; lia).
    assert (Herr : forall failedAt, lastErrorAt (status w1) = Some failedAt ->
                     clock env (ticks w) <= failedAt <= clock env (ticks w1)).
    { intros failedAt Hat. destruct He as [He | (k & Hk & He)].
      - rewrite He in Hat. discriminate Hat.
      - rewrite He in Hat. injection Hat as <-.
        split; apply Hmono; lia. }
    unfold completed. destruct b; cbn.
    + split; [exact Hstart |]. split; [reflexivity |]. split; [exact Hfin |].
      split; [exact Herr | right; exact Hsucc].
    + split; [exact Hstart |]. split; [reflexivity |]. split; [exact Hfin |].
      split; [exact Herr | left; reflexivity].
  - exists (clock env (S (ticks w1))).
    split; [exact Hrun |]. clear Hrun.
    unfold aborted. cbn.
    split; [exact Hstart |]. split; [reflexivity |].
    split; [apply Hmono; lia |].
    split; [| right; exact Hsucc].
    intros failedAt Hat. injection Hat as <-. split; apply Hmono; lia.
Qed.

(** X15. A run does not clear [currentCampaignId] when it ends: once the
    campaign list has loaded, [status] keeps showing the id of the last
    campaign that the loop reached (null if that campaign has no id, or if
    the list is empty) although [running] is false again. The loop reaches
    the last campaign of the list, unless the id of an earlier one has no
    text. *)
Theorem X15_current_campaign_is_not_cleared
    (w w1 : World) (campaigns : list value) :
  running (status w) = false ->
  load_campaigns env (after_reset env w) = (Ok campaigns, w1) ->
  exists wf,
    runOnce host env w = (Ok tt, wf)
    /\ running (status wf) = false
    /\ currentCampaignId (status wf) = last_campaign_id (reached host campaigns)
    /\ (existsb (id_without_text host) campaigns = false ->
        currentCampaignId (status wf) = last_campaign_id campaigns).
Proof.
  intros Hr Hload.
  destruct (runOnce_full host env w Hr) as [Hrun Hoff].
  exists (full_run host env w).
  split; [exact Hrun |]. split; [exact Hoff |]. clear Hrun Hoff.
  cut (currentCampaignId (status (full_run host env w))
       = last_campaign_id (reached host campaigns)).
  { intros Hcur. split; [exact Hcur |]. intros Hall.
    rewrite Hcur, (reached_all campaigns Hall). reflexivity. }
  pose proof (full_run_cases host env w) as Hc. rewrite Hload in Hc.
  destruct Hc as (r & w2 & Hloop & ->).
  destruct (loop_entry env w w1 campaigns Hload) as (Htot & _).
  destruct (load_campaigns_run env (after_reset env w)) as (r' & w1' & Hload' & Hst & _).
  rewrite Hload in Hload'. injection Hload' as <- <-.
  destruct (reset_run_run env w) as (_ & Hs0 & _).
  assert (Hcur1 : currentCampaignId (status w1) = VNull) by (rewrite Hst, Hs0; reflexivity).
  clear Hload Hst Hs0.
  assert (Hcur : currentCampaignId (status w2) = last_campaign_id (reached host campaigns)).
  { destruct campaigns as [|c rest].
    - simpl in Hloop. injection Hloop as _ <-. exact Hcur1.
    - destruct (campaign_loop_current (c :: rest) 0 false w1 ltac:(lia) ltac:(lia)
                  ltac:(discriminate)) as (r' & w2' & Hloop' & Hlast).
      rewrite Hloop in Hloop'. injection Hloop' as <- <-. exact Hlast. }
  destruct r as [[|]|msg]; exact Hcur.
Qed.

End RunInvariants.

Lemma X14_times_of_a_run_are_in_order_witness :
  running (status initial_world) = false
  /\ monotone (clock scenario_env)
  /\ exists wf,
       runOnce utc_host scenario_env initial_world = (Ok tt, wf)
       /\ lastRunStartedAt (status wf) = Some 1704153600000.
Proof.
  assert (Hmono : monotone (clock scenario_env)).
  { intros a b Hab. unfold scenario_env, clock, ticking_clock. lia. }
  split; [reflexivity |]. split; [exact Hmono |].
  destruct (X14_times_of_a_run_are_in_order utc_host scenario_env initial_world
              eq_refl Hmono) as (wf & finished & Hrun & Hstart & _).
  exists wf. split; [exact Hrun | exact Hstart].
Defined.

Lemma X15_current_campaign_is_not_cleared_witness :
  running (status initial_world) = false
  /\ exists wf,
       runOnce utc_host scenario_env initial_world = (Ok tt, wf)
       /\ running (status wf) = false
       /\ currentCampaignId (status wf) = VStr "c3".
Proof.
  split; [reflexivity |].
  destruct (X15_current_campaign_is_not_cleared utc_host scenario_env initial_world
              (snd (load_campaigns scenario_env (after_reset scenario_env initial_world)))
              [campaign_row "c1"; campaign_row "c2"; campaign_row "c3"])
    as (wf & Hrun & Hoff & _ & Hcur).
  - reflexivity.
  - vm_compute. reflexivity.
  - exists wf. split; [exact Hrun |]. split; [exact Hoff | exact (Hcur eq_refl)].
Defined.

(** ** The requests of a run *)

Section RunRequests.

Variable host : Host.
Variable env : Env.

Lemma campaign_iteration_requests (i : Z) (b : bool) (campaign : value) (w : World) :
  0 <= i -> 0 <= campaignsTotal (status w) ->
  id_without_text host campaign = false ->
  exists b' w',
    campaign_iteration host env i b campaign w = (Ok b', w')
    /\ io w' = (campaign_requests host env (List.length (io w)) campaign ++ io w)%list
    /\ 0 <= campaignsTotal (status w').
Proof.
  intros Hi Ht Hnt.
  destruct (id_with_text host campaign Hnt) as [text Htext].
  set (id := opt_get campaign "id") in *.
  set (w0 := Build_World (set_currentCampaignId (or_else id VNull) (status w))
               (poolPromise w) (ticks w) (io w) (console w)).
  destruct (campaign_try_run host env id text b w0 Htext)
    as (b' & w1 & Htry & _ & ((_ & _ & _ & _ & Htot) & _) & _ & _ & Hio).
  simpl in Htot.
  destruct (progress_update_run host i w1 Hi) as (bar & _ & Hprog).
  { rewrite Htot. exact Ht. }
  exists b'. eexists.
  split.
  { unfold campaign_iteration, bind. fold id. unfold modify at 1. fold w0.
    rewrite Htry, Hprog. reflexivity. }
  cbn [io status campaignsTotal set_progressBar set_progressPercent set_campaignsProcessed].
  split; [| rewrite Htot; exact Ht].
  unfold campaign_requests. fold id. rewrite Htext.
  change (io w0) with (io w) in Hio.
  destruct (truthy id).
  - destruct (and_then (fetch_logs env (List.length (io w)) id) (mapLogs host))
      as [items|msg].
    + destruct Hio as (_ & ->). now rewrite <- app_assoc.
    + destruct Hio as (_ & -> & _). reflexivity.
  - destruct Hio as (_ & -> & _). reflexivity.
Qed.

Lemma campaign_loop_requests (campaigns : list value) :
  forall (i : Z) (b : bool) (w : World),
  0 <= i -> 0 <= campaignsTotal (status w) ->
  exists r w',
    campaign_loop host env i b campaigns w = (r, w')
    /\ io w' = (loop_requests host env (List.length (io w)) campaigns ++ io w)%list.
Proof.
  induction campaigns as [|campaign rest IH]; intros i b w Hi Ht.
  - exists (Ok b), w. split; reflexivity.
  - cbn [loop_requests].
    destruct (id_without_text host campaign) eqn:Hnt.
    + destruct (campaign_iteration_throws host env i b campaign w Hnt)
        as (msg & _ & Hrun & _).
      eexists (Throw msg), _.
      split; [simpl; unfold bind; rewrite Hrun; reflexivity | reflexivity].
    + destruct (campaign_iteration_requests i b campaign w Hi Ht Hnt)
        as (b1 & w1 & Hrun & Hio & Htot).
      destruct (IH (i + 1) b1 w1 ltac:(lia) Htot) as (r2 & w2 & Hrun2 & Hio2).
      exists r2, w2.
      split; [simpl; unfold bind; rewrite Hrun; exact Hrun2 |].
      rewrite Hio2, Hio, length_app. now rewrite <- app_assoc.
Qed.

(** The trace of a run that is not skipped is a function of the answers
    of the database and the API: neither [status], nor the clock, nor the
    way the inserts settle changes what is requested. *)
Lemma full_run_requests (w : World) :
  io (full_run host env w)
  = (run_requests host env
       (List.length (connect_request env (poolPromise w)) + List.length (io w))
     ++ connect_request env (poolPromise w) ++ io w)%list
  /\ poolPromise (full_run host env w) = (if token_missing env then poolPromise w else true).
Proof.
  destruct (reset_run_run env w) as (_ & Hs0 & Hp0 & _ & Hio0 & _).
  pose proof (full_run_cases host env w) as Hc.
  assert (Htot0 : campaignsTotal (status (after_reset env w)) = 0)
    by (rewrite Hs0; reflexivity).
  clear Hs0.
  remember (after_reset env w) as w0 eqn:E. clear E.
  destruct (load_campaigns_requests host env w0)
    as (r & w1 & Hload & Hio1 & Hp1 & _ & _ & Hr).
  destruct (load_campaigns_moves_on host env w0) as (r' & w1' & Hload' & _ & _ & _ & Htot).
  rewrite Hload in Hload'. injection Hload' as <- <-.
  rewrite Hload in Hc. clear Hload.
  rewrite Hio0, Hp0 in Hio1. rewrite Hp0 in Hp1, Hr. rewrite Hio0 in Hr.
  rewrite Htot0 in Htot. specialize (Htot ltac:(lia)).
  unfold run_requests, connect_request.
  destruct r as [campaigns|msg].
  - destruct Hc as (r & w2 & Hloop & ->).
    destruct (campaign_loop_requests campaigns 0 false w1 ltac:(lia) Htot)
      as (r' & w2' & Hloop' & Hio2).
    rewrite Hloop in Hloop'. injection Hloop' as <- <-.
    destruct (campaign_loop_run host env campaigns 0 false w1 ltac:(lia) Htot)
      as (r' & w2' & Hloop' & Hp2 & _).
    rewrite Hloop in Hloop'. injection Hloop' as <- <-.
    destruct Hr as (Htok & Hconn & Hq).
    rewrite Htok in *. rewrite Hconn in *.
    assert (Hend : io (match r with
                       | Ok b => completed env b w2
                       | Throw msg => aborted env msg w2
                       end) = io w2
                   /\ poolPromise (match r with
                                   | Ok b => completed env b w2
                                   | Throw msg => aborted env msg w2
                                   end) = poolPromise w2)
      by (destruct r; split; reflexivity).
    destruct Hend as (-> & ->). cbn [orb].
    split; [| congruence].
    rewrite Hio2, Hio1.
    destruct (poolPromise w); cbn [List.length Nat.add app] in *.
    + rewrite Nat.add_0_r in Hq. rewrite Hq. now rewrite <- app_assoc.
    + rewrite Nat.add_1_r in Hq. rewrite Hq. now rewrite <- app_assoc.
  - rewrite Hc. unfold aborted. cbn [io poolPromise].
    split; [| exact Hp1].
    rewrite Hio1.
    destruct Hr as [(Htok & _) | [(Htok & Hconn) | (Htok & Hconn & Hq)]];
      rewrite Htok; rewrite ?Hconn; cbn [orb]; [reflexivity | |].
    + destruct (poolPromise w); reflexivity.
    + destruct (poolPromise w); cbn [List.length Nat.add app] in *.
      * rewrite Nat.add_0_r in Hq. rewrite Hq. reflexivity.
      * rewrite Nat.add_1_r in Hq. rewrite Hq. reflexivity.
Qed.

Lemma campaign_requests_stationary (n m : nat) (campaign : value) :
  stationary env ->
  campaign_requests host env n campaign = campaign_requests host env m campaign.
Proof.
  intros [_ Hfetch]. unfold campaign_requests.
  now rewrite (Hfetch n m).
Qed.

Lemma loop_requests_stationary (campaigns : list value) :
  stationary env ->
  forall n m, loop_requests host env n campaigns = loop_requests host env m campaigns.
Proof.
  intros Hs. induction campaigns as [|campaign rest IH]; intros n m; [reflexivity |].
  cbn [loop_requests]. destruct (id_without_text host campaign); [reflexivity |].
  rewrite (campaign_requests_stationary n m campaign Hs).
  now rewrite (IH _ (List.length (campaign_requests host env m campaign) + m)%nat).
Qed.

Lemma run_requests_stationary (n m : nat) :
  stationary env -> run_requests host env n = run_requests host env m.
Proof.
  intros Hs. unfold run_requests.
  destruct (token_missing env); [reflexivity |].
  destruct (sql_connect env); [| reflexivity].
  rewrite (proj1 Hs n m).
  destruct (query_campaigns env m) as [campaigns|msg]; [| reflexivity].
  now rewrite (loop_requests_stationary campaigns Hs (S n) (S m)).
Qed.

(** X16. The service keeps no checkpoint. When the campaign table and the
    API answer the same way at every poll, two consecutive runs send the
    same requests: after the one connection request of the process, the
    second run queries the campaigns again, fetches every log again and
    inserts again every row that the first run inserted. *)
Theorem X16_next_run_sends_the_same_rows_again (w : World) :
  running (status w) = false ->
  stationary env ->
  exists w1 w2 batch,
    runOnce host env w = (Ok tt, w1)
    /\ runOnce host env w1 = (Ok tt, w2)
    /\ io w1 = (batch ++ connect_request env (poolPromise w) ++ io w)%list
    /\ io w2 = (batch ++ io w1)%list
    /\ batch = run_requests host env O.
Proof.
  intros Hr Hs.
  destruct (runOnce_full host env w Hr) as [Hrun Hoff].
  destruct (runOnce_full host env (full_run host env w) Hoff) as [Hrun2 _].
  destruct (full_run_requests w) as [Hio Hpool].
  destruct (full_run_requests (full_run host env w)) as [Hio2 _].
  exists (full_run host env w), (full_run host env (full_run host env w)),
    (run_requests host env O).
  split; [exact Hrun |]. split; [exact Hrun2 |]. clear Hrun Hrun2.
  split; [rewrite Hio; now rewrite (run_requests_stationary _ O Hs) |].
  split; [| reflexivity].
  rewrite Hio2, Hpool. rewrite (run_requests_stationary _ O Hs).
  unfold connect_request.
  destruct (token_missing env); reflexivity.
Qed.

End RunRequests.

Lemma X16_next_run_sends_the_same_rows_again_witness :
  running (status initial_world) = false
  /\ stationary scenario_env
  /\ exists w1 w2,
       runOnce utc_host scenario_env initial_world = (Ok tt, w1)
       /\ runOnce utc_host scenario_env w1 = (Ok tt, w2)
       /\ (List.length (io w1) = 9 /\ List.length (io w2) = 17)%nat.
Proof.
  assert (Hs : stationary scenario_env) by (split; reflexivity).
  split; [reflexivity |]. split; [exact Hs |].
  destruct (X16_next_run_sends_the_same_rows_again utc_host scenario_env initial_world
              eq_refl Hs) as (w1 & w2 & batch & Hrun & Hrun2 & Hio & Hio2 & Hbatch).
  exists w1, w2. split; [exact Hrun |]. split; [exact Hrun2 |].
  rewrite Hio2, Hio, Hbatch. vm_compute. split; reflexivity.
Defined.
